(** * Event registration application (app.py): model and verified properties

    The Flask application is embedded as pure functions over an explicit
    database value: every view function takes the session and the
    database and returns the flashed messages, the response, the session
    and the database it leaves.

    - Python strings are ASCII strings; [strip] and [lower] act on ASCII
      white space and letters.
    - The two SQLite tables are lists of records in rowid order, with the
      AUTOINCREMENT counters beside them.  [CURRENT_TIMESTAMP] is an
      integer clock.
    - Python exceptions are a result type.  The statements raise what the
      schema makes them raise (a missing column, a violated UNIQUE
      constraint); failures of the storage itself (a locked or unwritable
      file) are not modelled.
    - The session, the request form and the dictionaries handed to the
      templates are finite maps; a [sqlite3.Row] is the list of its
      columns.
    - The random source and the clock are arguments of the view functions
      that use them.  Requests of other clients that commit between two
      reads of [public_register] are an argument of it as well.
    - Ids are integers.  An id taken from the URL can be any number, and
      binding one that SQLite cannot hold raises [OverflowError]; the ids
      stored in the tables are rowids and are bound without that check. *)

From Stdlib Require Import ZArith NArith Ascii String Strings.Byte Lia.
From stdpp Require Import base option list gmap strings sorting.

Local Open Scope string_scope.
Local Open Scope Z_scope.

(** ** Python string primitives (ASCII) *)

Module PyStr.

(** [str.isspace] on one ASCII character: TAB, LF, VT, FF, CR, the four
    separators 0x1c-0x1f and the blank. *)
Definition is_space (c : ascii) : bool :=
  let n := nat_of_ascii c in
  ((9 <=? n)%nat && (n <=? 13)%nat) || ((28 <=? n)%nat && (n <=? 32)%nat).

Definition is_upper (c : ascii) : bool :=
  let n := nat_of_ascii c in (65 <=? n)%nat && (n <=? 90)%nat.

Definition is_lower (c : ascii) : bool :=
  let n := nat_of_ascii c in (97 <=? n)%nat && (n <=? 122)%nat.

Definition is_digit (c : ascii) : bool :=
  let n := nat_of_ascii c in (48 <=? n)%nat && (n <=? 57)%nat.

Definition is_alpha (c : ascii) : bool := is_upper c || is_lower c.

Definition lower_char (c : ascii) : ascii :=
  if is_upper c then ascii_of_nat (nat_of_ascii c + 32) else c.

(** [s.lower()] *)
Fixpoint lower (s : string) : string :=
  match s with
  | EmptyString => EmptyString
  | String c s' => String (lower_char c) (lower s')
  end.

(** [s.lstrip()] *)
Fixpoint lstrip (s : string) : string :=
  match s with
  | EmptyString => EmptyString
  | String c s' => if is_space c then lstrip s' else s
  end.

(** [s.rstrip()] *)
Fixpoint rstrip (s : string) : string :=
  match s with
  | EmptyString => EmptyString
  | String c s' =>
      match rstrip s' with
      | EmptyString => if is_space c then EmptyString else String c EmptyString
      | r => String c r
      end
  end.

(** [s.strip()] *)
Definition strip (s : string) : string := rstrip (lstrip s).

(** [len(s)] *)
Definition len (s : string) : Z := Z.of_nat (String.length s).

(** [not s] for a string *)
Definition is_empty (s : string) : bool :=
  match s with EmptyString => true | _ => false end.

(** [needle in hay] for strings *)
Fixpoint contains (needle hay : string) : bool :=
  String.prefix needle hay ||
  match hay with
  | EmptyString => false
  | String _ hay' => contains needle hay'
  end.

End PyStr.

(** ** The regular expression of [is_valid_email]

    The pattern is kept as a syntax tree and matched with Brzozowski
    derivatives. *)

Module Regex.

Inductive re : Type :=
| Void
| Eps
| Class (f : ascii -> bool)
| Cat (r s : re)
| Alt (r s : re)
| Star (r : re).

Fixpoint nullable (r : re) : bool :=
  match r with
  | Void => false
  | Eps => true
  | Class _ => false
  | Cat r s => nullable r && nullable s
  | Alt r s => nullable r || nullable s
  | Star _ => true
  end.

Definition cat (r s : re) : re :=
  match r, s with
  | Void, _ => Void
  | _, Void => Void
  | Eps, _ => s
  | _, _ => Cat r s
  end.

Definition alt (r s : re) : re :=
  match r, s with
  | Void, _ => s
  | _, Void => r
  | _, _ => Alt r s
  end.

Fixpoint deriv (c : ascii) (r : re) : re :=
  match r with
  | Void => Void
  | Eps => Void
  | Class f => if f c then Eps else Void
  | Cat r s =>
      if nullable r then alt (cat (deriv c r) s) (deriv c s)
      else cat (deriv c r) s
  | Alt r s => alt (deriv c r) (deriv c s)
  | Star r => cat (deriv c r) (Star r)
  end.

(** Whole-string match. *)
Fixpoint fullmatch (r : re) (s : string) : bool :=
  match s with
  | EmptyString => nullable r
  | String c s' => fullmatch (deriv c r) s'
  end.

Definition chr (c : ascii) : re := Class (fun d => bool_decide (d = c)).
Definition plus (r : re) : re := Cat r (Star r).

(** [r{n,}] *)
Fixpoint at_least (n : nat) (r : re) : re :=
  match n with
  | O => Star r
  | S n' => Cat r (at_least n' r)
  end.

(** [$] without MULTILINE: the end of the string, or just before a newline
    that ends the string. *)
Definition dollar : re := Alt Eps (chr "010"%char).

End Regex.

Import PyStr.

Definition in_chars (cs : string) (c : ascii) : bool :=
  bool_decide (c ∈ list_ascii_of_string cs).

(** [[a-zA-Z0-9._%+-]] *)
Definition email_local_class (c : ascii) : bool :=
  is_alpha c || is_digit c || in_chars "._%+-" c.

(** [[a-zA-Z0-9.-]] *)
Definition email_domain_class (c : ascii) : bool :=
  is_alpha c || is_digit c || in_chars ".-" c.

(** [^[a-zA-Z0-9._%+-]+@[a-zA-Z0-9.-]+\.[a-zA-Z]{2,}$] *)
Definition email_pattern : Regex.re :=
  Regex.Cat (Regex.plus (Regex.Class email_local_class))
    (Regex.Cat (Regex.chr "@"%char)
       (Regex.Cat (Regex.plus (Regex.Class email_domain_class))
          (Regex.Cat (Regex.chr "."%char)
             (Regex.Cat (Regex.at_least 2 (Regex.Class is_alpha))
                Regex.dollar)))).

(** [is_valid_email]: [re.match(pattern, email) is not None]. *)
Definition is_valid_email (email : string) : bool :=
  Regex.fullmatch email_pattern email.

(** ** Python values, exceptions and results *)

(** The view functions of the application, as [url_for] names them. *)
Inductive Endpoint : Type :=
| ep_login
| ep_dashboard
| ep_create_event
| ep_public_register (token : string)
| ep_registration_success (event_name participant_name : string)
| ep_view_participants (event_id : Z).

(** Values that rows and template dictionaries hold.  A URL built by
    [url_for] is kept symbolic: the endpoint and its arguments. *)
Inductive pyval : Type :=
| PNone
| PBool (b : bool)
| PInt (n : Z)
| PStr (s : string)
| PUrl (target : Endpoint).

(** Python truth value: [if v]. *)
Definition truthy (v : pyval) : bool :=
  match v with
  | PNone => false
  | PBool b => b
  | PInt n => negb (n =? 0)
  | PStr s => negb (is_empty s)
  | PUrl _ => true
  end.

Inductive exn : Type :=
| IndexError
| KeyError
| BuildError
| OperationalError (msg : string)
| IntegrityError (msg : string)
| OverflowError.

(** [isinstance(e, sqlite3.Error)] *)
Definition is_sqlite_error (e : exn) : bool :=
  match e with
  | OperationalError _ | IntegrityError _ => true
  | _ => false
  end.

(** [str(e)] *)
Definition exn_str (e : exn) : string :=
  match e with
  | IndexError => "No item with that key"
  | KeyError => "registration_token"
  | BuildError => "Could not build url for endpoint"
  | OperationalError msg => msg
  | IntegrityError msg => msg
  | OverflowError => "Python int too large to convert to SQLite INTEGER"
  end.

Inductive result (A : Type) : Type :=
| Return (a : A)
| Raise (e : exn).
Arguments Return {A} a.
Arguments Raise {A} e.

#[global] Instance result_ret : MRet result := fun A a => Return a.
#[global] Instance result_bind : MBind result := fun A B f m =>
  match m with
  | Return a => f a
  | Raise e => Raise e
  end.

#[global] Instance Endpoint_eq_dec : EqDecision Endpoint.
Proof. solve_decision. Defined.
#[global] Instance pyval_eq_dec : EqDecision pyval.
Proof. solve_decision. Defined.
#[global] Instance exn_eq_dec : EqDecision exn.
Proof. solve_decision. Defined.

(** An integer that SQLite can hold; binding any other Python integer to
    a statement raises [OverflowError].  The ids that arrive in a URL are
    arbitrary; the ids stored in the tables are rowids, which fit. *)
Definition fits_int64 (n : Z) : bool :=
  (- 2 ^ 63 <=? n) && (n <? 2 ^ 63).
Arguments fits_int64 : simpl never.

(** ** Token service *)

Definition b64url_alphabet : string :=
  "ABCDEFGHIJKLMNOPQRSTUVWXYZabcdefghijklmnopqrstuvwxyz0123456789-_".

Definition b64_char (n : N) : ascii :=
  default "A"%char (list_ascii_of_string b64url_alphabet !! N.to_nat n).

(** [base64.urlsafe_b64encode] *)
Fixpoint urlsafe_b64encode (bs : list byte) : string :=
  match bs with
  | [] => EmptyString
  | a :: [] =>
      let x := Byte.to_N a in
      String (b64_char (N.shiftr x 2))
        (String (b64_char (N.shiftl (N.land x 3) 4)) "==")
  | a :: b :: [] =>
      let x := Byte.to_N a in
      let y := Byte.to_N b in
      String (b64_char (N.shiftr x 2))
        (String (b64_char (N.lor (N.shiftl (N.land x 3) 4) (N.shiftr y 4)))
           (String (b64_char (N.shiftl (N.land y 15) 2)) "="))
  | a :: b :: c :: rest =>
      let x := Byte.to_N a in
      let y := Byte.to_N b in
      let z := Byte.to_N c in
      String (b64_char (N.shiftr x 2))
        (String (b64_char (N.lor (N.shiftl (N.land x 3) 4) (N.shiftr y 4)))
           (String (b64_char (N.lor (N.shiftl (N.land y 15) 2) (N.shiftr z 6)))
              (String (b64_char (N.land z 63)) (urlsafe_b64encode rest))))
  end.

(** [s.rstrip(c)] for a single character [c] *)
Fixpoint rstrip_char (c : ascii) (s : string) : string :=
  match s with
  | EmptyString => EmptyString
  | String d s' =>
      match rstrip_char c s' with
      | EmptyString =>
          if bool_decide (d = c) then EmptyString else String d EmptyString
      | r => String d r
      end
  end.

(** [secrets.token_urlsafe(nbytes)]; [urandom] is the operating system's
    random source as this request sees it. *)
Definition token_urlsafe (urandom : nat -> list byte) (nbytes : nat) : string :=
  rstrip_char "="%char (urlsafe_b64encode (urandom nbytes)).

Definition generate_registration_token (urandom : nat -> list byte) : string :=
  token_urlsafe urandom 16.

(** ** Persistent state *)

(** How the EVENTS table carries [registration_token]: not at all (a table
    that predates the feature and whose migration failed), as a plain
    column added by [ALTER TABLE] in [migrate_add_registration_token], or
    as the [UNIQUE] column of the [CREATE TABLE] in [init_db]. *)
Inductive TokenColumn : Type := Absent | Plain | Unique.

#[global] Instance TokenColumn_eq_dec : EqDecision TokenColumn.
Proof. solve_decision. Defined.

(** Timestamps ([CURRENT_TIMESTAMP]) are abstracted to integers. *)
Record Event : Type := mkEvent {
  ev_id : Z;
  ev_name : string;
  ev_description : option string;
  ev_date : option string;
  ev_registration_token : option string;
  ev_created_at : Z
}.

Record Participant : Type := mkParticipant {
  pt_id : Z;
  pt_event_id : Z;
  pt_name : string;
  pt_email : string;
  pt_college : string;
  pt_registered_at : Z
}.

#[global] Instance Event_eq_dec : EqDecision Event.
Proof. solve_decision. Defined.
#[global] Instance Participant_eq_dec : EqDecision Participant.
Proof. solve_decision. Defined.

(** The database file: both tables in rowid order and the AUTOINCREMENT
    counters of [sqlite_sequence]. *)
Record DB : Type := mkDB {
  token_column : TokenColumn;
  EVENTS : list Event;
  PARTICIPANTS : list Participant;
  seq_EVENTS : Z;
  seq_PARTICIPANTS : Z
}.

(** The database [init_db] creates when no file exists. *)
Definition fresh_db : DB :=
  {| token_column := Unique; EVENTS := []; PARTICIPANTS := [];
     seq_EVENTS := 0; seq_PARTICIPANTS := 0 |}.

(** AUTOINCREMENT: one more than the largest rowid the table ever held. *)
Definition next_rowid (seq : Z) (ids : list Z) : Z :=
  1 + foldr Z.max seq ids.

Definition append_event (db : DB) (e : Event) : DB :=
  {| token_column := token_column db;
     EVENTS := EVENTS db ++ [e];
     PARTICIPANTS := PARTICIPANTS db;
     seq_EVENTS := ev_id e;
     seq_PARTICIPANTS := seq_PARTICIPANTS db |}.

Definition append_participant (db : DB) (p : Participant) : DB :=
  {| token_column := token_column db;
     EVENTS := EVENTS db;
     PARTICIPANTS := PARTICIPANTS db ++ [p];
     seq_EVENTS := seq_EVENTS db;
     seq_PARTICIPANTS := pt_id p |}.

Definition set_tables (db : DB) (es : list Event) (ps : list Participant) : DB :=
  {| token_column := token_column db;
     EVENTS := es;
     PARTICIPANTS := ps;
     seq_EVENTS := seq_EVENTS db;
     seq_PARTICIPANTS := seq_PARTICIPANTS db |}.

(** [INSERT INTO EVENTS (name, description, date, registration_token)] *)
Definition insert_event_with_token
    (name description date token : string) (now : Z) (db : DB) : result DB :=
  let row :=
    {| ev_id := next_rowid (seq_EVENTS db) (ev_id <$> EVENTS db);
       ev_name := name; ev_description := Some description;
       ev_date := Some date; ev_registration_token := Some token;
       ev_created_at := now |} in
  match token_column db with
  | Absent =>
      Raise (OperationalError "table EVENTS has no column named registration_token")
  | Plain => Return (append_event db row)
  | Unique =>
      if bool_decide (Some token ∈ ev_registration_token <$> EVENTS db)
      then Raise (IntegrityError "UNIQUE constraint failed: EVENTS.registration_token")
      else Return (append_event db row)
  end.

(** [INSERT INTO EVENTS (name, description, date)] *)
Definition insert_event_without_token
    (name description date : string) (now : Z) (db : DB) : result DB :=
  Return (append_event db
    {| ev_id := next_rowid (seq_EVENTS db) (ev_id <$> EVENTS db);
       ev_name := name; ev_description := Some description;
       ev_date := Some date; ev_registration_token := None;
       ev_created_at := now |}).

(** [INSERT INTO PARTICIPANTS (event_id, name, email, college)], under
    [UNIQUE(event_id, email)].  The connection never turns foreign keys
    on, so the reference to EVENTS is not checked. *)
Definition insert_participant
    (event_id : Z) (name email college : string) (now : Z) (db : DB) : result DB :=
  if bool_decide (Exists (fun p => pt_event_id p = event_id ∧ pt_email p = email)
                    (PARTICIPANTS db))
  then Raise (IntegrityError
    "UNIQUE constraint failed: PARTICIPANTS.event_id, PARTICIPANTS.email")
  else Return (append_participant db
    {| pt_id := next_rowid (seq_PARTICIPANTS db) (pt_id <$> PARTICIPANTS db);
       pt_event_id := event_id; pt_name := name; pt_email := email;
       pt_college := college; pt_registered_at := now |}).

(** ** Database helpers *)

(** [participant_exists_in_event] *)
Definition participant_exists_in_event (email : string) (event_id : Z) (db : DB) : bool :=
  match head (filter (fun p => pt_email p = email ∧ pt_event_id p = event_id)
                (PARTICIPANTS db)) with
  | Some _ => true
  | None => false
  end.

(** [get_event_by_id]; [event_id] comes from the URL and is bound to the
    statement. *)
Definition get_event_by_id (event_id : Z) (db : DB) : result (option Event) :=
  if fits_int64 event_id
  then Return (head (filter (fun e => ev_id e = event_id) (EVENTS db)))
  else Raise OverflowError.

(** [get_event_by_token]; the query names the token column. *)
Definition get_event_by_token (token : string) (db : DB) : result (option Event) :=
  match token_column db with
  | Absent => Raise (OperationalError "no such column: registration_token")
  | _ => Return (head (filter (fun e => ev_registration_token e = Some token)
                         (EVENTS db)))
  end.

(** [get_all_events]: [ORDER BY created_at DESC].  SQL leaves the order of
    rows with equal timestamps open; the sort used here is one such
    order, and nothing below depends on which. *)
Definition created_at_desc (a b : Event) : Prop :=
  ev_created_at b ≤ ev_created_at a.

#[global] Instance created_at_desc_dec : RelDecision created_at_desc.
Proof. intros a b. unfold created_at_desc. apply _. Defined.

Definition get_all_events (db : DB) : list Event :=
  merge_sort created_at_desc (EVENTS db).

(** [get_participant_count] *)
Definition get_participant_count (event_id : Z) (db : DB) : Z :=
  Z.of_nat (length (filter (fun p => pt_event_id p = event_id) (PARTICIPANTS db))).

(** ** Rows as Python sees them *)

(** A [sqlite3.Row]: the column names of the cursor and the values. *)
Definition Row : Type := list (string * pyval).

Definition py_of_text (o : option string) : pyval :=
  match o with
  | Some s => PStr s
  | None => PNone
  end.

(** What [SELECT * FROM EVENTS] yields for one stored event; a column
    added by [ALTER TABLE] comes last. *)
Definition event_row (tc : TokenColumn) (e : Event) : Row :=
  let head_cols :=
    [("id", PInt (ev_id e)); ("name", PStr (ev_name e));
     ("description", py_of_text (ev_description e));
     ("date", py_of_text (ev_date e))] in
  let token_col := ("registration_token", py_of_text (ev_registration_token e)) in
  let created := ("created_at", PInt (ev_created_at e)) in
  match tc with
  | Absent => (head_cols ++ [created])%list
  | Plain => (head_cols ++ [created; token_col])%list
  | Unique => (head_cols ++ [token_col; created])%list
  end.

(** The argument of [get_event_token_safely]: a [sqlite3.Row] or a dict. *)
Inductive event_obj : Type :=
| SqliteRow (r : Row)
| Dict (d : gmap string pyval).

(** [event[key]]: a [sqlite3.Row] compares column names without regard to
    ASCII case and raises [IndexError]; a dict raises [KeyError]. *)
Definition getitem (event : event_obj) (key : string) : result pyval :=
  match event with
  | SqliteRow r =>
      match list_find (fun kv => lower kv.1 = lower key) r with
      | Some (_, (_, v)) => Return v
      | None => Raise IndexError
      end
  | Dict d =>
      match d !! key with
      | Some v => Return v
      | None => Raise KeyError
      end
  end.

(** [get_event_token_safely] *)
Definition get_event_token_safely (event : event_obj) : result pyval :=
  match getitem event "registration_token" with
  | Return token => Return (if truthy token then token else PNone)
  | Raise IndexError => Return PNone
  | Raise KeyError => Return PNone
  | Raise e => Raise e
  end.

(** [dict(row)] *)
Definition dict_of_row (r : Row) : gmap string pyval := list_to_map r.

(** [url_for('public_register', token=..., _external=True)]: a value of
    [None] is dropped from the arguments, and the rule cannot be built
    without its token. *)
Definition url_for_public_register (token : pyval) : result pyval :=
  match token with
  | PStr s => Return (PUrl (ep_public_register s))
  | _ => Raise BuildError
  end.

(** ** SQL [LIKE] *)

(** The pattern matching of [LIKE]: [%] stands for any run of characters,
    [_] for one character, letters match without regard to ASCII case. *)
Fixpoint like_chars (pattern text : list ascii) : bool :=
  match pattern with
  | [] => match text with [] => true | _ => false end
  | p :: pattern' =>
      if bool_decide (p = "%"%char) then
        (fix any_run (t : list ascii) : bool :=
           like_chars pattern' t ||
           match t with
           | [] => false
           | _ :: t' => any_run t'
           end) text
      else
        match text with
        | [] => false
        | c :: text' =>
            (bool_decide (p = "_"%char) || bool_decide (lower_char p = lower_char c))
            && like_chars pattern' text'
        end
  end.

(** A string as C code reads it: up to the first NUL. *)
Fixpoint c_string (s : string) : string :=
  match s with
  | EmptyString => EmptyString
  | String c s' =>
      if bool_decide (c = "000"%char) then EmptyString else String c (c_string s')
  end.

(** SQLite's default limit on the length of a LIKE pattern, in bytes; a
    longer pattern makes the statement fail as soon as a row is compared
    with it. *)
Definition SQLITE_MAX_LIKE_PATTERN_LENGTH : Z := 50000.

(** [text LIKE pattern]: SQLite matches the pattern and the text as C
    strings.  The failure on a pattern longer than
    [SQLITE_MAX_LIKE_PATTERN_LENGTH] is not modelled: what is proved of
    the matching of a search string is stated for patterns within the
    limit. *)
Definition sql_like (text pattern : string) : bool :=
  like_chars (list_ascii_of_string (c_string pattern))
    (list_ascii_of_string (c_string text)).

(** ** Requests, responses and the session *)

Inductive Method : Type := GET | POST.

Record Request : Type := mkRequest {
  method : Method;
  form : gmap string string;
  args : gmap string string
}.

(** [request.form.get(key, '')] *)
Definition form_get (req : Request) (key : string) : string :=
  default EmptyString (form req !! key).

(** [request.args.get(key, dflt)] *)
Definition args_get (req : Request) (key dflt : string) : string :=
  default dflt (args req !! key).

Inductive Response : Type :=
| redirect (target : Endpoint)
| render_login
| render_dashboard (events : list (gmap string pyval))
| render_create_event
| render_error (message description : string) (status : Z)
| render_public_register (event : Event) (token : string)
| render_success (event_name participant_name : string)
| render_participants (event : Event) (participants : list Participant)
    (search_query : string) (participant_count : Z) (registration_url : pyval).

(** What one request leaves behind: the flashed messages with their
    categories, the response, the session and the database. *)
Record Outcome : Type := mkOutcome {
  flashed : list (string * string);
  response : Response;
  session_after : gmap string pyval;
  db_after : DB
}.

(** The handler registered for status 500; an exception that leaves a view
    function ends here, and its uncommitted connection is discarded. *)
Definition internal_error (session : gmap string pyval) (db : DB) : Outcome :=
  {| flashed := [];
     response := render_error "Internal Server Error"
       "An unexpected error occurred. Please try again later." 500;
     session_after := session; db_after := db |}.

Definition dquote : string := String (ascii_of_nat 34) EmptyString.

(** ** Configuration *)

Record Config : Type := mkConfig {
  ADMIN_USERNAME : string;
  ADMIN_PASSWORD : string
}.

(** [os.environ.get('ADMIN_USERNAME', 'admin')] and
    [os.environ.get('ADMIN_PASSWORD', 'admin123')] *)
Definition config_of_environ (environ : gmap string string) : Config :=
  {| ADMIN_USERNAME := default "admin" (environ !! "ADMIN_USERNAME");
     ADMIN_PASSWORD := default "admin123" (environ !! "ADMIN_PASSWORD") |}.

(** ** Authentication *)

(** ['admin_logged_in' in session] *)
Definition logged_in (session : gmap string pyval) : bool :=
  bool_decide (is_Some (session !! "admin_logged_in")).

(** The [login_required] decorator. *)
Definition login_required
    (f : gmap string pyval -> DB -> Outcome) (session : gmap string pyval) (db : DB) : Outcome :=
  if logged_in session then f session db
  else
    {| flashed := [("Please log in to access this page.", "warning")];
       response := redirect ep_login;
       session_after := session; db_after := db |}.

(** [index] *)
Definition index (session : gmap string pyval) (db : DB) : Outcome :=
  {| flashed := [];
     response := if logged_in session then redirect ep_dashboard else redirect ep_login;
     session_after := session; db_after := db |}.

(** [login] *)
Definition login (cfg : Config) (req : Request) (session : gmap string pyval) (db : DB) : Outcome :=
  if logged_in session then
    {| flashed := []; response := redirect ep_dashboard;
       session_after := session; db_after := db |}
  else
    match method req with
    | POST =>
        let username := strip (form_get req "username") in
        let password := form_get req "password" in
        if bool_decide (username = ADMIN_USERNAME cfg)
           && bool_decide (password = ADMIN_PASSWORD cfg)
        then
          {| flashed := [("Welcome back, Admin!", "success")];
             response := redirect ep_dashboard;
             session_after :=
               <["admin_username" := PStr username]>
                 (<["admin_logged_in" := PBool true]> session);
             db_after := db |}
        else
          {| flashed := [("Invalid username or password.", "error")];
             response := redirect ep_login;
             session_after := session; db_after := db |}
    | GET =>
        {| flashed := []; response := render_login;
           session_after := session; db_after := db |}
    end.

(** [logout] *)
Definition logout (session : gmap string pyval) (db : DB) : Outcome :=
  {| flashed := [("You have been logged out successfully.", "success")];
     response := redirect ep_login;
     session_after := ∅; db_after := db |}.

(** ** Dashboard *)

(** One iteration of the loop in [dashboard]. *)
Definition event_details (db : DB) (event : Event) : result (gmap string pyval) :=
  let row := event_row (token_column db) event in
  let event_dict :=
    <["participant_count" := PInt (get_participant_count (ev_id event) db)]>
      (dict_of_row row) in
  token ← get_event_token_safely (SqliteRow row);
  if truthy token then
    url ← url_for_public_register token;
    mret (<["has_token" := PBool true]> (<["registration_url" := url]> event_dict))
  else
    mret (<["has_token" := PBool false]> (<["registration_url" := PNone]> event_dict)).

(** [dashboard] *)
Definition dashboard : gmap string pyval -> DB -> Outcome :=
  login_required (fun session db =>
    match mapM (event_details db) (get_all_events db) with
    | Return events_with_details =>
        {| flashed := []; response := render_dashboard events_with_details;
           session_after := session; db_after := db |}
    | Raise _ => internal_error session db
    end).

(** ** Event management *)

(** The two nested [try] blocks around the INSERT in [create_event]. *)
Definition create_event_insert
    (name description date registration_token : string) (now : Z) (db : DB) : result DB :=
  match insert_event_with_token name description date registration_token now db with
  | Raise (OperationalError col_err) =>
      if contains "registration_token" col_err
      then insert_event_without_token name description date now db
      else Raise (OperationalError col_err)
  | r => r
  end.

(** [create_event]; [urandom] and [now] are the random source and the
    clock as this request sees them. *)
Definition create_event
    (urandom : nat -> list byte) (now : Z) (req : Request)
    : gmap string pyval -> DB -> Outcome :=
  login_required (fun session db =>
    match method req with
    | POST =>
        let name := strip (form_get req "name") in
        let description := strip (form_get req "description") in
        let date := strip (form_get req "date") in
        if is_empty name || (len name <? 3) then
          {| flashed := [("Event name must be at least 3 characters.", "error")];
             response := redirect ep_create_event;
             session_after := session; db_after := db |}
        else if is_empty date then
          {| flashed := [("Please select an event date.", "error")];
             response := redirect ep_create_event;
             session_after := session; db_after := db |}
        else
          let registration_token := generate_registration_token urandom in
          match create_event_insert name description date registration_token now db with
          | Return db' =>
              {| flashed :=
                   [("Event " +:+ dquote +:+ name +:+ dquote +:+
                     " created successfully! Registration link generated.",
                     "success")];
                 response := redirect ep_dashboard;
                 session_after := session; db_after := db' |}
          | Raise e =>
              if is_sqlite_error e then
                {| flashed := [("Database error: " +:+ exn_str e, "error")];
                   response := redirect ep_create_event;
                   session_after := session; db_after := db |}
              else internal_error session db
          end
    | GET =>
        {| flashed := []; response := render_create_event;
           session_after := session; db_after := db |}
    end).

(** [delete_event] *)
Definition delete_event (event_id : Z) : gmap string pyval -> DB -> Outcome :=
  login_required (fun session db =>
    match get_event_by_id event_id db with
    | Raise _ => internal_error session db
    | Return None =>
        {| flashed := [("Event not found.", "error")];
           response := redirect ep_dashboard;
           session_after := session; db_after := db |}
    | Return (Some event) =>
        let participants :=
          filter (fun p => ¬ pt_event_id p = event_id) (PARTICIPANTS db) in
        let events := filter (fun e => ¬ ev_id e = event_id) (EVENTS db) in
        {| flashed :=
             [("Event " +:+ dquote +:+ ev_name event +:+ dquote +:+
               " deleted successfully.", "success")];
           response := redirect ep_dashboard;
           session_after := session;
           db_after := set_tables db events participants |}
    end).

(** ** Public registration *)

(** Every helper opens a connection of its own, so requests of other
    clients may commit between the token lookup and the duplicate check,
    and between the duplicate check and the INSERT. *)
Record Interference : Type := mkInterference {
  before_check : DB -> DB;
  before_insert : DB -> DB
}.

(** No other request commits meanwhile. *)
Definition quiet : Interference :=
  {| before_check := fun db => db; before_insert := fun db => db |}.

Definition msg_invalid_link : string := "Invalid or expired registration link.".
Definition msg_name : string := "Name must be at least 2 characters.".
Definition msg_email : string := "Please enter a valid email address.".
Definition msg_duplicate : string := "This email is already registered for this event.".
Definition msg_college : string := "College/Organization must be at least 2 characters.".
Definition msg_failed : string := "Registration failed. Please try again.".

(** [public_register] *)
Definition public_register
    (others : Interference) (now : Z) (token : string) (req : Request)
    (session : gmap string pyval) (db : DB) : Outcome :=
  match get_event_by_token token db with
  | Raise _ => internal_error session db
  | Return None =>
      {| flashed := [(msg_invalid_link, "error")];
         response := render_error "Invalid Registration Link"
           "The registration link you used is invalid or has expired." 200;
         session_after := session; db_after := db |}
  | Return (Some event) =>
      match method req with
      | POST =>
          let name := strip (form_get req "name") in
          let email := lower (strip (form_get req "email")) in
          let college := strip (form_get req "college") in
          if is_empty name || (len name <? 2) then
            {| flashed := [(msg_name, "error")];
               response := redirect (ep_public_register token);
               session_after := session; db_after := db |}
          else if is_empty email || negb (is_valid_email email) then
            {| flashed := [(msg_email, "error")];
               response := redirect (ep_public_register token);
               session_after := session; db_after := db |}
          else
            let db1 := before_check others db in
            if participant_exists_in_event email (ev_id event) db1 then
              {| flashed := [(msg_duplicate, "error")];
                 response := redirect (ep_public_register token);
                 session_after := session; db_after := db1 |}
            else if is_empty college || (len college <? 2) then
              {| flashed := [(msg_college, "error")];
                 response := redirect (ep_public_register token);
                 session_after := session; db_after := db1 |}
            else
              let db2 := before_insert others db1 in
              match insert_participant (ev_id event) name email college now db2 with
              | Return db' =>
                  {| flashed := [];
                     response := redirect (ep_registration_success (ev_name event) name);
                     session_after := session; db_after := db' |}
              | Raise (IntegrityError _) =>
                  {| flashed := [(msg_duplicate, "error")];
                     response := redirect (ep_public_register token);
                     session_after := session; db_after := db2 |}
              | Raise e =>
                  if is_sqlite_error e then
                    {| flashed := [(msg_failed, "error")];
                       response := redirect (ep_public_register token);
                       session_after := session; db_after := db2 |}
                  else internal_error session db2
              end
      | GET =>
          {| flashed := []; response := render_public_register event token;
             session_after := session; db_after := db |}
      end
  end.

(** [registration_success] *)
Definition registration_success (req : Request)
    (session : gmap string pyval) (db : DB) : Outcome :=
  {| flashed := [];
     response := render_success (args_get req "event_name" "the event")
                   (args_get req "participant_name" "Participant");
     session_after := session; db_after := db |}.

(** ** Participant management *)

Definition registered_at_desc (a b : Participant) : Prop :=
  pt_registered_at b ≤ pt_registered_at a.

#[global] Instance registered_at_desc_dec : RelDecision registered_at_desc.
Proof. intros a b. unfold registered_at_desc. apply _. Defined.

(** The WHERE clause of the search query in [view_participants]. *)
Definition search_matches (event_id : Z) (pattern : string) (p : Participant) : Prop :=
  pt_event_id p = event_id ∧
  (sql_like (lower (pt_name p)) pattern = true ∨
   sql_like (lower (pt_email p)) pattern = true).

#[global] Instance search_matches_dec event_id pattern p :
  Decision (search_matches event_id pattern p).
Proof. unfold search_matches. apply _. Defined.

(** The two SELECT statements of [view_participants]. *)
Definition select_participants (event_id : Z) (search_query : string) (db : DB)
    : list Participant :=
  if negb (is_empty search_query) then
    merge_sort registered_at_desc
      (filter (search_matches event_id ("%" +:+ search_query +:+ "%"))
         (PARTICIPANTS db))
  else
    merge_sort registered_at_desc
      (filter (fun p => pt_event_id p = event_id) (PARTICIPANTS db)).

(** [view_participants] *)
Definition view_participants (event_id : Z) (req : Request)
    : gmap string pyval -> DB -> Outcome :=
  login_required (fun session db =>
    match get_event_by_id event_id db with
    | Raise _ => internal_error session db
    | Return None =>
        {| flashed := [("Event not found.", "error")];
           response := redirect ep_dashboard;
           session_after := session; db_after := db |}
    | Return (Some event) =>
        let search_query := lower (strip (args_get req "search" EmptyString)) in
        let participants := select_participants event_id search_query db in
        match
          getitem (SqliteRow (event_row (token_column db) event)) "registration_token"
            ≫= url_for_public_register
        with
        | Return registration_url =>
            {| flashed := [];
               response := render_participants event participants search_query
                             (Z.of_nat (length participants)) registration_url;
               session_after := session; db_after := db |}
        | Raise e =>
            if is_sqlite_error e then
              {| flashed := [("Database error: " +:+ exn_str e, "error")];
                 response := render_participants event [] search_query 0
                               (PStr EmptyString);
                 session_after := session; db_after := db |}
            else internal_error session db
        end
    end).

(** [DELETE FROM PARTICIPANTS WHERE id = ? AND event_id = ?], both ids
    bound from the URL. *)
Definition delete_participant_row (participant_id event_id : Z) (db : DB) : result DB :=
  if fits_int64 participant_id && fits_int64 event_id then
    Return (set_tables db (EVENTS db)
              (filter (fun p => ¬ (pt_id p = participant_id ∧ pt_event_id p = event_id))
                 (PARTICIPANTS db)))
  else Raise OverflowError.

(** [delete_participant] *)
Definition delete_participant (event_id participant_id : Z)
    : gmap string pyval -> DB -> Outcome :=
  login_required (fun session db =>
    match delete_participant_row participant_id event_id db with
    | Return db' =>
        {| flashed := [("Participant removed successfully.", "success")];
           response := redirect (ep_view_participants event_id);
           session_after := session; db_after := db' |}
    | Raise e =>
        if is_sqlite_error e then
          {| flashed := [("Database error: " +:+ exn_str e, "error")];
             response := redirect (ep_view_participants event_id);
             session_after := session; db_after := db |}
        else internal_error session db
    end).

(** A session as [login] leaves it. *)
Definition admin_session : gmap string pyval :=
  <["admin_username" := PStr "admin"]> (<["admin_logged_in" := PBool true]> ∅).

(** ** Vocabulary of the specification *)

(** A string that does not begin with white space. *)
Definition starts_clean (s : string) : Prop :=
  match s with
  | EmptyString => True
  | String c _ => is_space c = false
  end.

(** The fields of a registration as [public_register] reads them. *)
Definition submitted_name (req : Request) : string := strip (form_get req "name").
Definition submitted_email (req : Request) : string :=
  lower (strip (form_get req "email")).
Definition submitted_college (req : Request) : string :=
  strip (form_get req "college").

(** A registration sent back to its form with one error message. *)
Definition rejected_with (token : string) (o : Outcome) (msg : string) : Prop :=
  flashed o = [(msg, "error")] ∧
  response o = redirect (ep_public_register token).

(** The count a rendered participant page shows. *)
Definition displayed_participant_count (r : Response) : option Z :=
  match r with
  | render_participants _ _ _ n _ => Some n
  | _ => None
  end.

(** The participants a rendered participant page lists. *)
Definition displayed_participants (r : Response) : option (list Participant) :=
  match r with
  | render_participants _ ps _ _ _ => Some ps
  | _ => None
  end.

(** The registration checks in the order the specification gives them,
    each with the message of its failure: name, email format, duplicate
    email, college. *)
Definition checks_in_spec_order
    (name email college : string) (duplicate : bool) : list (bool * string) :=
  [ (len name <? 2, msg_name);
    (is_empty email || negb (is_valid_email email), msg_email);
    (duplicate, msg_duplicate);
    (len college <? 2, msg_college) ].

(** The message of the first check that fails, if one does. *)
Fixpoint first_failure (checks : list (bool * string)) : option string :=
  match checks with
  | [] => None
  | (failed, msg) :: rest => if failed then Some msg else first_failure rest
  end.

(** The tokens stored in EVENTS. *)
Definition stored_tokens (db : DB) : list (option string) :=
  ev_registration_token <$> EVENTS db.

(** Invariants of the PARTICIPANTS table. *)
Definition participant_ids_unique (db : DB) : Prop :=
  NoDup (pt_id <$> PARTICIPANTS db).

Definition emails_lowercase (db : DB) : Prop :=
  ∀ p, p ∈ PARTICIPANTS db → lower (pt_email p) = pt_email p.

Definition emails_unique_per_event (db : DB) : Prop :=
  NoDup ((fun p => (pt_event_id p, lower (pt_email p))) <$> PARTICIPANTS db).

(** What every state of the PARTICIPANTS table satisfies. *)
Definition participants_ok (db : DB) : Prop :=
  emails_lowercase db ∧ emails_unique_per_event db ∧ participant_ids_unique db.

(** The databases the application produces from a fresh file: every
    request commits against a state that earlier requests, and requests
    interleaved with it, have produced. *)
Inductive reachable : DB -> Prop :=
| reach_fresh : reachable fresh_db
| reach_create_event urandom now req session db :
    reachable db →
    reachable (db_after (create_event urandom now req session db))
| reach_delete_event event_id session db :
    reachable db →
    reachable (db_after (delete_event event_id session db))
| reach_public_register others now token req session db :
    reachable db →
    reachable (before_check others db) →
    reachable (before_insert others (before_check others db)) →
    reachable (db_after (public_register others now token req session db))
| reach_delete_participant event_id participant_id session db :
    reachable db →
    reachable (db_after (delete_participant event_id participant_id session db)).

(** ** Sample data *)

Definition zero_bytes (n : nat) : list byte := replicate n x00.
Definition ff_bytes (n : nat) : list byte := replicate n xff.

Definition hack_day_form : Request :=
  {| method := POST;
     form := list_to_map [("name", "Hack Day"); ("description", EmptyString);
                          ("date", "2025-01-01")];
     args := ∅ |}.

(** One event, created from a fresh database with an all-zero random
    source. *)
Definition db_hack_day : DB :=
  db_after (create_event zero_bytes 100 hack_day_form admin_session fresh_db).

Definition token_hack_day : string := "AAAAAAAAAAAAAAAAAAAAAA".

Definition registration_form (name email college : string) : Request :=
  {| method := POST;
     form := list_to_map [("name", name); ("email", email); ("college", college)];
     args := ∅ |}.

(** The same event with Ann registered. *)
Definition db_ann : DB :=
  db_after (public_register quiet 200 token_hack_day
              (registration_form "Ann" "ann@x.com" "MIT") ∅ db_hack_day).

Definition search_request (q : string) : Request :=
  {| method := GET; form := ∅; args := list_to_map [("search", q)] |}.

(** Another request registers Ann's email between the duplicate check and
    the INSERT of this one. *)
Definition ann_registers_meanwhile : Interference :=
  {| before_check := fun db => db;
     before_insert := fun db =>
       db_after (public_register quiet 250 token_hack_day
                   (registration_form "Ann" "ann@x.com" "MIT") ∅ db) |}.

(** The configuration without environment variables. *)
Definition default_config : Config := config_of_environ ∅.

Definition login_form (username password : string) : Request :=
  {| method := POST;
     form := list_to_map [("username", username); ("password", password)];
     args := ∅ |}.

(** A table from before the token feature, and the same table after the
    migration added the column without a constraint. *)
Definition legacy_event : Event :=
  {| ev_id := 1; ev_name := "Old Meetup"; ev_description := None;
     ev_date := Some "2020-05-05"; ev_registration_token := None;
     ev_created_at := 10 |}.

Definition db_legacy : DB :=
  {| token_column := Absent; EVENTS := [legacy_event]; PARTICIPANTS := [];
     seq_EVENTS := 1; seq_PARTICIPANTS := 0 |}.

(** ** The language of a regular expression *)

(** The strings a regular expression denotes. *)
Inductive re_matches : Regex.re -> string -> Prop :=
| m_eps : re_matches Regex.Eps EmptyString
| m_class f c : f c = true → re_matches (Regex.Class f) (String c EmptyString)
| m_cat r s u v :
    re_matches r u → re_matches s v → re_matches (Regex.Cat r s) (u +:+ v)
| m_alt_l r s u : re_matches r u → re_matches (Regex.Alt r s) u
| m_alt_r r s u : re_matches s u → re_matches (Regex.Alt r s) u
| m_star_nil r : re_matches (Regex.Star r) EmptyString
| m_star_cons r u v :
    re_matches r u → re_matches (Regex.Star r) v →
    re_matches (Regex.Star r) (u +:+ v).

(** Every character of [s] satisfies [f]. *)
Fixpoint all_chars (f : ascii -> bool) (s : string) : bool :=
  match s with
  | EmptyString => true
  | String c s' => f c && all_chars f s'
  end.

Definition newline : string := String "010"%char EmptyString.

(** The shape the pattern of [is_valid_email] describes: a local part, an
    at sign, a domain, a dot and at least two letters, then possibly one
    final newline. *)
Definition email_shape (s : string) : Prop :=
  ∃ local domain tld ending,
    s = local +:+ "@" +:+ domain +:+ "." +:+ tld +:+ ending ∧
    local ≠ EmptyString ∧ all_chars email_local_class local = true ∧
    domain ≠ EmptyString ∧ all_chars email_domain_class domain = true ∧
    (2 ≤ String.length tld)%nat ∧ all_chars is_alpha tld = true ∧
    (ending = EmptyString ∨ ending = newline).

(** ** Start-up: schema creation and migration *)

Definition with_token (token : option string) (e : Event) : Event :=
  {| ev_id := ev_id e; ev_name := ev_name e; ev_description := ev_description e;
     ev_date := ev_date e; ev_registration_token := token;
     ev_created_at := ev_created_at e |}.

(** [ALTER TABLE EVENTS ADD COLUMN registration_token TEXT]: the rows that
    exist read NULL in the new column. *)
Definition add_token_column (db : DB) : DB :=
  {| token_column := Plain;
     EVENTS := with_token None <$> EVENTS db;
     PARTICIPANTS := PARTICIPANTS db;
     seq_EVENTS := seq_EVENTS db;
     seq_PARTICIPANTS := seq_PARTICIPANTS db |}.

(** [UPDATE EVENTS SET registration_token = ? WHERE id = ?]; under the
    [UNIQUE] constraint the new value of a row must not be the token of
    another row. *)
Definition update_event_token (token : string) (event_id : Z) (db : DB) : result DB :=
  let updated :=
    (fun e => if decide (ev_id e = event_id) then with_token (Some token) e else e)
      <$> EVENTS db in
  match token_column db with
  | Absent => Raise (OperationalError "no such column: registration_token")
  | Plain => Return (set_tables db updated (PARTICIPANTS db))
  | Unique =>
      if bool_decide (event_id ∈ ev_id <$> EVENTS db)
         && bool_decide (Exists (fun e => ev_id e ≠ event_id ∧
                                          ev_registration_token e = Some token)
                           (EVENTS db))
      then Raise (IntegrityError "UNIQUE constraint failed: EVENTS.registration_token")
      else Return (set_tables db updated (PARTICIPANTS db))
  end.

(** [SELECT id FROM EVENTS WHERE registration_token IS NULL OR
    registration_token = ""] *)
Definition events_without_tokens (db : DB) : list Z :=
  ev_id <$> filter (fun e => ev_registration_token e = None ∨
                             ev_registration_token e = Some EmptyString)
              (EVENTS db).

(** The loop of [migrate_add_registration_token]; [rng k] is the random
    source as the [k]-th call of [generate_registration_token] sees it. *)
Fixpoint backfill_tokens
    (rng : nat -> nat -> list byte) (call : nat) (ids : list Z) (db : DB) : result DB :=
  match ids with
  | [] => Return db
  | event_id :: rest =>
      db' ← update_event_token (generate_registration_token (rng call)) event_id db;
      backfill_tokens rng (S call) rest db'
  end.

(** [migrate_add_registration_token]: the new column is committed on its
    own; the tokens are committed together after the loop, and a
    [sqlite3.Error] in the loop is swallowed, which discards them. *)
Definition migrate_add_registration_token
    (rng : nat -> nat -> list byte) (db : DB) : result DB :=
  let db1 :=
    match token_column db with
    | Absent => add_token_column db
    | _ => db
    end in
  match backfill_tokens rng 0 (events_without_tokens db1) db1 with
  | Return db2 => Return db2
  | Raise e => if is_sqlite_error e then Return db1 else Raise e
  end.

(** [init_db]: [CREATE TABLE IF NOT EXISTS] gives a missing file both
    empty tables and leaves the tables of an existing file alone; then the
    migration runs. *)
Definition init_db (rng : nat -> nat -> list byte) (file : option DB) : result DB :=
  migrate_add_registration_token rng (default fresh_db file).

(** An event whose token is a non-empty string. *)
Definition has_token (e : Event) : Prop :=
  ∃ s, ev_registration_token e = Some s ∧ s ≠ EmptyString.

(** The columns of an event other than the token. *)
Definition event_core (e : Event) : Z * string * option string * option string * Z :=
  (ev_id e, ev_name e, ev_description e, ev_date e, ev_created_at e).

(** ** Further invariants *)

(** What every state of the EVENTS table of a database created by
    [init_db] satisfies. *)
Definition events_ok (db : DB) : Prop :=
  token_column db = Unique ∧
  NoDup (ev_id <$> EVENTS db) ∧
  NoDup (stored_tokens db) ∧
  (∀ e, e ∈ EVENTS db → is_Some (ev_registration_token e)) ∧
  (∀ e, e ∈ EVENTS db → ev_id e ≤ seq_EVENTS db).

(** Every participant belongs to a stored event. *)
Definition no_orphans (db : DB) : Prop :=
  ∀ p, p ∈ PARTICIPANTS db → pt_event_id p ∈ ev_id <$> EVENTS db.

(** The databases the application produces when requests are served one
    after the other. *)
Inductive reachable_sequentially : DB -> Prop :=
| seq_fresh : reachable_sequentially fresh_db
| seq_create_event urandom now req session db :
    reachable_sequentially db →
    reachable_sequentially (db_after (create_event urandom now req session db))
| seq_delete_event event_id session db :
    reachable_sequentially db →
    reachable_sequentially (db_after (delete_event event_id session db))
| seq_public_register now token req session db :
    reachable_sequentially db →
    reachable_sequentially (db_after (public_register quiet now token req session db))
| seq_delete_participant event_id participant_id session db :
    reachable_sequentially db →
    reachable_sequentially
      (db_after (delete_participant event_id participant_id session db)).

(** A random source that always hands out as many bytes as asked for. *)
Definition full_entropy (rng : nat -> nat -> list byte) : Prop :=
  ∀ call n, length (rng call n) = n.

Definition counting_bytes (call n : nat) : list byte :=
  replicate n (default x00 (Byte.of_nat call)).

(** The legacy table after the fallback of [create_event] added an event
    without a token. *)
Definition db_legacy_two : DB :=
  db_after (create_event zero_bytes 101 hack_day_form admin_session db_legacy).

(** The administrator deletes event 1 between the token lookup and the
    INSERT of a registration. *)
Definition event_deleted_meanwhile : Interference :=
  {| before_check := fun db => db;
     before_insert := fun db => db_after (delete_event 1 admin_session db) |}.

Definition get_request : Request := {| method := GET; form := ∅; args := ∅ |}.

Definition msg_login_required : list (string * string) :=
  [("Please log in to access this page.", "warning")].

(** The answer of the [login_required] decorator to a request without a
    session. *)
Definition sent_to_login (session : gmap string pyval) (db : DB) : Outcome :=
  {| flashed := msg_login_required; response := redirect ep_login;
     session_after := session; db_after := db |}.

(** A search string without the wildcards of [LIKE]. *)
Definition no_wildcards (s : string) : bool :=
  all_chars (fun c => negb (in_chars "%_" c)) s.

(** A string without the NUL character, at which SQLite's LIKE stops
    reading. *)
Definition no_nul (s : string) : bool :=
  all_chars (fun c => negb (bool_decide (c = "000"%char))) s.

(** [q] occurs in [text]. *)
Definition substring (q text : string) : Prop :=
  ∃ pre post, text = pre +:+ q +:+ post.

(** The four characters [urlsafe_b64encode] makes of three bytes, as
    numbers below 64, and the way back. *)
Definition sextet1 (x : N) : N := N.shiftr x 2.
Definition sextet2 (x y : N) : N := N.lor (N.shiftl (N.land x 3) 4) (N.shiftr y 4).
Definition sextet3 (y z : N) : N := N.lor (N.shiftl (N.land y 15) 2) (N.shiftr z 6).
Definition sextet4 (z : N) : N := N.land z 63.

Definition octet1 (s1 s2 : N) : N := N.lor (N.shiftl s1 2) (N.shiftr s2 4).
Definition octet2 (s2 s3 : N) : N := N.lor (N.shiftl (N.land s2 15) 4) (N.shiftr s3 2).
Definition octet3 (s3 s4 : N) : N := N.lor (N.shiftl (N.land s3 3) 6) s4.

(** The numbers below [k]. *)
Definition below (k : nat) : list N := N.of_nat <$> seq 0 k.

(** * Verified properties *)

(** ** Strings *)

Section strings.

Lemma lower_char_idem c : lower_char (lower_char c) = lower_char c.
Proof. destruct c as [[] [] [] [] [] [] [] []]; reflexivity. Qed.

Lemma is_space_lower_char c : is_space (lower_char c) = is_space c.
Proof. destruct c as [[] [] [] [] [] [] [] []]; reflexivity. Qed.

Lemma lower_idem s : lower (lower s) = lower s.
Proof.
  induction s as [|c s IH]; simpl; [reflexivity|].
  rewrite lower_char_idem, IH. reflexivity.
Qed.

Lemma lstrip_lower s : lstrip (lower s) = lower (lstrip s).
Proof.
  induction s as [|c s IH]; simpl; [reflexivity|].
  rewrite is_space_lower_char. destruct (is_space c); [exact IH | reflexivity].
Qed.

Lemma rstrip_lower s : rstrip (lower s) = lower (rstrip s).
Proof.
  induction s as [|c s IH]; simpl; [reflexivity|].
  rewrite IH, is_space_lower_char.
  destruct (rstrip s); simpl; [destruct (is_space c)|]; reflexivity.
Qed.

Lemma strip_lower s : strip (lower s) = lower (strip s).
Proof. unfold strip. rewrite lstrip_lower, rstrip_lower. reflexivity. Qed.

Lemma rstrip_cons c s :
  rstrip (String c s) =
  match rstrip s with
  | EmptyString => if is_space c then EmptyString else String c EmptyString
  | r => String c r
  end.
Proof. reflexivity. Qed.

Lemma rstrip_idem s : rstrip (rstrip s) = rstrip s.
Proof.
  induction s as [|c s IH]; [reflexivity|].
  rewrite (rstrip_cons c s).
  destruct (rstrip s) as [|d r] eqn:E.
  - destruct (is_space c) eqn:Ec; simpl; [reflexivity|]. rewrite Ec. reflexivity.
  - rewrite rstrip_cons, IH. reflexivity.
Qed.

Lemma lstrip_starts_clean s : starts_clean (lstrip s).
Proof.
  induction s as [|c s IH]; simpl; [exact I|].
  destruct (is_space c) eqn:E; [exact IH | exact E].
Qed.

Lemma rstrip_starts_clean s : starts_clean s → starts_clean (rstrip s).
Proof.
  destruct s as [|c s]; simpl; [trivial|]. intros Hc.
  destruct (rstrip s); [rewrite Hc|]; exact Hc.
Qed.

Lemma lstrip_clean s : starts_clean s → lstrip s = s.
Proof. destruct s as [|c s]; simpl; [trivial|]. intros ->. reflexivity. Qed.

Lemma strip_idem s : strip (strip s) = strip s.
Proof.
  unfold strip.
  rewrite (lstrip_clean (rstrip (lstrip s))).
  - apply rstrip_idem.
  - apply rstrip_starts_clean, lstrip_starts_clean.
Qed.

Lemma lower_strip_idem s : lower (strip (lower (strip s))) = lower (strip s).
Proof. rewrite strip_lower, strip_idem, lower_idem. reflexivity. Qed.

Lemma is_empty_true s : is_empty s = true ↔ s = EmptyString.
Proof. destruct s; simpl; split; congruence. Qed.

Lemma len_nonneg s : 0 ≤ len s.
Proof. unfold len. lia. Qed.

Lemma is_empty_len s : is_empty s = true → len s = 0.
Proof. intros ->%is_empty_true. reflexivity. Qed.

(** [not s or len(s) < n] is [len(s) < n] once [n] is positive. *)
Lemma empty_or_short s n :
  0 < n → is_empty s || (len s <? n) = (len s <? n).
Proof.
  intros Hn. destruct (is_empty s) eqn:E; [|reflexivity].
  rewrite (is_empty_len s E). simpl. symmetry. apply Z.ltb_lt. exact Hn.
Qed.

Lemma is_valid_email_nonempty s : is_valid_email s = true → is_empty s = false.
Proof. destruct s; [vm_compute; congruence | reflexivity]. Qed.

End strings.

(** ** Database helpers *)

Section helpers.

Lemma participant_exists_iff email event_id db :
  participant_exists_in_event email event_id db = true ↔
  ∃ p, p ∈ PARTICIPANTS db ∧ pt_email p = email ∧ pt_event_id p = event_id.
Proof.
  unfold participant_exists_in_event.
  destruct (head _) as [p|] eqn:E.
  - split; [intros _|reflexivity].
    apply head_Some_elem_of, list_elem_of_filter in E as [[? ?] ?]. eauto.
  - split; [discriminate|]. intros (p & Hin & He & Hi).
    apply head_None in E.
    assert (Hp : p ∈ filter (fun p => pt_email p = email ∧ pt_event_id p = event_id)
                   (PARTICIPANTS db)) by (apply list_elem_of_filter; auto).
    rewrite E in Hp. inversion Hp.
Qed.

Lemma insert_participant_duplicate event_id name email college now db :
  participant_exists_in_event email event_id db = true →
  ∃ msg, insert_participant event_id name email college now db
         = Raise (IntegrityError msg).
Proof.
  intros (p & Hin & He & Hi)%participant_exists_iff.
  unfold insert_participant. rewrite bool_decide_eq_true_2; [eauto|].
  apply Exists_exists. eauto.
Qed.

Lemma insert_participant_new event_id name email college now db :
  participant_exists_in_event email event_id db = false →
  insert_participant event_id name email college now db =
  Return (append_participant db
    {| pt_id := next_rowid (seq_PARTICIPANTS db) (pt_id <$> PARTICIPANTS db);
       pt_event_id := event_id; pt_name := name; pt_email := email;
       pt_college := college; pt_registered_at := now |}).
Proof.
  intros Hno. unfold insert_participant.
  rewrite bool_decide_eq_false_2; [reflexivity|].
  intros (p & Hin & Hi & He)%Exists_exists.
  assert (participant_exists_in_event email event_id db = true)
    by (apply participant_exists_iff; eauto).
  congruence.
Qed.

(** The token lookup finds nothing exactly when the column exists and no
    stored token equals the one asked for. *)
Lemma get_event_by_token_None token db :
  get_event_by_token token db = Return None ↔
  token_column db ≠ Absent ∧ Some token ∉ stored_tokens db.
Proof.
  unfold get_event_by_token, stored_tokens.
  split.
  - intros H. destruct (token_column db) eqn:Etc; [discriminate| |];
      (split; [discriminate|]); injection H as H; apply head_None in H;
      intros (e & He & Hin)%list_elem_of_fmap;
      (assert (Hf : e ∈ filter (fun e => ev_registration_token e = Some token) (EVENTS db))
         by (apply list_elem_of_filter; auto));
      rewrite H in Hf; inversion Hf.
  - intros [Hc Hn].
    assert (Hh : head (filter (fun e => ev_registration_token e = Some token) (EVENTS db)) = None).
    { destruct (head _) as [e|] eqn:E; [|reflexivity].
      apply head_Some_elem_of, list_elem_of_filter in E as [Ht Hin].
      exfalso. apply Hn. apply list_elem_of_fmap. eauto. }
    destruct (token_column db); [congruence| |]; rewrite Hh; reflexivity.
Qed.

Lemma get_event_by_token_Some token db event :
  get_event_by_token token db = Return (Some event) →
  event ∈ EVENTS db ∧ ev_registration_token event = Some token.
Proof.
  unfold get_event_by_token. intros H.
  assert (Hh : head (filter (fun e => ev_registration_token e = Some token) (EVENTS db))
               = Some event) by (destruct (token_column db); congruence).
  apply head_Some_elem_of, list_elem_of_filter in Hh as [? ?]. auto.
Qed.

Lemma get_event_by_id_Return event_id db found :
  get_event_by_id event_id db = Return found →
  fits_int64 event_id = true ∧
  found = head (filter (fun e => ev_id e = event_id) (EVENTS db)).
Proof.
  unfold get_event_by_id. destruct (fits_int64 event_id); [|discriminate].
  intros [= <-]. auto.
Qed.

Lemma get_event_by_id_fits event_id db :
  fits_int64 event_id = true →
  get_event_by_id event_id db
  = Return (head (filter (fun e => ev_id e = event_id) (EVENTS db))).
Proof. unfold get_event_by_id. intros ->. reflexivity. Qed.

Lemma get_event_by_id_Some event_id db event :
  get_event_by_id event_id db = Return (Some event) →
  event ∈ EVENTS db ∧ ev_id event = event_id.
Proof.
  intros [_ Hh]%get_event_by_id_Return. symmetry in Hh.
  apply head_Some_elem_of, list_elem_of_filter in Hh as [? ?]. auto.
Qed.

Lemma next_rowid_fresh seq ids i : i ∈ ids → i < next_rowid seq ids.
Proof.
  unfold next_rowid. induction 1 as [i ids | i j ids _ IH]; simpl; lia.
Qed.

Lemma length_get_all_events db : length (get_all_events db) = length (EVENTS db).
Proof. unfold get_all_events. apply Permutation_length, merge_sort_Permutation. Qed.

Lemma elem_of_get_all_events db e : e ∈ get_all_events db ↔ e ∈ EVENTS db.
Proof. unfold get_all_events. rewrite merge_sort_Permutation. reflexivity. Qed.

Lemma login_required_logged_in f session db :
  logged_in session = true → login_required f session db = f session db.
Proof. unfold login_required. intros ->. reflexivity. Qed.

Lemma logged_in_admin_session : logged_in admin_session = true.
Proof. vm_compute. reflexivity. Qed.

End helpers.

(** ** Registration with a token that resolves to no event *)

(** C7, the claim as written fails on an EVENTS table of before the token
    feature, which has no registration_token column: there no event has the
    token of the request, yet the lookup itself fails (no such column), the
    view does not catch that, and the request ends in the 500 handler
    instead of the invalid-link view. *)
Lemma public_register_invalid_token_legacy :
  let o := public_register quiet 300 "not-a-real-token" get_request ∅ db_legacy in
  (∀ e, e ∈ EVENTS db_legacy → ev_registration_token e ≠ Some "not-a-real-token") ∧
  (Some "not-a-real-token" ∉ stored_tokens db_legacy) ∧
  response o = render_error "Internal Server Error"
    "An unexpected error occurred. Please try again later." 500 ∧
  response o ≠ render_error "Invalid Registration Link"
    "The registration link you used is invalid or has expired." 200 ∧
  flashed o = [].
Proof.
  split.
  { intros e ->%list_elem_of_singleton. discriminate. }
  split.
  { intros [=]%list_elem_of_singleton. }
  split; [vm_compute; reflexivity|].
  split; [vm_compute; discriminate | vm_compute; reflexivity].
Qed.

(** C7 (amended): on an EVENTS table that has the registration_token column,
    for a token that is the registration token of no stored event, a
    registration request, GET or POST, flashes the invalid-link message,
    renders the dedicated error view, and leaves the session and the whole
    database (participants and events) as they were. *)
Theorem public_register_invalid_token others now token req session db :
  token_column db ≠ Absent →
  (∀ e, e ∈ EVENTS db → ev_registration_token e ≠ Some token) →
  let o := public_register others now token req session db in
  flashed o = [(msg_invalid_link, "error")] ∧
  response o = render_error "Invalid Registration Link"
    "The registration link you used is invalid or has expired." 200 ∧
  PARTICIPANTS (db_after o) = PARTICIPANTS db ∧
  EVENTS (db_after o) = EVENTS db ∧
  db_after o = db ∧
  session_after o = session.
Proof.
  intros Hc Hno o. subst o. unfold public_register.
  assert (H : get_event_by_token token db = Return None).
  { apply get_event_by_token_None. split; [exact Hc|].
    unfold stored_tokens. intros (e & He & Hin)%list_elem_of_fmap.
    exact (Hno e Hin (eq_sym He)). }
  rewrite H. simpl. auto 10.
Qed.

Lemma public_register_invalid_token_witness :
  token_column db_ann ≠ Absent ∧
  (∀ e, e ∈ EVENTS db_ann → ev_registration_token e ≠ Some "not-a-real-token") ∧
  let o := public_register quiet 300 "not-a-real-token"
             (registration_form "Bob" "bob@x.com" "MIT") ∅ db_ann in
  flashed o = [(msg_invalid_link, "error")] ∧
  response o = render_error "Invalid Registration Link"
    "The registration link you used is invalid or has expired." 200 ∧
  PARTICIPANTS (db_after o) = PARTICIPANTS db_ann ∧
  EVENTS (db_after o) = EVENTS db_ann ∧
  db_after o = db_ann ∧
  session_after o = ∅.
Proof.
  assert (Hc : token_column db_ann ≠ Absent) by discriminate.
  assert (Hno : ∀ e, e ∈ EVENTS db_ann →
                     ev_registration_token e ≠ Some "not-a-real-token")
    by (intros e ->%list_elem_of_singleton; discriminate).
  split; [exact Hc|]. split; [exact Hno|].
  exact (public_register_invalid_token quiet 300 "not-a-real-token"
           (registration_form "Bob" "bob@x.com" "MIT") ∅ db_ann Hc Hno).
Defined.

(** ** Deleting an event *)

(** C6: for an existing event and a logged-in administrator, deleting the
    event removes exactly that event's row and the participant rows that
    carry its id; every other event row and every participant row of
    another event is kept, in its place. *)
Theorem delete_event_cascade event_id session db event :
  logged_in session = true →
  get_event_by_id event_id db = Return (Some event) →
  let db' := db_after (delete_event event_id session db) in
  (event ∉ EVENTS db') ∧
  (∀ e, e ∈ EVENTS db' ↔ e ∈ EVENTS db ∧ ev_id e ≠ event_id) ∧
  (∀ p, p ∈ PARTICIPANTS db' ↔ p ∈ PARTICIPANTS db ∧ pt_event_id p ≠ event_id) ∧
  EVENTS db' = filter (fun e => ev_id e ≠ event_id) (EVENTS db) ∧
  PARTICIPANTS db' = filter (fun p => pt_event_id p ≠ event_id) (PARTICIPANTS db) ∧
  get_event_by_id event_id db' = Return None ∧
  get_participant_count event_id db' = 0.
Proof.
  intros Hs He db'. subst db'. unfold delete_event.
  rewrite (login_required_logged_in _ _ _ Hs). rewrite He. simpl.
  assert (Hev : ∀ e, e ∈ filter (fun e => ev_id e ≠ event_id) (EVENTS db)
                      ↔ e ∈ EVENTS db ∧ ev_id e ≠ event_id)
    by (intros e; rewrite list_elem_of_filter; tauto).
  assert (Hpt : ∀ p, p ∈ filter (fun p => pt_event_id p ≠ event_id) (PARTICIPANTS db)
                      ↔ p ∈ PARTICIPANTS db ∧ pt_event_id p ≠ event_id)
    by (intros p; rewrite list_elem_of_filter; tauto).
  split; [|split; [exact Hev|split; [exact Hpt|split; [reflexivity|split; [reflexivity|split]]]]].
  - intros [_ Hne]%Hev. apply get_event_by_id_Some in He as [_ Hid]. congruence.
  - apply get_event_by_id_Return in He as [Hfit _].
    rewrite (get_event_by_id_fits _ _ Hfit). f_equal. simpl. apply head_None.
    destruct (filter _ (filter _ _)) as [|e l] eqn:E; [reflexivity|].
    assert (Hin : e ∈ e :: l) by left. rewrite <- E in Hin.
    apply list_elem_of_filter in Hin as [Heq [Hne _]%list_elem_of_filter].
    congruence.
  - unfold get_participant_count. simpl.
    destruct (filter _ (filter _ _)) as [|p l] eqn:E; [reflexivity|].
    assert (Hin : p ∈ p :: l) by left. rewrite <- E in Hin.
    apply list_elem_of_filter in Hin as [Heq [Hne _]%list_elem_of_filter].
    congruence.
Qed.

Lemma delete_event_cascade_witness :
  logged_in admin_session = true ∧
  (∃ event, get_event_by_id 1 db_ann = Return (Some event)) ∧
  PARTICIPANTS db_ann ≠ [] ∧
  PARTICIPANTS (db_after (delete_event 1 admin_session db_ann)) = [] ∧
  get_participant_count 1 (db_after (delete_event 1 admin_session db_ann)) = 0.
Proof.
  split; [vm_compute; reflexivity|].
  split; [eexists; vm_compute; reflexivity|].
  split; [vm_compute; discriminate|].
  split; [vm_compute; reflexivity|].
  refine (proj2 (proj2 (proj2 (proj2 (proj2 (proj2
    (delete_event_cascade 1 admin_session db_ann
       (mkEvent 1 "Hack Day" (Some EmptyString) (Some "2025-01-01")
          (Some token_hack_day) 100) _ _))))))).
  - vm_compute. reflexivity.
  - vm_compute. reflexivity.
Defined.

(** ** Deleting a participant *)

(** What [delete_participant] does for a logged-in administrator: with
    both ids in SQLite's integer range the DELETE runs and the view
    redirects; with one outside it, binding the parameters raises
    OverflowError, which the view does not catch. *)
Lemma delete_participant_logged_in event_id participant_id session db :
  logged_in session = true →
  delete_participant event_id participant_id session db
  = if fits_int64 participant_id && fits_int64 event_id
    then {| flashed := [("Participant removed successfully.", "success")];
            response := redirect (ep_view_participants event_id);
            session_after := session;
            db_after := set_tables db (EVENTS db)
              (filter (fun p => ¬ (pt_id p = participant_id ∧ pt_event_id p = event_id))
                 (PARTICIPANTS db)) |}
    else internal_error session db.
Proof.
  intros Hs. unfold delete_participant.
  rewrite (login_required_logged_in _ _ _ Hs).
  unfold delete_participant_row.
  destruct (fits_int64 participant_id && fits_int64 event_id); reflexivity.
Qed.

(** C9, the claim as written fails: the route accepts any non-negative
    integer, and for a participant id of 2^63 the DELETE statement is never
    run (the parameter does not fit an SQLite INTEGER, [OverflowError]), so
    the request ends in the 500 handler and not in the redirect to the
    participant list. *)
Lemma delete_participant_beyond_int64 :
  logged_in admin_session = true ∧
  response (delete_participant 1 (2 ^ 63) admin_session db_ann)
    ≠ redirect (ep_view_participants 1) ∧
  delete_participant 1 (2 ^ 63) admin_session db_ann
    = internal_error admin_session db_ann.
Proof.
  split; [vm_compute; reflexivity|].
  split; [vm_compute; discriminate | vm_compute; reflexivity].
Qed.

(** C9 (amended): for a logged-in administrator and any pair of ids that
    fit SQLite's 64-bit integers, deleting a participant always redirects
    to the participant list of that event, with or without a row to
    remove; a row disappears only if it has both the participant id and
    the event id of the request, so a participant of that id in another
    event stays; the EVENTS table is untouched; and where participant ids
    are unique (the primary key) at most one row goes. *)
Theorem delete_participant_scoped event_id participant_id session db :
  logged_in session = true →
  fits_int64 event_id = true →
  fits_int64 participant_id = true →
  let o := delete_participant event_id participant_id session db in
  response o = redirect (ep_view_participants event_id) ∧
  EVENTS (db_after o) = EVENTS db ∧
  (∀ p, p ∈ PARTICIPANTS (db_after o) ↔
        p ∈ PARTICIPANTS db ∧ ¬ (pt_id p = participant_id ∧ pt_event_id p = event_id)) ∧
  (∀ p, p ∈ PARTICIPANTS db → pt_id p = participant_id →
        pt_event_id p ≠ event_id → p ∈ PARTICIPANTS (db_after o)) ∧
  (participant_ids_unique db →
   (length (PARTICIPANTS db) ≤ length (PARTICIPANTS (db_after o)) + 1)%nat).
Proof.
  intros Hs He Hp o. subst o.
  rewrite (delete_participant_logged_in _ _ _ _ Hs), He, Hp. simpl.
  split; [reflexivity|]. split; [reflexivity|].
  split; [intros p; rewrite list_elem_of_filter; tauto|].
  split; [intros p Hin Hid Hne; apply list_elem_of_filter; split; [tauto|exact Hin]|].
  unfold participant_ids_unique.
  induction (PARTICIPANTS db) as [|q l IH]; simpl; [lia|].
  intros Hnd. apply NoDup_cons in Hnd as [Hq Hl].
  rewrite filter_cons. destruct (decide _) as [Hk|Hk]; simpl.
  - specialize (IH Hl). lia.
  - assert (Hd : pt_id q = participant_id ∧ pt_event_id q = event_id)
      by (destruct (decide (pt_id q = participant_id ∧ pt_event_id q = event_id));
          [assumption | contradiction]).
    assert (Hall : filter (fun p => ¬ (pt_id p = participant_id ∧ pt_event_id p = event_id)) l = l).
    { clear IH Hl. induction l as [|r l IHl]; [reflexivity|].
      rewrite filter_cons. destruct (decide _) as [_|Hr].
      - f_equal. apply IHl. intros Hin. apply Hq. simpl. right. exact Hin.
      - exfalso. apply Hq. simpl.
        assert (pt_id r = participant_id)
          by (destruct (decide (pt_id r = participant_id)); [assumption|tauto]).
        replace (pt_id q) with (pt_id r) by (destruct Hd; congruence). left. }
    rewrite Hall. lia.
Qed.

Lemma delete_participant_scoped_witness :
  logged_in admin_session = true ∧
  fits_int64 1 = true ∧ fits_int64 2 = true ∧
  response (delete_participant 1 1 admin_session db_ann)
    = redirect (ep_view_participants 1) ∧
  response (delete_participant 2 1 admin_session db_ann)
    = redirect (ep_view_participants 2) ∧
  PARTICIPANTS (db_after (delete_participant 1 1 admin_session db_ann)) = [] ∧
  PARTICIPANTS (db_after (delete_participant 2 1 admin_session db_ann))
    = PARTICIPANTS db_ann.
Proof.
  split; [vm_compute; reflexivity|].
  split; [vm_compute; reflexivity|].
  split; [vm_compute; reflexivity|].
  split; [exact (proj1 (delete_participant_scoped 1 1 admin_session db_ann
                          logged_in_admin_session eq_refl eq_refl))|].
  split; [exact (proj1 (delete_participant_scoped 2 1 admin_session db_ann
                          logged_in_admin_session eq_refl eq_refl))|].
  split; vm_compute; reflexivity.
Defined.

(** ** Administrator login *)

Section login.

Lemma logged_in_insert_flag (session : gmap string pyval) v w :
  logged_in (<["admin_username" := w]> (<["admin_logged_in" := v]> session)) = true.
Proof.
  unfold logged_in. apply bool_decide_eq_true_2.
  rewrite lookup_insert_ne by discriminate. rewrite lookup_insert_eq. eauto.
Qed.

(** What a POST to [login] does without a session: it compares the
    trimmed username and the password as typed. *)
Lemma login_post cfg req session db :
  logged_in session = false →
  method req = POST →
  let username := strip (form_get req "username") in
  let password := form_get req "password" in
  let o := login cfg req session db in
  (username = ADMIN_USERNAME cfg ∧ password = ADMIN_PASSWORD cfg →
     session_after o =
       <["admin_username" := PStr username]>
         (<["admin_logged_in" := PBool true]> session) ∧
     response o = redirect ep_dashboard) ∧
  (¬ (username = ADMIN_USERNAME cfg ∧ password = ADMIN_PASSWORD cfg) →
     session_after o = session ∧
     flashed o = [("Invalid username or password.", "error")] ∧
     response o = redirect ep_login) ∧
  db_after o = db.
Proof.
  intros Hs Hm username password o. subst o. unfold login.
  rewrite Hs, Hm. fold username password.
  destruct (bool_decide (username = ADMIN_USERNAME cfg)) eqn:Eu;
    destruct (bool_decide (password = ADMIN_PASSWORD cfg)) eqn:Ep; simpl;
    try apply bool_decide_eq_true in Eu; try apply bool_decide_eq_true in Ep;
    try apply bool_decide_eq_false in Eu; try apply bool_decide_eq_false in Ep;
    (split; [|split]); try reflexivity; try tauto.
Qed.

End login.

(** C8, as amended: without a session, a POST to login establishes the
    admin session exactly when the submitted username, with leading and
    trailing white space removed, equals the configured username and the
    submitted password equals the configured password as typed; every
    other pair flashes the invalid-credentials message, redirects to the
    login page and leaves the session as it was. *)
Theorem login_iff_trimmed_match cfg req session db :
  logged_in session = false →
  method req = POST →
  let o := login cfg req session db in
  (logged_in (session_after o) = true ↔
     strip (form_get req "username") = ADMIN_USERNAME cfg ∧
     form_get req "password" = ADMIN_PASSWORD cfg) ∧
  (logged_in (session_after o) = true →
     response o = redirect ep_dashboard ∧
     session_after o !! "admin_logged_in" = Some (PBool true)) ∧
  (logged_in (session_after o) = false →
     session_after o = session ∧
     flashed o = [("Invalid username or password.", "error")] ∧
     response o = redirect ep_login).
Proof.
  intros Hs Hm o.
  destruct (login_post cfg req session db Hs Hm) as (Hyes & Hno & _).
  fold o in Hyes, Hno.
  destruct (decide (strip (form_get req "username") = ADMIN_USERNAME cfg ∧
                    form_get req "password" = ADMIN_PASSWORD cfg)) as [Hok|Hbad].
  - destruct (Hyes Hok) as [Hsess Hresp].
    assert (Hin : logged_in (session_after o) = true)
      by (rewrite Hsess; apply logged_in_insert_flag).
    split; [tauto|]. split; [|congruence].
    intros _. split; [exact Hresp|].
    rewrite Hsess. rewrite lookup_insert_ne by discriminate. apply lookup_insert_eq.
  - destruct (Hno Hbad) as (Hsess & Hfl & Hresp).
    assert (Hout : logged_in (session_after o) = false) by (rewrite Hsess; exact Hs).
    split; [split; [congruence|tauto]|]. split; [congruence|]. auto.
Qed.

Lemma login_iff_trimmed_match_witness :
  logged_in ∅ = false ∧
  method (login_form "admin" "admin123") = POST ∧
  logged_in (session_after (login default_config (login_form "admin" "admin123") ∅ fresh_db))
    = true ∧
  logged_in (session_after (login default_config (login_form "admin" "Admin123") ∅ fresh_db))
    = false.
Proof.
  split; [vm_compute; reflexivity|]. split; [reflexivity|].
  split.
  - assert (Hs : logged_in (∅ : gmap string pyval) = false) by (vm_compute; reflexivity).
    apply (proj1 (login_iff_trimmed_match default_config
                    (login_form "admin" "admin123") ∅ fresh_db Hs eq_refl)).
    split; vm_compute; reflexivity.
  - vm_compute. reflexivity.
Defined.

(** C8 as stated fails: a username typed with a leading blank is not the
    configured username, yet it logs the administrator in. *)
Lemma login_accepts_padded_username :
  let cfg := default_config in
  let req := login_form " admin" "admin123" in
  logged_in ∅ = false ∧
  (form_get req "username", form_get req "password")
    ≠ (ADMIN_USERNAME cfg, ADMIN_PASSWORD cfg) ∧
  logged_in (session_after (login cfg req ∅ fresh_db)) = true ∧
  response (login cfg req ∅ fresh_db) = redirect ep_dashboard.
Proof.
  split; [vm_compute; reflexivity|].
  split; [vm_compute; discriminate|].
  split; vm_compute; reflexivity.
Qed.

(** ** Public registration: validation order and duplicates *)

Section registration.

Variable others : Interference.
Variable now : Z.
Variable token : string.
Variable req : Request.
Variable session : gmap string pyval.
Variable db : DB.
Variable event : Event.

Hypothesis Hevent : get_event_by_token token db = Return (Some event).
Hypothesis Hpost : method req = POST.

Local Abbreviation name := (submitted_name req).
Local Abbreviation email := (submitted_email req).
Local Abbreviation college := (submitted_college req).
Local Abbreviation db1 := (before_check others db).
Local Abbreviation db2 := (before_insert others (before_check others db)).
Local Abbreviation o := (public_register others now token req session db).
Local Abbreviation rejected := (rejected_with token).

Ltac open_fields :=
  unfold public_register, rejected_with,
    submitted_name, submitted_email, submitted_college in *.

Lemma register_name_short :
  len name < 2 → rejected o msg_name ∧ db_after o = db ∧ session_after o = session.
Proof using Hevent Hpost.
  intros Hn. open_fields.
  rewrite Hevent, Hpost.
  rewrite empty_or_short by lia.
  rewrite (proj2 (Z.ltb_lt _ _) Hn). simpl. auto.
Qed.

Lemma register_email_invalid :
  2 ≤ len name →
  is_empty email || negb (is_valid_email email) = true →
  rejected o msg_email ∧ db_after o = db ∧ session_after o = session.
Proof using Hevent Hpost.
  intros Hn He. open_fields.
  rewrite Hevent, Hpost.
  rewrite empty_or_short by lia.
  rewrite (proj2 (Z.ltb_ge _ _) Hn), He. simpl. auto.
Qed.

Lemma register_duplicate_found :
  2 ≤ len name →
  is_valid_email email = true →
  participant_exists_in_event email (ev_id event) db1 = true →
  rejected o msg_duplicate ∧ db_after o = db1 ∧ session_after o = session.
Proof using Hevent Hpost.
  intros Hn He Hd. open_fields.
  rewrite Hevent, Hpost.
  rewrite empty_or_short by lia.
  rewrite (proj2 (Z.ltb_ge _ _) Hn), (is_valid_email_nonempty _ He), He.
  simpl. rewrite Hd. simpl. auto.
Qed.

Lemma register_college_short :
  2 ≤ len name →
  is_valid_email email = true →
  participant_exists_in_event email (ev_id event) db1 = false →
  len college < 2 →
  rejected o msg_college ∧ db_after o = db1 ∧ session_after o = session.
Proof using Hevent Hpost.
  intros Hn He Hd Hc. open_fields.
  rewrite Hevent, Hpost.
  rewrite !empty_or_short by lia.
  rewrite (proj2 (Z.ltb_ge _ _) Hn), (is_valid_email_nonempty _ He), He.
  simpl. rewrite Hd, (proj2 (Z.ltb_lt _ _) Hc). simpl. auto.
Qed.

(** Every check passed: the INSERT runs on the latest state. *)
Lemma register_reaches_insert :
  2 ≤ len name →
  is_valid_email email = true →
  participant_exists_in_event email (ev_id event) db1 = false →
  2 ≤ len college →
  o = match insert_participant (ev_id event) name email college now db2 with
      | Return db' =>
          {| flashed := [];
             response := redirect (ep_registration_success (ev_name event) name);
             session_after := session; db_after := db' |}
      | Raise (IntegrityError _) =>
          {| flashed := [(msg_duplicate, "error")];
             response := redirect (ep_public_register token);
             session_after := session; db_after := db2 |}
      | Raise e =>
          if is_sqlite_error e then
            {| flashed := [(msg_failed, "error")];
               response := redirect (ep_public_register token);
               session_after := session; db_after := db2 |}
          else internal_error session db2
      end.
Proof using Hevent Hpost.
  intros Hn He Hd Hc. open_fields.
  rewrite Hevent, Hpost.
  rewrite !empty_or_short by lia.
  rewrite (proj2 (Z.ltb_ge _ _) Hn), (is_valid_email_nonempty _ He), He.
  simpl. rewrite Hd, (proj2 (Z.ltb_ge _ _) Hc). reflexivity.
Qed.

Lemma register_duplicate_at_insert :
  2 ≤ len name →
  is_valid_email email = true →
  participant_exists_in_event email (ev_id event) db1 = false →
  2 ≤ len college →
  participant_exists_in_event email (ev_id event) db2 = true →
  rejected o msg_duplicate ∧ db_after o = db2 ∧ session_after o = session.
Proof using Hevent Hpost.
  intros Hn He Hd Hc Hd2.
  rewrite (register_reaches_insert Hn He Hd Hc).
  destruct (insert_participant_duplicate (ev_id event) name email college now db2 Hd2)
    as [msg ->].
  unfold rejected_with. simpl. auto.
Qed.

Lemma register_success :
  2 ≤ len name →
  is_valid_email email = true →
  participant_exists_in_event email (ev_id event) db1 = false →
  2 ≤ len college →
  participant_exists_in_event email (ev_id event) db2 = false →
  flashed o = [] ∧
  response o = redirect (ep_registration_success (ev_name event) name) ∧
  session_after o = session ∧
  db_after o = append_participant db2
    {| pt_id := next_rowid (seq_PARTICIPANTS db2) (pt_id <$> PARTICIPANTS db2);
       pt_event_id := ev_id event; pt_name := name; pt_email := email;
       pt_college := college; pt_registered_at := now |}.
Proof using Hevent Hpost.
  intros Hn He Hd Hc Hd2.
  rewrite (register_reaches_insert Hn He Hd Hc).
  rewrite (insert_participant_new _ _ _ _ _ _ Hd2). simpl. auto.
Qed.

End registration.

(** C4: on a POST for an existing event, whenever at least one of the four
    checks fails, the request is sent back to its form with exactly the
    message of the first failing check in the order name, email format,
    duplicate email, college; no participant is written. *)
Theorem public_register_first_failure others now token req session db event msg :
  get_event_by_token token db = Return (Some event) →
  method req = POST →
  first_failure
    (checks_in_spec_order (submitted_name req) (submitted_email req)
       (submitted_college req)
       (participant_exists_in_event (submitted_email req) (ev_id event)
          (before_check others db))) = Some msg →
  let o := public_register others now token req session db in
  flashed o = [(msg, "error")] ∧
  response o = redirect (ep_public_register token) ∧
  session_after o = session ∧
  (db_after o = db ∨ db_after o = before_check others db).
Proof.
  intros Hev Hpost Hfirst o. subst o.
  unfold checks_in_spec_order, first_failure in Hfirst.
  destruct (len (submitted_name req) <? 2) eqn:En.
  { apply Z.ltb_lt in En. injection Hfirst as <-.
    destruct (register_name_short others now token req session db event Hev Hpost En)
      as ([? ?] & ? & ?). auto. }
  apply Z.ltb_ge in En.
  destruct (is_empty (submitted_email req) || negb (is_valid_email (submitted_email req)))
    eqn:Ee.
  { injection Hfirst as <-.
    destruct (register_email_invalid others now token req session db event Hev Hpost En Ee)
      as ([? ?] & ? & ?). auto. }
  apply orb_false_elim in Ee as [_ Ee]. apply negb_false_iff in Ee.
  destruct (participant_exists_in_event _ _ _) eqn:Ed.
  { injection Hfirst as <-.
    destruct (register_duplicate_found others now token req session db event
                Hev Hpost En Ee Ed) as ([? ?] & ? & ?). auto. }
  destruct (len (submitted_college req) <? 2) eqn:Ec; [|discriminate].
  apply Z.ltb_lt in Ec. injection Hfirst as <-.
  destruct (register_college_short others now token req session db event
              Hev Hpost En Ee Ed Ec) as ([? ?] & ? & ?). auto.
Qed.

Lemma public_register_first_failure_witness :
  (** every field is wrong and the email is not registered: the name wins *)
  flashed (public_register quiet 300 token_hack_day
             (registration_form "A" "not-an-email" "M") ∅ db_ann)
    = [(msg_name, "error")] ∧
  (** a good name, a bad email and a bad college: the email wins *)
  flashed (public_register quiet 300 token_hack_day
             (registration_form "Bo" "not-an-email" "M") ∅ db_ann)
    = [(msg_email, "error")] ∧
  (** a registered email and a bad college: the duplicate wins *)
  flashed (public_register quiet 300 token_hack_day
             (registration_form "Bo" "ANN@x.com" "M") ∅ db_ann)
    = [(msg_duplicate, "error")] ∧
  (** only the college is wrong *)
  flashed (public_register quiet 300 token_hack_day
             (registration_form "Bo" "bo@x.com" "M") ∅ db_ann)
    = [(msg_college, "error")].
Proof.
  assert (Hev : get_event_by_token token_hack_day db_ann
                = Return (Some (mkEvent 1 "Hack Day" (Some EmptyString)
                                  (Some "2025-01-01") (Some token_hack_day) 100)))
    by (vm_compute; reflexivity).
  split; [|split; [|split]].
  - apply (public_register_first_failure quiet 300 token_hack_day
             (registration_form "A" "not-an-email" "M") ∅ db_ann _ msg_name Hev eq_refl).
    vm_compute. reflexivity.
  - apply (public_register_first_failure quiet 300 token_hack_day
             (registration_form "Bo" "not-an-email" "M") ∅ db_ann _ msg_email Hev eq_refl).
    vm_compute. reflexivity.
  - apply (public_register_first_failure quiet 300 token_hack_day
             (registration_form "Bo" "ANN@x.com" "M") ∅ db_ann _ msg_duplicate Hev eq_refl).
    vm_compute. reflexivity.
  - apply (public_register_first_failure quiet 300 token_hack_day
             (registration_form "Bo" "bo@x.com" "M") ∅ db_ann _ msg_college Hev eq_refl).
    vm_compute. reflexivity.
Defined.

(** C2, as amended: on a POST for an existing event whose trimmed name has
    at least two characters and whose lowercased email is well formed, a
    duplicate found by the existence check, or (the college being valid)
    met only by the INSERT because another request registered the email
    in between, gives the same outcome: the already-registered message and
    a redirect to the form.  The attempt writes nothing: the database is
    the one it checked, or the one it tried to insert into; without
    concurrent requests it is the database before the call, with the same
    participant count. *)
Theorem public_register_duplicate others now token req session db event :
  get_event_by_token token db = Return (Some event) →
  method req = POST →
  2 ≤ len (submitted_name req) →
  is_valid_email (submitted_email req) = true →
  let db1 := before_check others db in
  let db2 := before_insert others db1 in
  participant_exists_in_event (submitted_email req) (ev_id event) db1 = true ∨
  (2 ≤ len (submitted_college req) ∧
   participant_exists_in_event (submitted_email req) (ev_id event) db2 = true) →
  let o := public_register others now token req session db in
  flashed o = [(msg_duplicate, "error")] ∧
  response o = redirect (ep_public_register token) ∧
  session_after o = session ∧
  (db_after o = db1 ∨ db_after o = db2) ∧
  (others = quiet →
   db_after o = db ∧
   PARTICIPANTS (db_after o) = PARTICIPANTS db ∧
   get_participant_count (ev_id event) (db_after o)
     = get_participant_count (ev_id event) db).
Proof.
  intros Hev Hpost Hn He db1 db2 Hdup o.
  assert (H : rejected_with token o msg_duplicate ∧
              (db_after o = db1 ∨ db_after o = db2) ∧ session_after o = session).
  { destruct (participant_exists_in_event (submitted_email req) (ev_id event) db1) eqn:Ed.
    - destruct (register_duplicate_found others now token req session db event
                  Hev Hpost Hn He Ed) as (? & ? & ?). auto.
    - destruct Hdup as [?|[Hc Hd2]]; [discriminate|].
      destruct (register_duplicate_at_insert others now token req session db event
                  Hev Hpost Hn He Ed Hc Hd2) as (? & ? & ?). auto. }
  destruct H as ([Hf Hr] & Hdb & Hs).
  repeat (split; [assumption|]).
  intros ->. subst db1 db2. simpl in Hdb.
  assert (Heq : db_after o = db) by (destruct Hdb; assumption).
  rewrite Heq. auto.
Qed.

Lemma public_register_duplicate_witness :
  let o := public_register quiet 300 token_hack_day
             (registration_form "Ann" "ann@x.com" "MIT") ∅ db_ann in
  get_participant_count 1 db_ann = 1 ∧
  flashed o = [(msg_duplicate, "error")] ∧
  response o = redirect (ep_public_register token_hack_day) ∧
  get_participant_count 1 (db_after o) = 1.
Proof.
  assert (Hev : get_event_by_token token_hack_day db_ann
                = Return (Some (mkEvent 1 "Hack Day" (Some EmptyString)
                                  (Some "2025-01-01") (Some token_hack_day) 100)))
    by (vm_compute; reflexivity).
  assert (Hn : 2 ≤ len (submitted_name (registration_form "Ann" "ann@x.com" "MIT")))
    by (vm_compute; discriminate).
  assert (He : is_valid_email (submitted_email (registration_form "Ann" "ann@x.com" "MIT"))
               = true) by (vm_compute; reflexivity).
  assert (Hd : participant_exists_in_event
                 (submitted_email (registration_form "Ann" "ann@x.com" "MIT")) 1
                 (before_check quiet db_ann) = true) by (vm_compute; reflexivity).
  destruct (public_register_duplicate quiet 300 token_hack_day
              (registration_form "Ann" "ann@x.com" "MIT") ∅ db_ann _ Hev eq_refl Hn He
              (or_introl Hd))
    as (Hf & Hr & _ & _ & Hq).
  destruct (Hq eq_refl) as (_ & _ & Hc).
  split; [vm_compute; reflexivity|].
  split; [exact Hf|]. split; [exact Hr|].
  etransitivity; [exact Hc | vm_compute; reflexivity].
Defined.

(** The same outcome when the duplicate appears only between the check and
    the INSERT. *)
Example public_register_duplicate_race :
  let o := public_register ann_registers_meanwhile 300 token_hack_day
             (registration_form "Anna" "Ann@X.com" "MIT") ∅ db_hack_day in
  participant_exists_in_event "ann@x.com" 1 db_hack_day = false ∧
  flashed o = [(msg_duplicate, "error")] ∧
  response o = redirect (ep_public_register token_hack_day) ∧
  PARTICIPANTS (db_after o) = [mkParticipant 1 1 "Ann" "ann@x.com" "MIT" 250].
Proof. vm_compute. auto. Qed.

(** C2 as stated fails: with a one-letter name the registered email is
    never looked up, and the outcome is the name message. *)
Lemma public_register_duplicate_with_short_name :
  let req := registration_form "A" "ann@x.com" "MIT" in
  let o := public_register quiet 300 token_hack_day req ∅ db_ann in
  (∃ event, get_event_by_token token_hack_day db_ann = Return (Some event) ∧
            participant_exists_in_event (submitted_email req) (ev_id event) db_ann = true) ∧
  flashed o = [(msg_name, "error")] ∧
  flashed o ≠ [(msg_duplicate, "error")].
Proof.
  split; [eexists; split; vm_compute; reflexivity|].
  split; [vm_compute; reflexivity | vm_compute; discriminate].
Qed.

(** ** The participant page *)

Section participants_page.

Lemma length_filter_impl {A} (P Q : A → Prop)
    `{!∀ x, Decision (P x)} `{!∀ x, Decision (Q x)} (l : list A) :
  (∀ x, P x → Q x) → (length (filter P l) ≤ length (filter Q l))%nat.
Proof.
  intros HPQ. induction l as [|x l IH]; [reflexivity|].
  rewrite !filter_cons.
  destruct (decide (P x)) as [HP|HP], (decide (Q x)) as [HQ|HQ]; simpl; try lia.
  exfalso. auto.
Qed.

Lemma length_select_participants_all event_id db :
  Z.of_nat (length (select_participants event_id EmptyString db))
  = get_participant_count event_id db.
Proof.
  unfold select_participants, get_participant_count. simpl.
  f_equal. apply Permutation_length, merge_sort_Permutation.
Qed.

Lemma length_select_participants_search event_id q db :
  q ≠ EmptyString →
  length (select_participants event_id q db)
  = length (filter (search_matches event_id ("%" +:+ q +:+ "%")) (PARTICIPANTS db)).
Proof.
  intros Hq. unfold select_participants.
  destruct q; [congruence|]. simpl negb. cbv iota.
  apply Permutation_length, merge_sort_Permutation.
Qed.

Lemma length_select_participants_le event_id q db :
  Z.of_nat (length (select_participants event_id q db))
  ≤ get_participant_count event_id db.
Proof.
  destruct (decide (q = EmptyString)) as [->|Hq].
  - rewrite length_select_participants_all. lia.
  - rewrite (length_select_participants_search _ _ _ Hq).
    unfold get_participant_count. apply inj_le.
    apply length_filter_impl. intros p [? _]. assumption.
Qed.

(** Reading the token column and building the URL never raises a
    [sqlite3.Error]. *)
Lemma registration_url_not_sqlite_error row e :
  getitem row "registration_token" ≫= url_for_public_register = Raise e →
  is_sqlite_error e = false.
Proof.
  destruct row as [r|d]; simpl.
  - destruct (list_find _ r) as [[? [? v]]|]; simpl.
    + destruct v; simpl; intros [= <-]; reflexivity.
    + intros [= <-]. reflexivity.
  - destruct (d !! _) as [v|]; simpl.
    + destruct v; simpl; intros [= <-]; reflexivity.
    + intros [= <-]. reflexivity.
Qed.

(** The page, when it is rendered, lists the selected participants and
    shows their number. *)
Lemma view_participants_rendered event_id req session db ev ps q n url :
  response (view_participants event_id req session db)
    = render_participants ev ps q n url →
  q = lower (strip (args_get req "search" EmptyString)) ∧
  ps = select_participants event_id q db ∧
  n = Z.of_nat (length ps).
Proof.
  unfold view_participants, login_required.
  destruct (logged_in session); [|discriminate].
  destruct (get_event_by_id event_id db) as [[event|]|]; [|discriminate..].
  destruct (getitem _ _ ≫= url_for_public_register) as [u|e] eqn:E.
  - simpl. intros [= <- <- <- <- <-]. auto.
  - rewrite (registration_url_not_sqlite_error _ _ E). discriminate.
Qed.

End participants_page.

(** C3, as amended: whenever the participant page is rendered, the count
    it shows is the length of the list it shows; without a search string
    (after trimming and lowercasing) that is
    [get_participant_count event_id]; with a search string it is the
    number of the event's participants whose lowercased name or email
    matches the pattern, which never exceeds
    [get_participant_count event_id]. *)
Theorem view_participants_count event_id req session db n :
  displayed_participant_count (response (view_participants event_id req session db))
    = Some n →
  let q := lower (strip (args_get req "search" EmptyString)) in
  (∃ ps, displayed_participants (response (view_participants event_id req session db))
           = Some ps ∧ n = Z.of_nat (length ps)) ∧
  (q = EmptyString → n = get_participant_count event_id db) ∧
  (q ≠ EmptyString →
   n = Z.of_nat (length (filter (search_matches event_id ("%" +:+ q +:+ "%"))
                           (PARTICIPANTS db)))) ∧
  n ≤ get_participant_count event_id db.
Proof.
  intros Hn q.
  destruct (response (view_participants event_id req session db))
    as [| | | | | | |ev ps q' n' url] eqn:E; try discriminate.
  injection Hn as ->.
  apply view_participants_rendered in E as (Hq & -> & ->). fold q in Hq. subst q'.
  split; [eexists; split; reflexivity|].
  split; [intros ->; apply length_select_participants_all|].
  split; [intros Hne; f_equal; apply length_select_participants_search, Hne|].
  apply length_select_participants_le.
Qed.

Lemma view_participants_count_witness :
  displayed_participant_count
    (response (view_participants 1 (search_request EmptyString) admin_session db_ann))
    = Some 1 ∧
  1 = get_participant_count 1 db_ann.
Proof.
  assert (Hn : displayed_participant_count
            (response (view_participants 1 (search_request EmptyString) admin_session db_ann))
            = Some 1) by (vm_compute; reflexivity).
  split; [exact Hn|].
  apply (proj1 (proj2 (view_participants_count 1 (search_request EmptyString)
                         admin_session db_ann 1 Hn))).
  vm_compute. reflexivity.
Defined.

(** C3 as stated fails: a search that matches nobody shows the count 0 for
    an event that has one participant. *)
Lemma view_participants_count_under_search :
  let o := view_participants 1 (search_request "zz") admin_session db_ann in
  (∃ event, get_event_by_id 1 db_ann = Return (Some event)) ∧
  displayed_participant_count (response o) = Some 0 ∧
  get_participant_count 1 db_ann = 1 ∧
  displayed_participant_count (response o) ≠ Some (get_participant_count 1 db_ann).
Proof.
  split; [eexists; vm_compute; reflexivity|].
  split; [vm_compute; reflexivity|].
  split; [vm_compute; reflexivity | vm_compute; discriminate].
Qed.

Example view_participants_search_hit :
  displayed_participants
    (response (view_participants 1 (search_request " AN ") admin_session db_ann))
  = Some [mkParticipant 1 1 "Ann" "ann@x.com" "MIT" 200].
Proof. vm_compute. reflexivity. Qed.

(** ** Reading the token of an event defensively *)

Section token_accessor.

Lemma getitem_raises event key e :
  getitem event key = Raise e → e = IndexError ∨ e = KeyError.
Proof.
  destruct event as [r|d]; simpl.
  - destruct (list_find _ r) as [[? [? ?]]|]; [discriminate|]. intros [= <-]. auto.
  - destruct (d !! key); [discriminate|]. intros [= <-]. auto.
Qed.

Lemma get_event_token_safely_spec event :
  get_event_token_safely event =
  Return match getitem event "registration_token" with
         | Return token => if truthy token then token else PNone
         | Raise _ => PNone
         end.
Proof.
  unfold get_event_token_safely.
  destruct (getitem event "registration_token") as [v|e] eqn:E; [reflexivity|].
  apply getitem_raises in E as [-> | ->]; reflexivity.
Qed.

(** The token of a stored event, as the dashboard reads it. *)
Lemma token_of_event_row tc e :
  get_event_token_safely (SqliteRow (event_row tc e)) =
  Return match tc, ev_registration_token e with
         | Absent, _ => PNone
         | _, None => PNone
         | _, Some s => if is_empty s then PNone else PStr s
         end.
Proof.
  rewrite get_event_token_safely_spec. f_equal.
  destruct e as [i n d dt [[|c s]|] ca], tc; vm_compute; reflexivity.
Qed.

Lemma event_details_no_token db e :
  token_column db = Absent ∨ ev_registration_token e = None ∨
  ev_registration_token e = Some EmptyString →
  ∃ d, event_details db e = Return d ∧
       d !! "registration_url" = Some PNone ∧
       d !! "has_token" = Some (PBool false).
Proof.
  intros H. unfold event_details. rewrite token_of_event_row.
  assert (Hv : match token_column db, ev_registration_token e with
               | Absent, _ => PNone
               | _, None => PNone
               | _, Some s => if is_empty s then PNone else PStr s
               end = PNone).
  { destruct H as [-> | [-> | ->]]; [reflexivity| |]; destruct (token_column db); reflexivity. }
  rewrite Hv. simpl. eexists. split; [reflexivity|].
  split.
  - rewrite lookup_insert_ne by discriminate. apply lookup_insert_eq.
  - apply lookup_insert_eq.
Qed.

Lemma event_details_returns db e : ∃ d, event_details db e = Return d.
Proof.
  unfold event_details. rewrite token_of_event_row.
  destruct (token_column db), (ev_registration_token e) as [[|c s]|]; simpl; eauto.
Qed.

Lemma mapM_result_returns {A B} (f : A → result B) (l : list A) :
  (∀ x, ∃ y, f x = Return y) →
  ∃ ys, mapM f l = Return ys ∧ Forall2 (fun x y => f x = Return y) l ys.
Proof.
  intros Hf. induction l as [|x l (ys & Hys & Hall)]; simpl.
  - exists []. split; [reflexivity | constructor].
  - destruct (Hf x) as [y Hy]. exists (y :: ys).
    rewrite Hy. simpl. rewrite Hys. simpl. split; [reflexivity|].
    constructor; assumption.
Qed.

Lemma dashboard_renders session db :
  logged_in session = true →
  ∃ events,
    dashboard session db =
      {| flashed := []; response := render_dashboard events;
         session_after := session; db_after := db |} ∧
    Forall2 (fun e d => event_details db e = Return d) (get_all_events db) events.
Proof.
  intros Hs. unfold dashboard. rewrite (login_required_logged_in _ _ _ Hs).
  destruct (mapM_result_returns (event_details db) (get_all_events db)
              (event_details_returns db)) as (events & -> & Hall).
  eauto.
Qed.

End token_accessor.

(** C10: [get_event_token_safely] returns a value for every row or dict
    and never raises: the stored token when the field holds a non-empty
    string, [None] when the field is missing, [None] or the empty string.
    For a logged-in administrator the dashboard is always rendered, with
    one entry per stored event, and the entry of an event whose token is
    missing, NULL or empty has [registration_url] set to [None] and
    [has_token] set to [False]. *)
Theorem get_event_token_safely_total :
  (∀ event, ∃ v, get_event_token_safely event = Return v) ∧
  (∀ event s,
     getitem event "registration_token" = Return (PStr s) → s ≠ EmptyString →
     get_event_token_safely event = Return (PStr s)) ∧
  (∀ event,
     (∃ e, getitem event "registration_token" = Raise e) ∨
     getitem event "registration_token" = Return PNone ∨
     getitem event "registration_token" = Return (PStr EmptyString) →
     get_event_token_safely event = Return PNone) ∧
  (∀ session db,
     logged_in session = true →
     ∃ events,
       response (dashboard session db) = render_dashboard events ∧
       db_after (dashboard session db) = db ∧
       length events = length (EVENTS db) ∧
       ∀ i e,
         get_all_events db !! i = Some e →
         token_column db = Absent ∨ ev_registration_token e = None ∨
         ev_registration_token e = Some EmptyString →
         ∃ d, events !! i = Some d ∧
              d !! "registration_url" = Some PNone ∧
              d !! "has_token" = Some (PBool false)).
Proof.
  split; [|split; [|split]].
  - intros event. rewrite get_event_token_safely_spec. eauto.
  - intros event s Hg Hs. rewrite get_event_token_safely_spec, Hg.
    destruct s; [congruence | reflexivity].
  - intros event H. rewrite get_event_token_safely_spec.
    destruct H as [[e ->] | [-> | ->]]; reflexivity.
  - intros session db Hs.
    destruct (dashboard_renders session db Hs) as (events & -> & Hall).
    exists events. simpl. split; [reflexivity|]. split; [reflexivity|].
    split.
    + rewrite <- (Forall2_length _ _ _ Hall). apply length_get_all_events.
    + intros i e Hi Hno.
      destruct (Forall2_lookup_l _ _ _ _ _ Hall Hi) as (d & Hd & Hdet).
      destruct (event_details_no_token db e Hno) as (d' & Hd' & Hurl & Hhas).
      exists d. assert (d = d') by congruence. subst d'. auto.
Qed.

Example get_event_token_safely_legacy_row :
  get_event_token_safely (SqliteRow (event_row Absent legacy_event)) = Return PNone ∧
  get_event_token_safely (Dict ∅) = Return PNone ∧
  get_event_token_safely (SqliteRow (event_row Plain legacy_event)) = Return PNone ∧
  get_event_token_safely (SqliteRow [("REGISTRATION_TOKEN", PStr "t0k")])
    = Return (PStr "t0k").
Proof. vm_compute. auto. Qed.

Example dashboard_legacy :
  ∃ d, response (dashboard admin_session db_legacy) = render_dashboard [d] ∧
       d !! "registration_url" = Some PNone ∧
       d !! "has_token" = Some (PBool false) ∧
       d !! "participant_count" = Some (PInt 0) ∧
       d !! "registration_token" = None.
Proof. eexists. vm_compute. auto. Qed.

Example dashboard_with_token :
  ∃ d, response (dashboard admin_session db_ann) = render_dashboard [d] ∧
       d !! "registration_url" = Some (PUrl (ep_public_register token_hack_day)) ∧
       d !! "has_token" = Some (PBool true) ∧
       d !! "participant_count" = Some (PInt 1).
Proof. eexists. vm_compute. auto. Qed.

(** ** Creating an event *)

Section create_event.

Variable urandom : nat -> list byte.
Variable now : Z.
Variable req : Request.
Variable session : gmap string pyval.
Variable db : DB.

Local Abbreviation name := (strip (form_get req "name")).
Local Abbreviation description := (strip (form_get req "description")).
Local Abbreviation date := (strip (form_get req "date")).
Local Abbreviation token := (generate_registration_token urandom).
Local Abbreviation new_id := (next_rowid (seq_EVENTS db) (ev_id <$> EVENTS db)).

Lemma create_event_insert_fresh :
  token_column db ≠ Absent →
  Some token ∉ stored_tokens db →
  create_event_insert name description date token now db =
  Return (append_event db
            (mkEvent new_id name (Some description) (Some date) (Some token) now)).
Proof.
  intros Hc Hn. unfold create_event_insert, insert_event_with_token.
  destruct (token_column db); [congruence|reflexivity|].
  rewrite bool_decide_eq_false_2 by exact Hn. reflexivity.
Qed.

Lemma create_event_insert_collision :
  token_column db = Unique →
  Some token ∈ stored_tokens db →
  create_event_insert name description date token now db =
  Raise (IntegrityError "UNIQUE constraint failed: EVENTS.registration_token").
Proof.
  intros Hc Hn. unfold create_event_insert, insert_event_with_token.
  rewrite Hc. rewrite bool_decide_eq_true_2 by exact Hn. reflexivity.
Qed.

(** The fallback of [create_event]: a table without the column takes the
    row without a token. *)
Lemma create_event_insert_fallback :
  token_column db = Absent →
  create_event_insert name description date token now db =
  Return (append_event db
            (mkEvent new_id name (Some description) (Some date) None now)).
Proof.
  intros Hc. unfold create_event_insert, insert_event_with_token.
  rewrite Hc. reflexivity.
Qed.

Lemma create_event_insert_participants db' :
  create_event_insert name description date token now db = Return db' →
  PARTICIPANTS db' = PARTICIPANTS db.
Proof.
  unfold create_event_insert, insert_event_with_token, insert_event_without_token.
  destruct (token_column db); simpl.
  - intros [= <-]. reflexivity.
  - intros [= <-]. reflexivity.
  - destruct (bool_decide _); simpl; [discriminate|]. intros [= <-]. reflexivity.
Qed.

(** A valid POST of a logged-in administrator reaches the INSERT. *)
Lemma create_event_valid :
  logged_in session = true →
  method req = POST →
  3 ≤ len name →
  date ≠ EmptyString →
  create_event urandom now req session db =
  match create_event_insert name description date token now db with
  | Return db' =>
      {| flashed :=
           [("Event " +:+ dquote +:+ name +:+ dquote +:+
             " created successfully! Registration link generated.", "success")];
         response := redirect ep_dashboard;
         session_after := session; db_after := db' |}
  | Raise e =>
      if is_sqlite_error e then
        {| flashed := [("Database error: " +:+ exn_str e, "error")];
           response := redirect ep_create_event;
           session_after := session; db_after := db |}
      else internal_error session db
  end.
Proof.
  intros Hs Hm Hn Hd. unfold create_event.
  rewrite (login_required_logged_in _ _ _ Hs). rewrite Hm.
  rewrite empty_or_short by lia.
  rewrite (proj2 (Z.ltb_ge _ _) Hn). simpl.
  destruct (is_empty date) eqn:E; [apply is_empty_true in E; congruence|].
  reflexivity.
Qed.

Lemma create_event_participants :
  PARTICIPANTS (db_after (create_event urandom now req session db)) = PARTICIPANTS db.
Proof.
  unfold create_event, login_required.
  destruct (logged_in session); [|reflexivity].
  destruct (method req); [reflexivity|].
  destruct (_ || _); [reflexivity|].
  destruct (is_empty _); [reflexivity|].
  destruct (create_event_insert _ _ _ _ _ _) as [db'|e] eqn:E.
  - simpl. exact (create_event_insert_participants db' E).
  - destruct (is_sqlite_error e); reflexivity.
Qed.

End create_event.

(** C1, as amended: for a logged-in administrator, a POST whose trimmed
    name has at least three characters and whose trimmed date is not
    empty, on a table that has the token column: if the generated token
    equals no stored token, exactly one event row is appended, it carries
    that token (not NULL), which differs from the token of every row that
    was there, and nothing else changes; if the generated token equals a
    stored one and the column is [UNIQUE], no row is inserted, the
    database is unchanged and the administrator is sent back to the form
    with a database error. *)
Theorem create_event_token urandom now req session db :
  logged_in session = true →
  method req = POST →
  3 ≤ len (strip (form_get req "name")) →
  strip (form_get req "date") ≠ EmptyString →
  token_column db ≠ Absent →
  let token := generate_registration_token urandom in
  let o := create_event urandom now req session db in
  (Some token ∉ stored_tokens db →
     ∃ row,
       EVENTS (db_after o) = (EVENTS db ++ [row])%list ∧
       ev_registration_token row = Some token ∧
       (∀ e, e ∈ EVENTS db → ev_registration_token e ≠ ev_registration_token row) ∧
       (∀ e, e ∈ EVENTS db → ev_id e ≠ ev_id row) ∧
       PARTICIPANTS (db_after o) = PARTICIPANTS db ∧
       response o = redirect ep_dashboard) ∧
  (Some token ∈ stored_tokens db → token_column db = Unique →
     db_after o = db ∧
     response o = redirect ep_create_event ∧
     flashed o =
       [("Database error: UNIQUE constraint failed: EVENTS.registration_token",
         "error")]).
Proof.
  intros Hs Hm Hn Hd Hc token o. subst o.
  rewrite (create_event_valid urandom now req session db Hs Hm Hn Hd).
  split.
  - intros Hfresh.
    rewrite (create_event_insert_fresh urandom now req db Hc Hfresh).
    exists (mkEvent (next_rowid (seq_EVENTS db) (ev_id <$> EVENTS db))
              (strip (form_get req "name")) (Some (strip (form_get req "description")))
              (Some (strip (form_get req "date"))) (Some token) now).
    split; [reflexivity|]. split; [reflexivity|].
    split; [|split; [|split; reflexivity]].
    + intros e He Heq. apply Hfresh. apply list_elem_of_fmap.
      exists e. split; [symmetry; exact Heq | exact He].
    + intros e He Heq. cbn [ev_id] in Heq.
      assert (Hlt : ev_id e < next_rowid (seq_EVENTS db) (ev_id <$> EVENTS db))
        by (apply next_rowid_fresh, list_elem_of_fmap_2; exact He).
      lia.
  - intros Hin Hu.
    rewrite (create_event_insert_collision urandom now req db Hu Hin). simpl. auto.
Qed.

Lemma create_event_token_witness :
  let o := create_event ff_bytes 101 hack_day_form admin_session db_hack_day in
  token_column db_hack_day ≠ Absent ∧
  (Some (generate_registration_token ff_bytes) ∉ stored_tokens db_hack_day) ∧
  ∃ row,
    EVENTS (db_after o) = (EVENTS db_hack_day ++ [row])%list ∧
    ev_registration_token row = Some "_____________________w".
Proof.
  assert (Hc : token_column db_hack_day ≠ Absent) by (vm_compute; discriminate).
  assert (Hf : Some (generate_registration_token ff_bytes) ∉ stored_tokens db_hack_day).
  { vm_compute. intros H. inversion H as [|? ? ? H']; subst; inversion H'. }
  assert (Hn : 3 ≤ len (strip (form_get hack_day_form "name")))
    by (vm_compute; discriminate).
  assert (Hd : strip (form_get hack_day_form "date") ≠ EmptyString)
    by (vm_compute; discriminate).
  split; [exact Hc|]. split; [exact Hf|].
  destruct (proj1 (create_event_token ff_bytes 101 hack_day_form admin_session db_hack_day
                     logged_in_admin_session eq_refl Hn Hd Hc) Hf)
    as (row & Hrow & Htok & _).
  exists row. split; [exact Hrow|]. rewrite Htok. vm_compute. reflexivity.
Defined.

(** C1 as stated fails: when the random source yields a token that is
    already stored, the valid request inserts no row at all. *)
Lemma create_event_token_collision :
  let o := create_event zero_bytes 101 hack_day_form admin_session db_hack_day in
  3 ≤ len (strip (form_get hack_day_form "name")) ∧
  strip (form_get hack_day_form "date") ≠ EmptyString ∧
  EVENTS (db_after o) = EVENTS db_hack_day ∧
  ¬ (∃ row, EVENTS (db_after o) = (EVENTS db_hack_day ++ [row])%list).
Proof.
  split; [vm_compute; discriminate|].
  split; [vm_compute; discriminate|].
  split; [vm_compute; reflexivity|].
  intros [row H]. vm_compute in H. discriminate H.
Qed.

(** On a table without the column the row goes in without a token. *)
Example create_event_without_column :
  let o := create_event zero_bytes 101 hack_day_form admin_session db_legacy in
  EVENTS (db_after o) =
    [legacy_event;
     mkEvent 2 "Hack Day" (Some EmptyString) (Some "2025-01-01") None 101] ∧
  response o = redirect ep_dashboard.
Proof. vm_compute. auto. Qed.

(** ** Invariants of the participant table *)

Section invariants.

Lemma participants_ok_fresh : participants_ok fresh_db.
Proof.
  unfold participants_ok, emails_lowercase, emails_unique_per_event,
    participant_ids_unique. simpl.
  split; [intros p Hp; inversion Hp|]. split; constructor.
Qed.

Lemma participants_ok_same db db' :
  PARTICIPANTS db' = PARTICIPANTS db → participants_ok db → participants_ok db'.
Proof.
  unfold participants_ok, emails_lowercase, emails_unique_per_event,
    participant_ids_unique. intros ->. trivial.
Qed.

Lemma participants_ok_filter (P : Participant → Prop) `{!∀ p, Decision (P p)} db db' :
  PARTICIPANTS db' = filter P (PARTICIPANTS db) →
  participants_ok db → participants_ok db'.
Proof.
  unfold participants_ok, emails_lowercase, emails_unique_per_event,
    participant_ids_unique. intros -> (Hl & Hu & Hi).
  split; [intros p [_ Hp]%list_elem_of_filter; auto|].
  split; eapply sublist_NoDup; try eassumption;
    apply fmap_sublist, sublist_filter.
Qed.

Lemma participants_ok_append db event_id name email college now :
  participants_ok db →
  lower email = email →
  participant_exists_in_event email event_id db = false →
  participants_ok
    (append_participant db
       {| pt_id := next_rowid (seq_PARTICIPANTS db) (pt_id <$> PARTICIPANTS db);
          pt_event_id := event_id; pt_name := name; pt_email := email;
          pt_college := college; pt_registered_at := now |}).
Proof.
  unfold participants_ok, emails_lowercase, emails_unique_per_event,
    participant_ids_unique. intros (Hl & Hu & Hi) He Hno. simpl.
  split; [|split].
  - intros p [Hp | ->%list_elem_of_singleton]%elem_of_app; [auto | exact He].
  - rewrite fmap_app. apply NoDup_app. split; [exact Hu|]. simpl.
    split; [|apply NoDup_singleton].
    intros k (p & -> & Hp)%list_elem_of_fmap [= Hid Hem]%list_elem_of_singleton.
    rewrite (Hl p Hp), He in Hem.
    assert (participant_exists_in_event email event_id db = true)
      by (apply participant_exists_iff; eauto).
    congruence.
  - rewrite fmap_app. apply NoDup_app. split; [exact Hi|]. simpl.
    split; [|apply NoDup_singleton].
    intros i Hin ->%list_elem_of_singleton.
    apply (next_rowid_fresh (seq_PARTICIPANTS db)) in Hin. lia.
Qed.

(** Where a registration leaves the database: as it found it at one of
    its three reads, or with one row added whose email is the submitted
    one, lowercased, and was not registered for the event. *)
Lemma public_register_db_after others now token req session db :
  let o := public_register others now token req session db in
  let db1 := before_check others db in
  let db2 := before_insert others db1 in
  db_after o = db ∨ db_after o = db1 ∨ db_after o = db2 ∨
  ∃ event,
    get_event_by_token token db = Return (Some event) ∧
    participant_exists_in_event (submitted_email req) (ev_id event) db2 = false ∧
    response o = redirect (ep_registration_success (ev_name event) (submitted_name req)) ∧
    db_after o = append_participant db2
      {| pt_id := next_rowid (seq_PARTICIPANTS db2) (pt_id <$> PARTICIPANTS db2);
         pt_event_id := ev_id event; pt_name := submitted_name req;
         pt_email := submitted_email req; pt_college := submitted_college req;
         pt_registered_at := now |}.
Proof.
  intros o db1 db2. subst o db1 db2.
  unfold public_register, submitted_name, submitted_email, submitted_college.
  destruct (get_event_by_token token db) as [[event|]|e]; simpl; auto.
  destruct (method req); simpl; auto.
  destruct (_ || _); simpl; auto.
  destruct (_ || _); simpl; auto.
  destruct (participant_exists_in_event _ _ (before_check others db)); simpl; auto.
  destruct (_ || _); simpl; auto.
  destruct (participant_exists_in_event (lower (strip (form_get req "email")))
              (ev_id event) (before_insert others (before_check others db))) eqn:E.
  - destruct (insert_participant_duplicate (ev_id event)
                (strip (form_get req "name")) _ (strip (form_get req "college")) now _ E)
      as [msg ->]. simpl. auto.
  - rewrite (insert_participant_new _ _ _ _ _ _ E). simpl.
    right. right. right. exists event. auto.
Qed.

Lemma reachable_participants_ok db : reachable db → participants_ok db.
Proof.
  induction 1 as [| urandom now req session db _ IH
                  | event_id session db _ IH
                  | others now token req session db _ IH _ IH1 _ IH2
                  | event_id participant_id session db _ IH].
  - apply participants_ok_fresh.
  - eapply participants_ok_same; [apply create_event_participants | exact IH].
  - unfold delete_event, login_required.
    destruct (logged_in session); [|exact IH].
    destruct (get_event_by_id event_id db) as [[event|]|]; [|exact IH..].
    eapply participants_ok_filter; [|exact IH]. reflexivity.
  - destruct (public_register_db_after others now token req session db)
      as [-> | [-> | [-> | (event & _ & Hno & _ & ->)]]]; try assumption.
    apply participants_ok_append; [exact IH2 | apply lower_idem | exact Hno].
  - unfold delete_participant, login_required, delete_participant_row.
    destruct (logged_in session); [|exact IH].
    destruct (fits_int64 participant_id && fits_int64 event_id); [|exact IH].
    eapply participants_ok_filter; [|exact IH]. reflexivity.
Qed.

End invariants.

(** ** Email normalisation *)

Section email.

Lemma participant_exists_false email event_id db :
  participant_exists_in_event email event_id db = false →
  filter (fun p => pt_email p = email ∧ pt_event_id p = event_id) (PARTICIPANTS db) = [].
Proof.
  unfold participant_exists_in_event.
  destruct (head _) eqn:E; [discriminate|]. intros _. apply head_None. exact E.
Qed.

(** A registration that ends on the success page has passed every check
    and added its row. *)
Lemma public_register_success_inv others now token req session db en pn :
  let o := public_register others now token req session db in
  let db2 := before_insert others (before_check others db) in
  response o = redirect (ep_registration_success en pn) →
  ∃ event,
    get_event_by_token token db = Return (Some event) ∧
    method req = POST ∧
    2 ≤ len (submitted_name req) ∧
    is_valid_email (submitted_email req) = true ∧
    participant_exists_in_event (submitted_email req) (ev_id event) db2 = false ∧
    db_after o = append_participant db2
      {| pt_id := next_rowid (seq_PARTICIPANTS db2) (pt_id <$> PARTICIPANTS db2);
         pt_event_id := ev_id event; pt_name := submitted_name req;
         pt_email := submitted_email req; pt_college := submitted_college req;
         pt_registered_at := now |}.
Proof.
  intros o db2. subst o db2.
  unfold public_register, submitted_name, submitted_email, submitted_college.
  destruct (get_event_by_token token db) as [[event|]|e]; simpl; try discriminate.
  destruct (method req); simpl; try discriminate.
  destruct (is_empty (strip (form_get req "name")) || _) eqn:En; simpl;
    try discriminate.
  destruct (is_empty (lower (strip (form_get req "email"))) || _) eqn:Ev; simpl;
    try discriminate.
  destruct (participant_exists_in_event _ _ (before_check others db)); simpl;
    try discriminate.
  destruct (is_empty (strip (form_get req "college")) || _); simpl; try discriminate.
  destruct (participant_exists_in_event (lower (strip (form_get req "email")))
              (ev_id event) (before_insert others (before_check others db))) eqn:E.
  - destruct (insert_participant_duplicate (ev_id event)
                (strip (form_get req "name")) _ (strip (form_get req "college")) now _ E)
      as [msg ->]. simpl. discriminate.
  - rewrite (insert_participant_new _ _ _ _ _ _ E). simpl. intros _.
    apply orb_false_elim in Ev as [_ Ev]. apply negb_false_iff in Ev.
    apply orb_false_elim in En as [_ En]. apply Z.ltb_ge in En.
    exists event. auto 10.
Qed.

End email.

(** C5: trimming and lowercasing an email twice is the same as doing it
    once; in every database the application produces, each participant row
    holds a lowercased email and no two rows of one event have the same
    lowercased email; a registration POST for an existing event with a
    name and a college of at least two characters and a well-formed email
    that no stored row of the event has (at the duplicate check and at the
    INSERT) succeeds and stores one row, with the email trimmed and
    lowercased, which is exactly what a query by any email of the same
    normalised form finds; after a registration succeeded, any submission
    whose email differs from the registered one only in case (or
    surrounding blanks) looks up exactly the registered row and, sent for
    the same event with a name of at least two characters (the registered
    name is one), is rejected as already registered without a write.
    ['Foo@X.com'], ['foo@x.com'] and ['FOO@X.COM'] are such submissions:
    registering ['Foo@X.com'] for Hack Day stores ['foo@x.com'], the query
    by ['foo@x.com'] finds that row, and ['FOO@X.COM'] sent afterwards is
    rejected as a duplicate. *)
Theorem email_case_insensitive :
  (∀ s, lower (strip (lower (strip s))) = lower (strip s)) ∧
  (∀ db, reachable db → emails_lowercase db ∧ emails_unique_per_event db) ∧
  (∀ others now token req session db event,
     get_event_by_token token db = Return (Some event) →
     method req = POST →
     2 ≤ len (submitted_name req) →
     is_valid_email (submitted_email req) = true →
     2 ≤ len (submitted_college req) →
     let db1 := before_check others db in
     let db2 := before_insert others db1 in
     (∀ p, p ∈ PARTICIPANTS db1 → pt_event_id p = ev_id event →
           pt_email p ≠ submitted_email req) →
     (∀ p, p ∈ PARTICIPANTS db2 → pt_event_id p = ev_id event →
           pt_email p ≠ submitted_email req) →
     let o := public_register others now token req session db in
     response o
       = redirect (ep_registration_success (ev_name event) (submitted_name req)) ∧
     ∃ row,
       PARTICIPANTS (db_after o) = (PARTICIPANTS db2 ++ [row])%list ∧
       pt_event_id row = ev_id event ∧
       pt_name row = submitted_name req ∧
       pt_email row = lower (strip (form_get req "email")) ∧
       ∀ req2,
         submitted_email req2 = submitted_email req →
         filter (fun p => pt_email p = submitted_email req2 ∧ pt_event_id p = ev_id event)
           (PARTICIPANTS (db_after o)) = [row]) ∧
  (∀ others now token req session db en pn,
     let o := public_register others now token req session db in
     let db' := db_after o in
     response o = redirect (ep_registration_success en pn) →
     ∃ event row,
       get_event_by_token token db = Return (Some event) ∧
       pt_event_id row = ev_id event ∧
       pt_email row = submitted_email req ∧
       lower (pt_email row) = pt_email row ∧
       2 ≤ len (submitted_name req) ∧
       ∀ req2,
         submitted_email req2 = submitted_email req →
         filter (fun p => pt_email p = submitted_email req2 ∧ pt_event_id p = ev_id event)
           (PARTICIPANTS db') = [row] ∧
         participant_exists_in_event (submitted_email req2) (ev_id event) db' = true ∧
         ∀ now2 session2,
           method req2 = POST →
           2 ≤ len (submitted_name req2) →
           get_event_by_token token db' = Return (Some event) →
           let o2 := public_register quiet now2 token req2 session2 db' in
           flashed o2 = [(msg_duplicate, "error")] ∧
           response o2 = redirect (ep_public_register token) ∧
           db_after o2 = db') ∧
  (∀ name college,
     submitted_email (registration_form name "Foo@X.com" college) = "foo@x.com" ∧
     submitted_email (registration_form name "foo@x.com" college) = "foo@x.com" ∧
     submitted_email (registration_form name "FOO@X.COM" college) = "foo@x.com") ∧
  (let first := public_register quiet 200 token_hack_day
                  (registration_form "Ann" "Foo@X.com" "MIT") ∅ db_hack_day in
   let again := public_register quiet 300 token_hack_day
                  (registration_form "Bob" "FOO@X.COM" "MIT") ∅ (db_after first) in
   let row := mkParticipant 1 1 "Ann" "foo@x.com" "MIT" 200 in
   response first = redirect (ep_registration_success "Hack Day" "Ann") ∧
   PARTICIPANTS (db_after first) = [row] ∧
   filter (fun p => pt_email p = "foo@x.com" ∧ pt_event_id p = 1)
     (PARTICIPANTS (db_after first)) = [row] ∧
   participant_exists_in_event "foo@x.com" 1 (db_after first) = true ∧
   flashed again = [(msg_duplicate, "error")] ∧
   response again = redirect (ep_public_register token_hack_day) ∧
   db_after again = db_after first).
Proof.
  split; [exact lower_strip_idem|].
  split; [intros db (Hl & Hu & _)%reachable_participants_ok; auto|].
  split.
  { intros others now token req session db event Hev Hpost Hn Hv Hc db1 db2 Hno1 Hno2 o.
    subst db1 db2.
    assert (H1 : participant_exists_in_event (submitted_email req) (ev_id event)
                   (before_check others db) = false).
    { apply not_true_is_false. intros (p & Hin & He & Hi)%participant_exists_iff.
      exact (Hno1 p Hin Hi He). }
    assert (H2 : participant_exists_in_event (submitted_email req) (ev_id event)
                   (before_insert others (before_check others db)) = false).
    { apply not_true_is_false. intros (p & Hin & He & Hi)%participant_exists_iff.
      exact (Hno2 p Hin Hi He). }
    destruct (register_success others now token req session db event Hev Hpost
                Hn Hv H1 Hc H2) as (_ & Hr & _ & Hdb).
    subst o. split; [exact Hr|]. rewrite Hdb. eexists.
    split; [reflexivity|]. split; [reflexivity|]. split; [reflexivity|].
    split; [reflexivity|].
    intros req2 Hsame. simpl.
    rewrite filter_app, Hsame, (participant_exists_false _ _ _ H2).
    rewrite filter_cons_True by (split; reflexivity). reflexivity. }
  split; [|split; [intros name college; vm_compute; auto | vm_compute; auto 10]].
  intros others now token req session db en pn o db' Hok. subst db' o.
  destruct (public_register_success_inv others now token req session db en pn Hok)
    as (event & Hev & Hpost & Hname & Hvalid & Hno & Hdb).
  set (db2 := before_insert others (before_check others db)) in *.
  set (row := {| pt_id := next_rowid (seq_PARTICIPANTS db2) (pt_id <$> PARTICIPANTS db2);
                 pt_event_id := ev_id event; pt_name := submitted_name req;
                 pt_email := submitted_email req; pt_college := submitted_college req;
                 pt_registered_at := now |}) in *.
  exists event, row.
  split; [exact Hev|]. split; [reflexivity|]. split; [reflexivity|].
  split; [apply lower_idem|]. split; [exact Hname|].
  intros req2 Hsame. rewrite Hdb.
  assert (Hfilter :
    filter (fun p => pt_email p = submitted_email req2 ∧ pt_event_id p = ev_id event)
      (PARTICIPANTS (append_participant db2 row)) = [row]).
  { simpl. rewrite filter_app, Hsame, (participant_exists_false _ _ _ Hno).
    rewrite filter_cons_True by (split; reflexivity). reflexivity. }
  assert (Hexists :
    participant_exists_in_event (submitted_email req2) (ev_id event)
      (append_participant db2 row) = true).
  { unfold participant_exists_in_event. rewrite Hfilter. reflexivity. }
  split; [exact Hfilter|]. split; [exact Hexists|].
  intros now2 session2 Hpost2 Hname2 Hev2 o2.
  assert (Hvalid2 : is_valid_email (submitted_email req2) = true) by congruence.
  destruct (register_duplicate_found quiet now2 token req2 session2
              (append_participant db2 row) event Hev2 Hpost2 Hname2 Hvalid2 Hexists)
    as ([Hf Hr] & Hd & _).
  auto.
Qed.

Lemma email_case_insensitive_witness :
  let first := public_register quiet 200 token_hack_day
                 (registration_form "Ann" "Foo@X.com" "MIT") ∅ db_hack_day in
  let again := public_register quiet 300 token_hack_day
                 (registration_form "Bob" "FOO@X.COM" "MIT") ∅ (db_after first) in
  response first = redirect (ep_registration_success "Hack Day" "Ann") ∧
  (∃ row, PARTICIPANTS (db_after first) = [row] ∧
          pt_email row = "foo@x.com" ∧
          filter (fun p => pt_email p = "foo@x.com" ∧ pt_event_id p = 1)
            (PARTICIPANTS (db_after first)) = [row]) ∧
  flashed again = [(msg_duplicate, "error")] ∧
  db_after again = db_after first.
Proof.
  intros first again.
  destruct email_case_insensitive as (_ & _ & Hreg & Hdup & _).
  set (req := registration_form "Ann" "Foo@X.com" "MIT").
  set (req2 := registration_form "Bob" "FOO@X.COM" "MIT").
  set (hack_day := mkEvent 1 "Hack Day" (Some EmptyString) (Some "2025-01-01")
                     (Some token_hack_day) 100).
  assert (Hev : get_event_by_token token_hack_day db_hack_day = Return (Some hack_day))
    by (vm_compute; reflexivity).
  assert (Hn : 2 ≤ len (submitted_name req)) by (vm_compute; discriminate).
  assert (Hv : is_valid_email (submitted_email req) = true) by (vm_compute; reflexivity).
  assert (Hc : 2 ≤ len (submitted_college req)) by (vm_compute; discriminate).
  assert (Hno : ∀ p, p ∈ PARTICIPANTS db_hack_day → pt_event_id p = ev_id hack_day →
                     pt_email p ≠ submitted_email req)
    by (intros p Hp; inversion Hp).
  destruct (Hreg quiet 200 token_hack_day req (∅ : gmap string pyval) db_hack_day
              hack_day Hev eq_refl Hn Hv Hc Hno Hno)
    as (Hok & row & Hrows & _ & _ & Hemail & Hfind).
  fold first in Hok, Hrows, Hfind.
  split; [exact Hok|]. split.
  { exists row. split; [exact Hrows|]. split; [exact Hemail|].
    exact (Hfind req2 eq_refl). }
  destruct (Hdup quiet 200 token_hack_day req (∅ : gmap string pyval) db_hack_day
              _ _ Hok) as (event & row' & Hev' & _ & _ & _ & _ & Hagain).
  rewrite Hev in Hev'. injection Hev' as <-.
  destruct (Hagain req2 eq_refl) as (_ & _ & Hrej).
  assert (Hn2 : 2 ≤ len (submitted_name req2)) by (vm_compute; discriminate).
  assert (Hev2 : get_event_by_token token_hack_day (db_after first)
                 = Return (Some hack_day)) by (vm_compute; reflexivity).
  destruct (Hrej 300 (∅ : gmap string pyval) eq_refl Hn2 Hev2) as (Hf & _ & Hdb).
  split; [exact Hf | exact Hdb].
Defined.

(** The scenario of the specification: Hack Day, Ann, then the same email
    in other letter cases. *)
Example email_case_scenario :
  let first := public_register quiet 200 token_hack_day
                 (registration_form "Ann" "Foo@X.com" "MIT") ∅ db_hack_day in
  let again := public_register quiet 300 token_hack_day
                 (registration_form "Bob" "FOO@X.COM" "MIT") ∅ (db_after first) in
  response first = redirect (ep_registration_success "Hack Day" "Ann") ∧
  PARTICIPANTS (db_after first) = [mkParticipant 1 1 "Ann" "foo@x.com" "MIT" 200] ∧
  participant_exists_in_event "foo@x.com" 1 (db_after first) = true ∧
  participant_exists_in_event "Foo@X.com" 1 (db_after first) = false ∧
  flashed again = [(msg_duplicate, "error")] ∧
  db_after again = db_after first ∧
  reachable (db_after first).
Proof.
  repeat (split; [vm_compute; reflexivity|]).
  apply reach_public_register; simpl;
    try apply reach_create_event; apply reach_fresh.
Qed.

(** ** The shape of a generated token *)

Section token_shape.

Lemma b64_char_not_pad n : b64_char n ≠ "="%char.
Proof.
  assert (Hall : Forall (fun c => c ≠ "="%char) (list_ascii_of_string b64url_alphabet))
    by (vm_compute; repeat constructor; discriminate).
  unfold b64_char.
  destruct (list_ascii_of_string b64url_alphabet !! N.to_nat n) as [c|] eqn:E; simpl.
  - apply list_elem_of_lookup_2 in E. rewrite Forall_forall in Hall. auto.
  - discriminate.
Qed.

Lemma rstrip_char_keep c d s :
  d ≠ c → rstrip_char c (String d s) = String d (rstrip_char c s).
Proof.
  intros Hd. simpl. destruct (rstrip_char c s); [|reflexivity].
  rewrite bool_decide_eq_false_2 by exact Hd. reflexivity.
Qed.

(** Sixteen random bytes give a token of twenty-two characters. *)
Lemma generate_registration_token_length urandom :
  length (urandom 16%nat) = 16%nat →
  String.length (generate_registration_token urandom) = 22%nat.
Proof.
  unfold generate_registration_token, token_urlsafe.
  generalize (urandom 16%nat). intros l Hl.
  do 16 (destruct l as [|? l]; [discriminate Hl|]).
  destruct l; [|discriminate Hl].
  cbn [urlsafe_b64encode].
  rewrite !rstrip_char_keep by apply b64_char_not_pad.
  reflexivity.
Qed.

Lemma generate_registration_token_nonempty urandom :
  length (urandom 16%nat) = 16%nat →
  truthy (PStr (generate_registration_token urandom)) = true.
Proof.
  intros H%generate_registration_token_length. simpl.
  destruct (generate_registration_token urandom); [discriminate H | reflexivity].
Qed.

End token_shape.

(** ** Checks on small inputs *)

Example is_valid_email_ann : is_valid_email "ann@x.com" = true.
Proof. vm_compute. reflexivity. Qed.

Example is_valid_email_sub : is_valid_email "a.b+c@mail.example.org" = true.
Proof. vm_compute. reflexivity. Qed.

Example is_valid_email_short_tld : is_valid_email "ann@x.c" = false.
Proof. vm_compute. reflexivity. Qed.

Example is_valid_email_no_at : is_valid_email "ann.x.com" = false.
Proof. vm_compute. reflexivity. Qed.

Example is_valid_email_two_at : is_valid_email "a@b@x.com" = false.
Proof. vm_compute. reflexivity. Qed.

Example is_valid_email_empty : is_valid_email EmptyString = false.
Proof. vm_compute. reflexivity. Qed.

Example strip_example : strip "  Ann Lee " = "Ann Lee".
Proof. vm_compute. reflexivity. Qed.

Example lower_example : lower "Foo@X.com" = "foo@x.com".
Proof. vm_compute. reflexivity. Qed.

Example urlsafe_b64encode_man : urlsafe_b64encode [x4d; x61; x6e] = "TWFu".
Proof. vm_compute. reflexivity. Qed.

Example token_of_zero_bytes : generate_registration_token zero_bytes = token_hack_day.
Proof. vm_compute. reflexivity. Qed.

Example sql_like_examples :
  sql_like "hello world" "%o w%" = true ∧
  sql_like "hello world" "%O_W%" = true ∧
  sql_like "hello world" "%x%" = false.
Proof. vm_compute. auto. Qed.

(** LIKE reads the pattern and the text up to their first NUL: a pattern
    cut before its closing [%] must match at the end of the text, a
    pattern cut right after its opening [%] matches everything, and what
    follows a NUL in the text is not searched. *)
Example sql_like_nul :
  let nul := String "000"%char EmptyString in
  sql_like "banana" ("%" +:+ "a" +:+ nul +:+ "zzz" +:+ "%") = true ∧
  sql_like "banana" ("%" +:+ "n" +:+ nul +:+ "zzz" +:+ "%") = false ∧
  sql_like "banana" ("%" +:+ nul +:+ "%") = true ∧
  sql_like ("ab" +:+ nul +:+ "alice") "%ali%" = false.
Proof. vm_compute. auto. Qed.

(** The scenario of the specification: an event, one registration, the
    same email again. *)
Example hack_day_scenario :
  EVENTS db_hack_day =
    [mkEvent 1 "Hack Day" (Some EmptyString) (Some "2025-01-01")
       (Some token_hack_day) 100] ∧
  get_participant_count 1 db_hack_day = 0 ∧
  get_participant_count 1 db_ann = 1 ∧
  get_participant_count 1
    (db_after (public_register quiet 300 token_hack_day
                 (registration_form "Ann" "ann@x.com" "MIT") ∅ db_ann)) = 1.
Proof. vm_compute. auto. Qed.

(** ** Correctness of the regular expression matcher *)

Section regex.

Import Regex.

Lemma string_app_cons c (s t : string) : String c s +:+ t = String c (s +:+ t).
Proof. reflexivity. Qed.

Lemma string_app_nil_l (t : string) : EmptyString +:+ t = t.
Proof. reflexivity. Qed.

Lemma string_app_nil_r (s : string) : s +:+ EmptyString = s.
Proof.
  induction s as [|c s IH]; [reflexivity|].
  rewrite string_app_cons, IH. reflexivity.
Qed.

Lemma string_app_assoc (s t u : string) : (s +:+ t) +:+ u = s +:+ (t +:+ u).
Proof.
  induction s as [|c s IH]; [reflexivity|].
  rewrite !string_app_cons, IH. reflexivity.
Qed.

Lemma string_app_empty (s t : string) :
  s +:+ t = EmptyString → s = EmptyString ∧ t = EmptyString.
Proof. destruct s; [rewrite string_app_nil_l; auto | discriminate]. Qed.

Lemma nullable_correct r : nullable r = true ↔ re_matches r EmptyString.
Proof.
  induction r as [| |f|r IHr s IHs|r IHr s IHs|r IHr]; simpl.
  - split; [discriminate | inversion 1].
  - split; [constructor | reflexivity].
  - split; [discriminate | inversion 1].
  - rewrite andb_true_iff, IHr, IHs. split.
    + intros [Hr Hs]. exact (m_cat r s EmptyString EmptyString Hr Hs).
    + inversion 1 as [| |? ? u v Hu Hv Heq| | | |]; subst.
      match goal with H : _ +:+ _ = EmptyString |- _ =>
        apply string_app_empty in H as [-> ->] end. auto.
  - rewrite orb_true_iff, IHr, IHs. split.
    + intros [H|H]; [apply m_alt_l | apply m_alt_r]; exact H.
    + inversion 1; subst; auto.
  - split; [constructor | reflexivity].
Qed.

Lemma cat_correct r s u : re_matches (cat r s) u ↔ re_matches (Cat r s) u.
Proof.
  assert (Hvoid_l : ∀ s u, re_matches (Cat Void s) u → False).
  { intros s' u' H. inversion H as [| |? ? a b Ha| | | |]; subst. inversion Ha. }
  assert (Hvoid_r : ∀ r u, re_matches (Cat r Void) u → False).
  { intros r' u' H. inversion H as [| |? ? a b Ha Hb| | | |]; subst. inversion Hb. }
  assert (Heps : ∀ s u, re_matches s u ↔ re_matches (Cat Eps s) u).
  { intros s' u'. split.
    - intros H. exact (m_cat Eps s' EmptyString u' m_eps H).
    - intros H. inversion H as [| |? ? a b Ha Hb| | | |]; subst.
      inversion Ha; subst. exact Hb. }
  destruct r, s; simpl;
    first [ reflexivity | apply Heps
          | solve [split; [inversion 1 | intros H; exfalso; eauto]] ].
Qed.

Lemma alt_correct r s u : re_matches (alt r s) u ↔ re_matches (Alt r s) u.
Proof.
  assert (Hl : ∀ s u, re_matches s u ↔ re_matches (Alt Void s) u).
  { intros s' u'. split; [apply m_alt_r|].
    inversion 1 as [| | |? ? ? Ha|? ? ? Hb| |]; subst; [inversion Ha | exact Hb]. }
  assert (Hr : ∀ r u, re_matches r u ↔ re_matches (Alt r Void) u).
  { intros r' u'. split; [apply m_alt_l|].
    inversion 1 as [| | |? ? ? Ha|? ? ? Hb| |]; subst; [exact Ha | inversion Hb]. }
  destruct r, s; simpl; try reflexivity; try apply Hl; try apply Hr.
Qed.

(** A nonempty word of a star begins with a nonempty word of its body. *)
Lemma star_cons_inv r c w :
  re_matches (Star r) (String c w) →
  ∃ u v, w = u +:+ v ∧ re_matches r (String c u) ∧ re_matches (Star r) v.
Proof.
  intros H. remember (Star r) as sr eqn:Esr. remember (String c w) as cw eqn:Ecw.
  revert r c w Esr Ecw.
  induction H as [| | | | | |r' u v Hu _ Hv IHv]; intros r0 c0 w0 Esr Ecw;
    try discriminate.
  injection Esr as ->.
  destruct u as [|d u].
  - apply (IHv r0 c0 w0 eq_refl Ecw).
  - rewrite string_app_cons in Ecw. injection Ecw as -> <-. exists u, v. auto.
Qed.

Lemma deriv_correct r c w : re_matches (deriv c r) w ↔ re_matches r (String c w).
Proof.
  revert w. induction r as [| |f|r IHr s IHs|r IHr s IHs|r IHr]; intros w; simpl.
  - split; inversion 1.
  - split; inversion 1.
  - destruct (f c) eqn:E.
    + split.
      * inversion 1; subst. constructor. exact E.
      * inversion 1; subst. constructor.
    + split; [inversion 1|]. inversion 1; subst. congruence.
  - assert (Hfirst : ∀ w, re_matches (cat (deriv c r) s) w →
                          re_matches (Cat r s) (String c w)).
    { intros w' H. apply cat_correct in H.
      inversion H as [| |? ? u v Hu Hv| | | |]; subst.
      apply IHr in Hu. exact (m_cat r s (String c u) v Hu Hv). }
    assert (Hsplit : ∀ w, re_matches (Cat r s) (String c w) →
              re_matches (cat (deriv c r) s) w ∨
              (re_matches r EmptyString ∧ re_matches s (String c w))).
    { intros w' H. inversion H as [| |? ? u v Hu Hv| | | |]; subst.
      match goal with Heq : _ +:+ _ = String _ _ |- _ => rename Heq into Heq' end.
      destruct u as [|d u].
      - right. rewrite string_app_nil_l in Heq'. subst. auto.
      - rewrite string_app_cons in Heq'. injection Heq' as -> <-.
        left. apply cat_correct. apply m_cat; [apply IHr; exact Hu | exact Hv]. }
    destruct (nullable r) eqn:En.
    + rewrite alt_correct. split.
      * inversion 1 as [| | |? ? ? Ha|? ? ? Hb| |]; subst; [auto|].
        apply IHs in Hb. apply nullable_correct in En.
        exact (m_cat r s EmptyString (String c w) En Hb).
      * intros H. destruct (Hsplit w H) as [Hl|[_ Hr]];
          [apply m_alt_l; exact Hl | apply m_alt_r, IHs; exact Hr].
    + split; [apply Hfirst|].
      intros H. destruct (Hsplit w H) as [Hl|[Hn _]]; [exact Hl|].
      apply nullable_correct in Hn. congruence.
  - rewrite alt_correct. split.
    + inversion 1; subst; [apply m_alt_l, IHr | apply m_alt_r, IHs]; assumption.
    + inversion 1; subst; [apply m_alt_l, IHr | apply m_alt_r, IHs]; assumption.
  - rewrite cat_correct. split.
    + inversion 1 as [| |? ? u v Hu Hv| | | |]; subst.
      apply IHr in Hu. exact (m_star_cons r (String c u) v Hu Hv).
    + intros (u & v & -> & Hu & Hv)%star_cons_inv.
      apply m_cat; [apply IHr; exact Hu | exact Hv].
Qed.

Theorem fullmatch_correct r s : fullmatch r s = true ↔ re_matches r s.
Proof.
  revert r. induction s as [|c s IH]; intros r; simpl.
  - apply nullable_correct.
  - rewrite IH. apply deriv_correct.
Qed.

End regex.
(** ** The shape of a valid email *)

Section email_shape.

Import Regex.

Lemma cat_inv r s w :
  re_matches (Cat r s) w ↔ ∃ u v, w = u +:+ v ∧ re_matches r u ∧ re_matches s v.
Proof.
  split.
  - inversion 1; subst; eauto.
  - intros (u & v & -> & Hu & Hv). apply m_cat; assumption.
Qed.

Lemma class_inv f w : re_matches (Class f) w ↔ ∃ c, w = String c EmptyString ∧ f c = true.
Proof.
  split.
  - inversion 1; subst; eauto.
  - intros (c & -> & Hc). apply m_class, Hc.
Qed.

Lemma chr_inv c w : re_matches (chr c) w ↔ w = String c EmptyString.
Proof.
  unfold chr. rewrite class_inv. split.
  - intros (d & -> & ->%bool_decide_eq_true). reflexivity.
  - intros ->. exists c. split; [reflexivity | apply bool_decide_eq_true_2; reflexivity].
Qed.

Lemma star_class_inv f w : re_matches (Star (Class f)) w ↔ all_chars f w = true.
Proof.
  split.
  - intros H. remember (Star (Class f)) as r eqn:Er.
    induction H as [| | | | | |r' u v Hu _ _ IHv]; try discriminate; [reflexivity|].
    injection Er as ->. apply class_inv in Hu as (c & -> & Hc).
    rewrite string_app_cons, string_app_nil_l. simpl. rewrite Hc. apply IHv. reflexivity.
  - induction w as [|c w IH]; simpl; [constructor|].
    intros [Hc Hw]%andb_true_iff.
    exact (m_star_cons (Class f) (String c EmptyString) w (m_class f c Hc) (IH Hw)).
Qed.

Lemma plus_class_inv f w :
  re_matches (plus (Class f)) w ↔ w ≠ EmptyString ∧ all_chars f w = true.
Proof.
  unfold plus. rewrite cat_inv. split.
  - intros (u & v & -> & (c & -> & Hc)%class_inv & Hv%star_class_inv).
    rewrite string_app_cons, string_app_nil_l. simpl. rewrite Hc. auto.
  - intros [Hne Hall]. destruct w as [|c w]; [congruence|].
    simpl in Hall. apply andb_true_iff in Hall as [Hc Hw].
    exists (String c EmptyString), w. split; [reflexivity|].
    split; [apply m_class, Hc | apply star_class_inv, Hw].
Qed.

Lemma at_least_two_inv f w :
  re_matches (at_least 2 (Class f)) w ↔
  (2 ≤ String.length w)%nat ∧ all_chars f w = true.
Proof.
  simpl. rewrite cat_inv. split.
  - intros (u & v & -> & (c & -> & Hc)%class_inv &
            (u' & v' & -> & (d & -> & Hd)%class_inv & Hv%star_class_inv)%cat_inv).
    rewrite !string_app_cons, !string_app_nil_l. simpl. rewrite Hc, Hd.
    split; [lia | exact Hv].
  - intros [Hlen Hall]. destruct w as [|c [|d w]]; simpl in Hlen; try lia.
    simpl in Hall. apply andb_true_iff in Hall as [Hc [Hd Hw]%andb_true_iff].
    exists (String c EmptyString), (String d w). split; [reflexivity|].
    split; [apply m_class, Hc|]. apply cat_inv.
    exists (String d EmptyString), w. split; [reflexivity|].
    split; [apply m_class, Hd | apply star_class_inv, Hw].
Qed.

Lemma dollar_inv w : re_matches dollar w ↔ w = EmptyString ∨ w = newline.
Proof.
  unfold dollar. split.
  - inversion 1 as [| | |? ? ? Ha|? ? ? Hb| |]; subst.
    + inversion Ha. auto.
    + apply chr_inv in Hb. auto.
  - intros [-> | ->]; [apply m_alt_l, m_eps | apply m_alt_r, chr_inv; reflexivity].
Qed.

End email_shape.

(** [is_valid_email] accepts exactly the strings made of a non-empty local
    part over letters, digits and [._%+-], an at sign, a non-empty domain
    over letters, digits, dots and hyphens, a dot, at least two letters,
    and possibly one final newline. *)
Theorem is_valid_email_shape s : is_valid_email s = true ↔ email_shape s.
Proof.
  unfold is_valid_email, email_shape, email_pattern.
  rewrite fullmatch_correct. rewrite cat_inv. split.
  - intros (local & r1 & -> & Hl%plus_class_inv &
            (at_ & r2 & -> & ->%chr_inv &
             (domain & r3 & -> & Hd%plus_class_inv &
              (dot & r4 & -> & ->%chr_inv &
               (tld & ending & -> & Ht%at_least_two_inv & He%dollar_inv)%cat_inv)
              %cat_inv)%cat_inv)%cat_inv).
    exists local, domain, tld, ending.
    split; [reflexivity|]. tauto.
  - intros (local & domain & tld & ending & -> & Hl1 & Hl2 & Hd1 & Hd2 & Ht1 & Ht2 & He).
    exists local, ("@" +:+ domain +:+ "." +:+ tld +:+ ending).
    split; [reflexivity|]. split; [apply plus_class_inv; auto|].
    apply cat_inv. exists "@", (domain +:+ "." +:+ tld +:+ ending).
    split; [reflexivity|]. split; [apply chr_inv; reflexivity|].
    apply cat_inv. exists domain, ("." +:+ tld +:+ ending).
    split; [reflexivity|]. split; [apply plus_class_inv; auto|].
    apply cat_inv. exists ".", (tld +:+ ending).
    split; [reflexivity|]. split; [apply chr_inv; reflexivity|].
    apply cat_inv. exists tld, ending.
    split; [reflexivity|]. split; [apply at_least_two_inv; auto | apply dollar_inv, He].
Qed.

Section email_lower.

Lemma lower_app s t : lower (s +:+ t) = lower s +:+ lower t.
Proof.
  induction s as [|c s IH]; [reflexivity|].
  rewrite string_app_cons. simpl. rewrite IH. reflexivity.
Qed.

Lemma length_lower s : String.length (lower s) = String.length s.
Proof. induction s as [|c s IH]; simpl; [reflexivity | rewrite IH; reflexivity]. Qed.

Lemma all_chars_lower f s :
  (∀ c, f c = true → f (lower_char c) = true) →
  all_chars f s = true → all_chars f (lower s) = true.
Proof.
  intros Hf. induction s as [|c s IH]; simpl; [reflexivity|].
  intros [Hc Hs]%andb_true_iff. rewrite (Hf c Hc). simpl. auto.
Qed.

Lemma email_local_class_lower c :
  email_local_class c = true → email_local_class (lower_char c) = true.
Proof. destruct c as [[] [] [] [] [] [] [] []]; vm_compute; trivial. Qed.

Lemma email_domain_class_lower c :
  email_domain_class c = true → email_domain_class (lower_char c) = true.
Proof. destruct c as [[] [] [] [] [] [] [] []]; vm_compute; trivial. Qed.

Lemma is_alpha_lower c : is_alpha c = true → is_alpha (lower_char c) = true.
Proof. destruct c as [[] [] [] [] [] [] [] []]; vm_compute; trivial. Qed.

Lemma lower_nonempty s : s ≠ EmptyString → lower s ≠ EmptyString.
Proof. destruct s; [congruence | discriminate]. Qed.

End email_lower.

(** Lowercasing never turns a valid email into an invalid one, so the
    check that [public_register] runs on the lowercased email accepts
    every address that is valid as typed. *)
Theorem is_valid_email_lower s :
  is_valid_email s = true → is_valid_email (lower s) = true.
Proof.
  rewrite !is_valid_email_shape.
  intros (local & domain & tld & ending & -> & Hl1 & Hl2 & Hd1 & Hd2 & Ht1 & Ht2 & He).
  exists (lower local), (lower domain), (lower tld), ending.
  split.
  - rewrite !lower_app. destruct He as [-> | ->]; reflexivity.
  - split; [apply lower_nonempty, Hl1|].
    split; [apply all_chars_lower; [apply email_local_class_lower | exact Hl2]|].
    split; [apply lower_nonempty, Hd1|].
    split; [apply all_chars_lower; [apply email_domain_class_lower | exact Hd2]|].
    split; [rewrite length_lower; exact Ht1|].
    split; [apply all_chars_lower; [apply is_alpha_lower | exact Ht2] | exact He].
Qed.

Lemma is_valid_email_lower_witness :
  is_valid_email "Foo@X.COM" = true ∧ is_valid_email (lower "Foo@X.COM") = true.
Proof.
  assert (H : is_valid_email "Foo@X.COM" = true) by (vm_compute; reflexivity).
  split; [exact H | exact (is_valid_email_lower "Foo@X.COM" H)].
Defined.

(** ** Start-up migration *)

Section migration.

Variable rng : nat -> nat -> list byte.

Lemma update_event_token_Return token event_id db db' :
  update_event_token token event_id db = Return db' →
  db' = set_tables db
          ((fun e => if decide (ev_id e = event_id)
                     then with_token (Some token) e else e) <$> EVENTS db)
          (PARTICIPANTS db).
Proof.
  unfold update_event_token. destruct (token_column db); [discriminate| |].
  - intros [= <-]. reflexivity.
  - destruct (_ && _); [discriminate|]. intros [= <-]. reflexivity.
Qed.

Lemma update_event_token_Raise token event_id db e :
  update_event_token token event_id db = Raise e → is_sqlite_error e = true.
Proof.
  unfold update_event_token. destruct (token_column db).
  - intros [= <-]. reflexivity.
  - discriminate.
  - destruct (_ && _); [|discriminate]. intros [= <-]. reflexivity.
Qed.

Lemma update_event_token_plain token event_id db :
  token_column db = Plain → ∃ db', update_event_token token event_id db = Return db'.
Proof. unfold update_event_token. intros ->. eauto. Qed.

Lemma event_core_update token event_id (es : list Event) :
  event_core <$> ((fun e => if decide (ev_id e = event_id)
                            then with_token (Some token) e else e) <$> es)
  = event_core <$> es.
Proof.
  rewrite <- list_fmap_compose. apply list_fmap_ext. intros i e _. simpl.
  destruct (decide _); reflexivity.
Qed.

Lemma backfill_tokens_frame call ids db db' :
  backfill_tokens rng call ids db = Return db' →
  token_column db' = token_column db ∧
  PARTICIPANTS db' = PARTICIPANTS db ∧
  seq_EVENTS db' = seq_EVENTS db ∧
  seq_PARTICIPANTS db' = seq_PARTICIPANTS db ∧
  event_core <$> EVENTS db' = event_core <$> EVENTS db.
Proof.
  revert call db. induction ids as [|event_id rest IH]; intros call db; simpl.
  - intros [= <-]. auto.
  - destruct (update_event_token _ event_id db) as [db1|e] eqn:E; simpl; [|discriminate].
    apply update_event_token_Return in E. intros H%IH.
    destruct H as (-> & -> & -> & -> & ->). subst db1. simpl.
    rewrite event_core_update. auto.
Qed.

Lemma backfill_tokens_Raise call ids db e :
  backfill_tokens rng call ids db = Raise e → is_sqlite_error e = true.
Proof.
  revert call db. induction ids as [|event_id rest IH]; intros call db; simpl.
  - discriminate.
  - destruct (update_event_token _ event_id db) as [db1|e'] eqn:E; simpl.
    + apply IH.
    + intros [= <-]. exact (update_event_token_Raise _ _ _ _ E).
Qed.

Lemma backfill_tokens_plain call ids db :
  token_column db = Plain → ∃ db', backfill_tokens rng call ids db = Return db'.
Proof.
  revert call db. induction ids as [|event_id rest IH]; intros call db Hp; simpl.
  - eauto.
  - destruct (update_event_token_plain (generate_registration_token (rng call))
                event_id db Hp) as [db1 E].
    rewrite E. simpl. apply IH.
    apply update_event_token_Return in E. subst db1. exact Hp.
Qed.

(** The rows whose id is not in the list are not written. *)
Lemma backfill_tokens_keeps call ids db db' e :
  backfill_tokens rng call ids db = Return db' →
  e ∈ EVENTS db → ev_id e ∉ ids → e ∈ EVENTS db'.
Proof.
  revert call db. induction ids as [|event_id rest IH]; intros call db; simpl.
  - intros [= <-]. auto.
  - destruct (update_event_token _ event_id db) as [db1|?] eqn:E; simpl; [|discriminate].
    apply update_event_token_Return in E. intros Hb He Hn.
    apply not_elem_of_cons in Hn as [Hne Hrest].
    apply (IH _ _ Hb); [|exact Hrest].
    subst db1. simpl. apply list_elem_of_fmap. exists e.
    split; [|exact He]. destruct (decide _); [congruence | reflexivity].
Qed.

(** Once the list is worked off, the rows it named have tokens. *)
Lemma backfill_tokens_complete call ids db db' :
  full_entropy rng →
  backfill_tokens rng call ids db = Return db' →
  (∀ e, e ∈ EVENTS db → has_token e ∨ ev_id e ∈ ids) →
  ∀ e, e ∈ EVENTS db' → has_token e.
Proof.
  intros Hrng. revert call db.
  induction ids as [|event_id rest IH]; intros call db; simpl.
  - intros [= <-] Hall e He. destruct (Hall e He) as [?|Hin]; [assumption|].
    inversion Hin.
  - destruct (update_event_token _ event_id db) as [db1|?] eqn:E; simpl; [|discriminate].
    apply update_event_token_Return in E. intros Hb Hall.
    apply (IH _ _ Hb). subst db1. simpl.
    intros e1 (e & -> & He)%list_elem_of_fmap.
    destruct (decide (ev_id e = event_id)) as [Heq|Hne].
    + left. exists (generate_registration_token (rng call)).
      split; [reflexivity|]. intros Hempty.
      pose proof (generate_registration_token_length (rng call) (Hrng call 16%nat)) as Hl.
      rewrite Hempty in Hl. discriminate Hl.
    + destruct (Hall e He) as [?|Hin]; [left; assumption|].
      right. apply elem_of_cons in Hin as [?|?]; [congruence | assumption].
Qed.

Lemma events_without_tokens_spec db e :
  e ∈ EVENTS db → has_token e ∨ ev_id e ∈ events_without_tokens db.
Proof.
  intros He. unfold events_without_tokens, has_token.
  destruct (ev_registration_token e) as [[|c s]|] eqn:Et.
  - right. apply list_elem_of_fmap_2, list_elem_of_filter. auto.
  - left. eexists. split; [reflexivity | discriminate].
  - right. apply list_elem_of_fmap_2, list_elem_of_filter. auto.
Qed.

Lemma events_without_tokens_nil db :
  (∀ e, e ∈ EVENTS db → has_token e) → events_without_tokens db = [].
Proof.
  intros Hall. unfold events_without_tokens.
  destruct (filter _ _) as [|e l] eqn:E; [reflexivity|].
  assert (Hin : e ∈ e :: l) by left. rewrite <- E in Hin.
  apply list_elem_of_filter in Hin as [Hno He].
  destruct (Hall e He) as (s & Hs & Hne). destruct Hno; congruence.
Qed.

End migration.
(** The migration never stops the start-up: it returns a database that
    has the token column, with the same participants, the same counters
    and the same events in the same order, which differ from the stored
    ones at most in their tokens. *)
Theorem migrate_never_fatal rng db :
  ∃ db', migrate_add_registration_token rng db = Return db' ∧
         token_column db' ≠ Absent ∧
         PARTICIPANTS db' = PARTICIPANTS db ∧
         seq_EVENTS db' = seq_EVENTS db ∧
         seq_PARTICIPANTS db' = seq_PARTICIPANTS db ∧
         event_core <$> EVENTS db' = event_core <$> EVENTS db.
Proof.
  unfold migrate_add_registration_token.
  set (db1 := match token_column db with Absent => add_token_column db | _ => db end).
  assert (H1 : token_column db1 ≠ Absent ∧ PARTICIPANTS db1 = PARTICIPANTS db ∧
               seq_EVENTS db1 = seq_EVENTS db ∧
               seq_PARTICIPANTS db1 = seq_PARTICIPANTS db ∧
               event_core <$> EVENTS db1 = event_core <$> EVENTS db).
  { subst db1. destruct (token_column db) eqn:E.
    - simpl. split; [discriminate|]. do 3 (split; [reflexivity|]).
      rewrite <- list_fmap_compose. apply list_fmap_ext. intros i e _. reflexivity.
    - rewrite E. split; [discriminate | auto 10].
    - rewrite E. split; [discriminate | auto 10]. }
  destruct H1 as (Hc & Hp & Hs1 & Hs2 & He).
  destruct (backfill_tokens rng 0 (events_without_tokens db1) db1) as [db2|e] eqn:E.
  - apply backfill_tokens_frame in E as (Hc2 & Hp2 & Hs12 & Hs22 & He2).
    exists db2. split; [reflexivity|]. rewrite Hc2, Hp2, Hs12, Hs22, He2. auto 10.
  - rewrite (backfill_tokens_Raise _ _ _ _ _ E). exists db1. auto 10.
Qed.

(** With a working random source, after the migration every event has a
    non-empty token, unless the column is [UNIQUE] and the loop was
    abandoned, in which case nothing was written. *)
Theorem migrate_backfills rng db db' :
  full_entropy rng →
  migrate_add_registration_token rng db = Return db' →
  (∀ e, e ∈ EVENTS db' → has_token e) ∨ (token_column db = Unique ∧ db' = db).
Proof.
  intros Hrng. unfold migrate_add_registration_token.
  set (db1 := match token_column db with Absent => add_token_column db | _ => db end).
  destruct (backfill_tokens rng 0 (events_without_tokens db1) db1) as [db2|e] eqn:E.
  - intros [= <-]. left.
    apply (backfill_tokens_complete rng _ _ _ _ Hrng E).
    apply events_without_tokens_spec.
  - rewrite (backfill_tokens_Raise _ _ _ _ _ E). intros [= <-].
    assert (Hp : token_column db1 = Plain ∨ (token_column db = Unique ∧ db1 = db)).
    { subst db1. destruct (token_column db) eqn:Ec; auto. }
    destruct Hp as [Hp|Hu]; [|right; exact Hu].
    destruct (backfill_tokens_plain rng 0 (events_without_tokens db1) db1 Hp) as [? E'].
    congruence.
Qed.

Lemma migrate_backfills_witness :
  full_entropy counting_bytes ∧
  ∃ db', migrate_add_registration_token counting_bytes db_legacy_two = Return db' ∧
         ∀ e, e ∈ EVENTS db' → has_token e.
Proof.
  assert (Hrng : full_entropy counting_bytes)
    by (intros call n; apply length_replicate).
  split; [exact Hrng|].
  eexists. split; [vm_compute; reflexivity|].
  destruct (migrate_backfills counting_bytes db_legacy_two _ Hrng eq_refl) as [H|[H _]].
  - exact H.
  - vm_compute in H. discriminate H.
Defined.

(** The migration keeps the tokens that are there: where the column
    exists and event ids are unique, an event with a non-empty token is
    stored unchanged afterwards. *)
Theorem migrate_keeps_tokens rng db db' e :
  token_column db ≠ Absent →
  NoDup (ev_id <$> EVENTS db) →
  migrate_add_registration_token rng db = Return db' →
  e ∈ EVENTS db → has_token e → e ∈ EVENTS db'.
Proof.
  intros Hc Hnd. unfold migrate_add_registration_token.
  assert (Hdb1 : match token_column db with Absent => add_token_column db | _ => db end = db)
    by (destruct (token_column db); [congruence|reflexivity|reflexivity]).
  rewrite Hdb1.
  destruct (backfill_tokens rng 0 (events_without_tokens db) db) as [db2|x] eqn:E.
  - intros [= <-] He (s & Hs & Hne).
    apply (backfill_tokens_keeps rng _ _ _ _ _ E He).
    unfold events_without_tokens.
    intros (e' & Hid & [Hno He']%list_elem_of_filter)%list_elem_of_fmap.
    assert (e = e').
    { apply (NoDup_fmap_1 ev_id) in Hnd as Hnd'.
      destruct (list_elem_of_lookup_1 _ _ He) as [i Hi].
      destruct (list_elem_of_lookup_1 _ _ He') as [j Hj].
      assert (i = j).
      { apply (NoDup_lookup _ i j (ev_id e) Hnd).
        - rewrite list_lookup_fmap, Hi. reflexivity.
        - rewrite list_lookup_fmap, Hj. simpl. congruence. }
      congruence. }
    subst e'. destruct Hno; congruence.
  - rewrite (backfill_tokens_Raise _ _ _ _ _ E). intros [= <-]. auto.
Qed.

Lemma migrate_keeps_tokens_witness :
  ∃ db', migrate_add_registration_token counting_bytes db_hack_day = Return db' ∧
         mkEvent 1 "Hack Day" (Some EmptyString) (Some "2025-01-01")
           (Some token_hack_day) 100 ∈ EVENTS db'.
Proof.
  eexists. split; [vm_compute; reflexivity|].
  apply (migrate_keeps_tokens counting_bytes db_hack_day _ _).
  - vm_compute. discriminate.
  - vm_compute. apply NoDup_singleton.
  - reflexivity.
  - vm_compute. left.
  - exists token_hack_day. split; [reflexivity | discriminate].
Defined.

(** Starting again changes nothing once the tokens are complete: on a
    database that has the column and a non-empty token for every event,
    [init_db] returns the database as it is; a missing file gives the
    empty database. *)
Theorem init_db_restart rng db :
  token_column db ≠ Absent →
  (∀ e, e ∈ EVENTS db → has_token e) →
  init_db rng (Some db) = Return db ∧ init_db rng None = Return fresh_db.
Proof.
  intros Hc Hall. split; [|reflexivity].
  unfold init_db, migrate_add_registration_token. simpl.
  assert (Hdb1 : match token_column db with Absent => add_token_column db | _ => db end = db)
    by (destruct (token_column db); [congruence|reflexivity|reflexivity]).
  rewrite Hdb1, (events_without_tokens_nil db Hall). reflexivity.
Qed.

Lemma init_db_restart_witness :
  init_db counting_bytes (Some db_ann) = Return db_ann.
Proof.
  apply (init_db_restart counting_bytes db_ann).
  - vm_compute. discriminate.
  - intros e He. vm_compute in He.
    apply list_elem_of_singleton in He as ->.
    exists token_hack_day. split; [reflexivity | discriminate].
Defined.
Lemma migrate_adds_plain_column rng db db' :
  token_column db = Absent →
  migrate_add_registration_token rng db = Return db' →
  token_column db' = Plain.
Proof.
  unfold migrate_add_registration_token. intros ->.
  destruct (backfill_tokens _ _ _ _) as [db2|e] eqn:E.
  - intros [= <-]. apply backfill_tokens_frame in E as (-> & _). reflexivity.
  - rewrite (backfill_tokens_Raise _ _ _ _ _ E). intros [= <-]. reflexivity.
Qed.

(** On a table that lacks the token column a valid request still creates
    the event, without a token, and reports success; the next start-up
    adds the column and gives every event, this one included, a non-empty
    token. *)
Theorem create_event_fallback_then_migrate urandom now req session db rng :
  logged_in session = true →
  method req = POST →
  3 ≤ len (strip (form_get req "name")) →
  strip (form_get req "date") ≠ EmptyString →
  token_column db = Absent →
  full_entropy rng →
  let o := create_event urandom now req session db in
  (∃ row, EVENTS (db_after o) = (EVENTS db ++ [row])%list ∧
          ev_registration_token row = None ∧
          ev_name row = strip (form_get req "name")) ∧
  response o = redirect ep_dashboard ∧
  ∃ db2, migrate_add_registration_token rng (db_after o) = Return db2 ∧
         token_column db2 = Plain ∧
         length (EVENTS db2) = S (length (EVENTS db)) ∧
         ∀ e, e ∈ EVENTS db2 → has_token e.
Proof.
  intros Hs Hm Hn Hd Hc Hrng o. subst o.
  rewrite (create_event_valid urandom now req session db Hs Hm Hn Hd).
  rewrite (create_event_insert_fallback urandom now req db Hc).
  cbn [db_after response].
  split; [eexists; split; [reflexivity|]; split; reflexivity|].
  split; [reflexivity|].
  set (db1 := append_event db _).
  assert (Hc1 : token_column db1 = Absent) by exact Hc.
  destruct (migrate_never_fatal rng db1) as (db2 & Hmig & _ & _ & _ & _ & Hcore).
  exists db2. split; [exact Hmig|].
  split; [exact (migrate_adds_plain_column rng db1 db2 Hc1 Hmig)|].
  split.
  - rewrite <- (length_fmap event_core (EVENTS db2)), Hcore, length_fmap.
    subst db1. simpl. rewrite length_app. simpl. lia.
  - destruct (migrate_backfills rng db1 db2 Hrng Hmig) as [H|[Hu _]];
      [exact H | congruence].
Qed.

Lemma create_event_fallback_then_migrate_witness :
  let o := create_event zero_bytes 101 hack_day_form admin_session db_legacy in
  token_column db_legacy = Absent ∧
  ∃ db2, migrate_add_registration_token counting_bytes (db_after o) = Return db2 ∧
         token_column db2 = Plain ∧
         length (EVENTS db2) = 2%nat ∧
         ∀ e, e ∈ EVENTS db2 → has_token e.
Proof.
  split; [reflexivity|].
  assert (Hrng : full_entropy counting_bytes)
    by (intros call n; apply length_replicate).
  assert (Hn : 3 ≤ len (strip (form_get hack_day_form "name")))
    by (vm_compute; discriminate).
  assert (Hd : strip (form_get hack_day_form "date") ≠ EmptyString)
    by (vm_compute; discriminate).
  exact (proj2 (proj2 (create_event_fallback_then_migrate zero_bytes 101 hack_day_form
                         admin_session db_legacy counting_bytes
                         logged_in_admin_session eq_refl Hn Hd eq_refl Hrng))).
Defined.

(** ** Invariants of the event table *)

Section event_invariants.

Lemma next_rowid_above_seq seq ids : seq < next_rowid seq ids.
Proof. unfold next_rowid. induction ids as [|i ids IH]; simpl; lia. Qed.

(** Where [create_event] leaves the database: as it was, or with one row
    appended under a new id; under the [UNIQUE] column that row has a
    token no stored event has. *)
Lemma create_event_db_after urandom now req session db :
  let db' := db_after (create_event urandom now req session db) in
  db' = db ∨
  ∃ row, db' = append_event db row ∧
         ev_id row = next_rowid (seq_EVENTS db) (ev_id <$> EVENTS db) ∧
         (token_column db = Unique →
          is_Some (ev_registration_token row) ∧
          ev_registration_token row ∉ stored_tokens db).
Proof.
  intros db'. subst db'. unfold create_event, login_required.
  destruct (logged_in session); [|auto].
  destruct (method req); [auto|].
  destruct (_ || _); [auto|].
  destruct (is_empty _); [auto|].
  unfold create_event_insert, insert_event_with_token, insert_event_without_token.
  destruct (token_column db) eqn:Ec; simpl.
  - right. eexists. split; [reflexivity|]. split; [reflexivity|]. discriminate.
  - right. eexists. split; [reflexivity|]. split; [reflexivity|]. discriminate.
  - destruct (bool_decide _) eqn:Eb; simpl; [auto|].
    apply bool_decide_eq_false in Eb.
    right. eexists. split; [reflexivity|]. split; [reflexivity|].
    intros _. split; [eauto | exact Eb].
Qed.

Lemma delete_event_db_after event_id session db :
  let db' := db_after (delete_event event_id session db) in
  db' = db ∨
  db' = set_tables db (filter (fun e => ev_id e ≠ event_id) (EVENTS db))
          (filter (fun p => pt_event_id p ≠ event_id) (PARTICIPANTS db)).
Proof.
  intros db'. subst db'. unfold delete_event, login_required.
  destruct (logged_in session); [|auto].
  destruct (get_event_by_id event_id db) as [[event|]|]; auto.
Qed.

Lemma delete_participant_db_after event_id participant_id session db :
  let db' := db_after (delete_participant event_id participant_id session db) in
  db' = db ∨
  db' = set_tables db (EVENTS db)
          (filter (fun p => ¬ (pt_id p = participant_id ∧ pt_event_id p = event_id))
             (PARTICIPANTS db)).
Proof.
  intros db'. subst db'.
  unfold delete_participant, login_required, delete_participant_row.
  destruct (logged_in session); [|auto].
  destruct (fits_int64 participant_id && fits_int64 event_id); auto.
Qed.

Lemma events_ok_fresh : events_ok fresh_db.
Proof.
  unfold events_ok, stored_tokens. simpl.
  split; [reflexivity|]. split; [constructor|]. split; [constructor|].
  split; intros e He; inversion He.
Qed.

Lemma events_ok_same db db' :
  token_column db' = token_column db → EVENTS db' = EVENTS db →
  seq_EVENTS db' = seq_EVENTS db → events_ok db → events_ok db'.
Proof. unfold events_ok, stored_tokens. intros -> -> ->. trivial. Qed.

Lemma events_ok_filter (P : Event → Prop) `{!∀ e, Decision (P e)} db db' :
  token_column db' = token_column db → EVENTS db' = filter P (EVENTS db) →
  seq_EVENTS db' = seq_EVENTS db → events_ok db → events_ok db'.
Proof.
  unfold events_ok, stored_tokens. intros -> -> -> (Hc & Hi & Ht & Hs & Hq).
  split; [exact Hc|].
  split; [eapply sublist_NoDup; [exact Hi | apply fmap_sublist, sublist_filter]|].
  split; [eapply sublist_NoDup; [exact Ht | apply fmap_sublist, sublist_filter]|].
  split; intros e [_ He]%list_elem_of_filter; auto.
Qed.

Lemma events_ok_append db row :
  events_ok db →
  ev_id row = next_rowid (seq_EVENTS db) (ev_id <$> EVENTS db) →
  is_Some (ev_registration_token row) →
  ev_registration_token row ∉ stored_tokens db →
  events_ok (append_event db row).
Proof.
  unfold events_ok, stored_tokens. intros (Hc & Hi & Ht & Hs & Hq) Hid Htok Hfresh.
  assert (Hgt : seq_EVENTS db < ev_id row) by (rewrite Hid; apply next_rowid_above_seq).
  simpl. split; [exact Hc|]. rewrite !fmap_app. simpl.
  split; [|split; [|split]].
  - apply NoDup_app. split; [exact Hi|]. split; [|apply NoDup_singleton].
    intros i (e & -> & He)%list_elem_of_fmap Heq%list_elem_of_singleton.
    specialize (Hq e He). lia.
  - apply NoDup_app. split; [exact Ht|]. split; [|apply NoDup_singleton].
    intros t Hin ->%list_elem_of_singleton. contradiction.
  - intros e [He | ->%list_elem_of_singleton]%elem_of_app; auto.
  - intros e [He | ->%list_elem_of_singleton]%elem_of_app; [|lia].
    specialize (Hq e He). lia.
Qed.

Lemma reachable_events_ok db : reachable db → events_ok db.
Proof.
  induction 1 as [| urandom now req session db _ IH
                  | event_id session db _ IH
                  | others now token req session db _ IH _ IH1 _ IH2
                  | event_id participant_id session db _ IH].
  - apply events_ok_fresh.
  - destruct (create_event_db_after urandom now req session db)
      as [-> | (row & -> & Hid & Hu)]; [exact IH|].
    destruct (Hu (proj1 IH)) as [Hsome Hfresh].
    apply events_ok_append; assumption.
  - destruct (delete_event_db_after event_id session db) as [-> | ->]; [exact IH|].
    apply (events_ok_filter (fun e => ev_id e ≠ event_id) db);
      [reflexivity | reflexivity | reflexivity | exact IH].
  - destruct (public_register_db_after others now token req session db)
      as [-> | [-> | [-> | (event & _ & _ & _ & ->)]]]; [assumption..|].
    exact IH2.
  - destruct (delete_participant_db_after event_id participant_id session db)
      as [-> | ->]; [exact IH|].
    apply (events_ok_same db); [reflexivity | reflexivity | reflexivity | exact IH].
Qed.

End event_invariants.

(** In every database the application produces from a fresh file, under
    any interleaving of requests, the token column stays [UNIQUE], event
    ids are pairwise distinct, and every event has a token that no other
    event has. *)
Theorem reachable_tokens_unique db :
  reachable db →
  token_column db = Unique ∧
  NoDup (ev_id <$> EVENTS db) ∧
  NoDup (stored_tokens db) ∧
  (∀ e, e ∈ EVENTS db → is_Some (ev_registration_token e)) ∧
  (∀ e token, e ∈ EVENTS db → ev_registration_token e = Some token →
              get_event_by_token token db = Return (Some e)).
Proof.
  intros (Hc & Hi & Ht & Hs & _)%reachable_events_ok.
  do 4 (split; [assumption|]).
  intros e token He Htok. unfold get_event_by_token. rewrite Hc. f_equal.
  unfold stored_tokens in Ht. clear Hc Hi Hs.
  induction (EVENTS db) as [|x l IH]; [inversion He|].
  rewrite fmap_cons in Ht. apply NoDup_cons in Ht as [Hx Hl].
  rewrite filter_cons. destruct (decide (ev_registration_token x = Some token)) as [Hxt|Hxt].
  - simpl. f_equal. apply elem_of_cons in He as [->|He]; [reflexivity|].
    exfalso. apply Hx. rewrite Hxt, <- Htok. apply list_elem_of_fmap_2, He.
  - apply elem_of_cons in He as [->|He]; [congruence|]. apply IH; assumption.
Qed.

Lemma reachable_tokens_unique_witness :
  reachable db_ann ∧ NoDup (stored_tokens db_ann).
Proof.
  assert (H : reachable db_ann).
  { apply reach_public_register; simpl;
      try apply reach_create_event; apply reach_fresh. }
  split; [exact H|]. exact (proj1 (proj2 (proj2 (reachable_tokens_unique db_ann H)))).
Defined.

(** Event ids are not reused: after an event was deleted, no later
    creation gives a stored event the id of the deleted one, so the
    participants of a new event can never be mistaken for those of an old
    one. *)
Theorem event_ids_not_reused db event_id session event urandom now req session' e :
  reachable db →
  logged_in session = true →
  get_event_by_id event_id db = Return (Some event) →
  e ∈ EVENTS (db_after (create_event urandom now req session'
                          (db_after (delete_event event_id session db)))) →
  ev_id e ≠ event_id.
Proof.
  intros (_ & _ & _ & _ & Hq)%reachable_events_ok Hs Hev.
  assert (Hdel : db_after (delete_event event_id session db) =
                 set_tables db (filter (fun e => ev_id e ≠ event_id) (EVENTS db))
                   (filter (fun p => pt_event_id p ≠ event_id) (PARTICIPANTS db))).
  { unfold delete_event. rewrite (login_required_logged_in _ _ _ Hs), Hev. reflexivity. }
  rewrite Hdel. set (db1 := set_tables db _ _).
  destruct (create_event_db_after urandom now req session' db1)
    as [-> | (row & -> & Hid & _)].
  - subst db1. simpl. intros [Hne _]%list_elem_of_filter. exact Hne.
  - simpl. intros [He | ->%list_elem_of_singleton]%elem_of_app.
    + subst db1. simpl in He. apply list_elem_of_filter in He as [Hne _]. exact Hne.
    + apply get_event_by_id_Some in Hev as [Hin <-]. specialize (Hq event Hin).
      assert (Hgt : seq_EVENTS db1 < ev_id row)
        by (rewrite Hid; apply next_rowid_above_seq).
      subst db1. simpl in Hgt. lia.
Qed.

Lemma event_ids_not_reused_witness :
  EVENTS (db_after (create_event ff_bytes 300 hack_day_form admin_session
                      (db_after (delete_event 1 admin_session db_ann))))
  = [mkEvent 2 "Hack Day" (Some EmptyString) (Some "2025-01-01")
       (Some "_____________________w") 300] ∧
  2 ≠ 1.
Proof.
  split; [vm_compute; reflexivity|].
  assert (H : reachable db_ann).
  { apply reach_public_register; simpl;
      try apply reach_create_event; apply reach_fresh. }
  apply (event_ids_not_reused db_ann 1 admin_session
           (mkEvent 1 "Hack Day" (Some EmptyString) (Some "2025-01-01")
              (Some token_hack_day) 100)
           ff_bytes 300 hack_day_form admin_session
           (mkEvent 2 "Hack Day" (Some EmptyString) (Some "2025-01-01")
              (Some "_____________________w") 300) H logged_in_admin_session).
  - vm_compute. reflexivity.
  - vm_compute. left.
Defined.

(** ** Participants and their events *)

Section orphans.

Lemma reachable_sequentially_no_orphans db : reachable_sequentially db → no_orphans db.
Proof.
  unfold no_orphans.
  induction 1 as [| urandom now req session db _ IH
                  | event_id session db _ IH
                  | now token req session db _ IH
                  | event_id participant_id session db _ IH].
  - intros p Hp. inversion Hp.
  - rewrite create_event_participants. intros p Hp. specialize (IH p Hp).
    destruct (create_event_db_after urandom now req session db)
      as [-> | (row & -> & _)]; [exact IH|].
    simpl. rewrite fmap_app. apply elem_of_app. left. exact IH.
  - destruct (delete_event_db_after event_id session db) as [-> | ->]; [exact IH|].
    simpl. intros p [Hne Hp]%list_elem_of_filter.
    destruct (proj1 (list_elem_of_fmap _ _ _) (IH p Hp)) as (e & Hid & He).
    apply list_elem_of_fmap. exists e. split; [exact Hid|].
    apply list_elem_of_filter. split; [congruence | exact He].
  - destruct (public_register_db_after quiet now token req session db)
      as [-> | [-> | [-> | (event & Hev & _ & _ & ->)]]]; try exact IH.
    simpl. intros p [Hp | ->%list_elem_of_singleton]%elem_of_app; [exact (IH p Hp)|].
    simpl. apply get_event_by_token_Some in Hev as [Hin _].
    apply list_elem_of_fmap_2. exact Hin.
  - destruct (delete_participant_db_after event_id participant_id session db)
      as [-> | ->]; [exact IH|].
    simpl. intros p [_ Hp]%list_elem_of_filter. exact (IH p Hp).
Qed.

End orphans.

(** When requests are served one after the other, every participant row
    belongs to a stored event: the EVENTS table holds a row with the
    participant's event id, and that row is what fetching the event by
    this id returns (the lookup binds the id as a parameter, so it answers
    for ids that fit SQLite's 64-bit integers). *)
Theorem sequential_no_orphans db p :
  reachable_sequentially db →
  p ∈ PARTICIPANTS db →
  ∃ e, e ∈ EVENTS db ∧ ev_id e = pt_event_id p ∧
       (fits_int64 (pt_event_id p) = true →
        get_event_by_id (pt_event_id p) db = Return (Some e)).
Proof.
  intros Hr Hp.
  pose proof (reachable_sequentially_no_orphans db Hr p Hp) as Hin.
  apply list_elem_of_fmap in Hin as (e & Hid & He).
  destruct (filter (fun e => ev_id e = pt_event_id p) (EVENTS db)) as [|e' l] eqn:E.
  - assert (Hf : e ∈ filter (fun e => ev_id e = pt_event_id p) (EVENTS db))
      by (apply list_elem_of_filter; split; [congruence | exact He]).
    rewrite E in Hf. inversion Hf.
  - assert (Hf : e' ∈ e' :: l) by left. rewrite <- E in Hf.
    apply list_elem_of_filter in Hf as [Hid' Hin'].
    exists e'. split; [exact Hin'|]. split; [exact Hid'|].
    intros Hfit. rewrite (get_event_by_id_fits _ _ Hfit), E. reflexivity.
Qed.

Lemma sequential_no_orphans_witness :
  ∃ e, get_event_by_id 1 db_ann = Return (Some e) ∧ ev_id e = 1.
Proof.
  assert (Hr : reachable_sequentially db_ann).
  { apply seq_public_register, seq_create_event, seq_fresh. }
  assert (Hp : mkParticipant 1 1 "Ann" "ann@x.com" "MIT" 200 ∈ PARTICIPANTS db_ann)
    by (vm_compute; left).
  destruct (sequential_no_orphans db_ann _ Hr Hp) as (e & _ & Hid & Hget).
  exists e. split; [exact (Hget eq_refl) | exact Hid].
Defined.

(** Without that order the guarantee is lost: foreign keys are off, and a
    registration whose event is deleted after the token lookup still
    inserts its row. *)
Example orphan_after_concurrent_delete :
  let o := public_register event_deleted_meanwhile 300 token_hack_day
             (registration_form "Bob" "bob@x.com" "MIT") ∅ db_hack_day in
  response o = redirect (ep_registration_success "Hack Day" "Bob") ∧
  EVENTS (db_after o) = [] ∧
  PARTICIPANTS (db_after o) = [mkParticipant 1 1 "Bob" "bob@x.com" "MIT" 300].
Proof. vm_compute. auto. Qed.

(** ** The login guard and the session *)

(** Without a session none of the five administrator views does its work:
    each flashes the log-in warning, redirects to the login page and
    leaves the session and the database untouched. *)
Theorem admin_views_require_login session db :
  logged_in session = false →
  dashboard session db = sent_to_login session db ∧
  (∀ urandom now req,
     create_event urandom now req session db = sent_to_login session db) ∧
  (∀ event_id, delete_event event_id session db = sent_to_login session db) ∧
  (∀ event_id req,
     view_participants event_id req session db = sent_to_login session db) ∧
  (∀ event_id participant_id,
     delete_participant event_id participant_id session db = sent_to_login session db).
Proof.
  intros Hs.
  unfold dashboard, create_event, delete_event, view_participants, delete_participant,
    login_required, sent_to_login.
  rewrite Hs. auto.
Qed.

Lemma admin_views_require_login_witness :
  logged_in ∅ = false ∧
  db_after (delete_event 1 ∅ db_ann) = db_ann ∧
  response (delete_event 1 ∅ db_ann) = redirect ep_login.
Proof.
  assert (Hs : logged_in (∅ : gmap string pyval) = false) by (vm_compute; reflexivity).
  split; [exact Hs|].
  rewrite (proj1 (proj2 (proj2 (admin_views_require_login ∅ db_ann Hs))) 1).
  split; reflexivity.
Defined.

(** The life of a session: a login with the configured credentials opens
    the dashboard, and a logout, from whatever session, closes the
    administrator views again and touches no data. *)
Theorem session_lifecycle cfg req session db :
  logged_in session = false →
  method req = POST →
  strip (form_get req "username") = ADMIN_USERNAME cfg →
  form_get req "password" = ADMIN_PASSWORD cfg →
  let s1 := session_after (login cfg req session db) in
  let s2 := session_after (logout s1 db) in
  (∃ events, response (dashboard s1 db) = render_dashboard events) ∧
  response (index s1 db) = redirect ep_dashboard ∧
  s1 !! "admin_username" = Some (PStr (ADMIN_USERNAME cfg)) ∧
  db_after (logout s1 db) = db ∧
  dashboard s2 db = sent_to_login s2 db ∧
  response (index s2 db) = redirect ep_login.
Proof.
  intros Hs Hm Hu Hp s1 s2.
  destruct (login_post cfg req session db Hs Hm) as (Hyes & _ & _).
  destruct (Hyes (conj Hu Hp)) as [Hs1 _]. fold s1 in Hs1.
  assert (Hin : logged_in s1 = true) by (rewrite Hs1; apply logged_in_insert_flag).
  assert (Hout : logged_in s2 = false) by (subst s2; vm_compute; reflexivity).
  split; [|split; [|split; [|split; [|split]]]].
  - destruct (dashboard_renders s1 db Hin) as (events & -> & _). eauto.
  - unfold index. rewrite Hin. reflexivity.
  - rewrite Hs1, lookup_insert_eq, Hu. reflexivity.
  - reflexivity.
  - apply (admin_views_require_login s2 db Hout).
  - unfold index. rewrite Hout. reflexivity.
Qed.

Lemma session_lifecycle_witness :
  let s1 := session_after (login default_config (login_form "admin" "admin123") ∅ db_ann) in
  (∃ events, response (dashboard s1 db_ann) = render_dashboard events) ∧
  response (index s1 db_ann) = redirect ep_dashboard.
Proof.
  assert (Hs : logged_in (∅ : gmap string pyval) = false) by (vm_compute; reflexivity).
  destruct (session_lifecycle default_config (login_form "admin" "admin123") ∅ db_ann
              Hs eq_refl eq_refl eq_refl) as (H1 & H2 & _).
  split; [exact H1 | exact H2].
Defined.

(** ** Creating and finding events *)

(** [create_event] validates before it writes: a trimmed name of fewer
    than three characters is refused first, then an empty trimmed date,
    each with its own message and without touching the database; a GET
    only shows the form. *)
Theorem create_event_validation urandom now req session db :
  logged_in session = true →
  let o := create_event urandom now req session db in
  (method req = POST → len (strip (form_get req "name")) < 3 →
     flashed o = [("Event name must be at least 3 characters.", "error")] ∧
     response o = redirect ep_create_event ∧ db_after o = db) ∧
  (method req = POST → 3 ≤ len (strip (form_get req "name")) →
     strip (form_get req "date") = EmptyString →
     flashed o = [("Please select an event date.", "error")] ∧
     response o = redirect ep_create_event ∧ db_after o = db) ∧
  (method req = GET →
     flashed o = [] ∧ response o = render_create_event ∧ db_after o = db).
Proof.
  intros Hs o. subst o. unfold create_event.
  rewrite (login_required_logged_in _ _ _ Hs).
  split; [|split].
  - intros -> Hn. rewrite empty_or_short by lia.
    rewrite (proj2 (Z.ltb_lt _ _) Hn). auto.
  - intros -> Hn ->. rewrite empty_or_short by lia.
    rewrite (proj2 (Z.ltb_ge _ _) Hn). auto.
  - intros ->. auto.
Qed.

Lemma create_event_validation_witness :
  let blank_name :=
    {| method := POST;
       form := list_to_map [("name", "  ab  "); ("date", "2025-01-01")];
       args := ∅ |} in
  flashed (create_event zero_bytes 100 blank_name admin_session fresh_db)
    = [("Event name must be at least 3 characters.", "error")] ∧
  db_after (create_event zero_bytes 100 blank_name admin_session fresh_db) = fresh_db.
Proof.
  intros blank_name.
  destruct (proj1 (create_event_validation zero_bytes 100 blank_name admin_session
                     fresh_db logged_in_admin_session) eq_refl)
    as (H1 & _ & H2).
  - vm_compute. reflexivity.
  - split; [exact H1 | exact H2].
Defined.

(** A created event can be found: after a valid creation with a token no
    stored event has, the new row, whose id is the next rowid of the
    table, is what the lookup by that token returns and, the id fitting
    SQLite's 64-bit integers, what the lookup by its id returns, and the
    registration page of the token shows that event. *)
Theorem create_event_then_lookup urandom now req session db :
  logged_in session = true →
  method req = POST →
  3 ≤ len (strip (form_get req "name")) →
  strip (form_get req "date") ≠ EmptyString →
  token_column db ≠ Absent →
  Some (generate_registration_token urandom) ∉ stored_tokens db →
  let token := generate_registration_token urandom in
  let db' := db_after (create_event urandom now req session db) in
  ∃ row,
    ev_name row = strip (form_get req "name") ∧
    ev_created_at row = now ∧
    get_event_by_token token db' = Return (Some row) ∧
    ev_id row = next_rowid (seq_EVENTS db) (ev_id <$> EVENTS db) ∧
    (fits_int64 (ev_id row) = true →
     get_event_by_id (ev_id row) db' = Return (Some row)) ∧
    ∀ others now' session',
      response (public_register others now' token get_request session' db')
      = render_public_register row token.
Proof.
  intros Hs Hm Hn Hd Hc Hfresh token db'. subst db'.
  rewrite (create_event_valid urandom now req session db Hs Hm Hn Hd).
  rewrite (create_event_insert_fresh urandom now req db Hc Hfresh).
  cbn [db_after].
  set (row := mkEvent _ _ _ _ _ _).
  assert (Htok : get_event_by_token token (append_event db row) = Return (Some row)).
  { unfold get_event_by_token.
    change (EVENTS (append_event db row)) with (EVENTS db ++ [row])%list.
    change (token_column (append_event db row)) with (token_column db).
    assert (Hnone : filter (fun e => ev_registration_token e = Some token) (EVENTS db) = []).
    { destruct (filter _ _) as [|e l] eqn:E; [reflexivity|].
      assert (Hin : e ∈ e :: l) by left. rewrite <- E in Hin.
      apply list_elem_of_filter in Hin as [Ht He].
      exfalso. apply Hfresh. unfold stored_tokens. fold token. rewrite <- Ht.
      apply list_elem_of_fmap_2, He. }
    rewrite filter_app, Hnone. rewrite filter_cons_True by reflexivity.
    destruct (token_column db); [congruence|reflexivity|reflexivity]. }
  exists row. split; [reflexivity|]. split; [reflexivity|]. split; [exact Htok|].
  split; [reflexivity|]. split.
  - intros Hfit. rewrite (get_event_by_id_fits _ _ Hfit). f_equal.
    change (EVENTS (append_event db row)) with (EVENTS db ++ [row])%list.
    assert (Hnone : filter (fun e => ev_id e = ev_id row) (EVENTS db) = []).
    { destruct (filter _ _) as [|e l] eqn:E; [reflexivity|].
      assert (Hin : e ∈ e :: l) by left. rewrite <- E in Hin.
      apply list_elem_of_filter in Hin as [Hid He].
      assert (Hlt : ev_id e < next_rowid (seq_EVENTS db) (ev_id <$> EVENTS db))
        by (apply next_rowid_fresh, list_elem_of_fmap_2, He).
      subst row. simpl in Hid. lia. }
    rewrite filter_app, Hnone. rewrite filter_cons_True by reflexivity. reflexivity.
  - intros others now' session'. unfold public_register. rewrite Htok. reflexivity.
Qed.

Lemma create_event_then_lookup_witness :
  ∃ row,
    ev_name row = "Hack Day" ∧
    get_event_by_token token_hack_day db_hack_day = Return (Some row) ∧
    get_event_by_id 1 db_hack_day = Return (Some row).
Proof.
  assert (Hn : 3 ≤ len (strip (form_get hack_day_form "name")))
    by (vm_compute; discriminate).
  assert (Hd : strip (form_get hack_day_form "date") ≠ EmptyString)
    by (vm_compute; discriminate).
  assert (Hc : token_column fresh_db ≠ Absent) by discriminate.
  assert (Hf : Some (generate_registration_token zero_bytes) ∉ stored_tokens fresh_db)
    by (intros H; inversion H).
  destruct (create_event_then_lookup zero_bytes 100 hack_day_form admin_session fresh_db
              logged_in_admin_session eq_refl Hn Hd Hc Hf)
    as (row & Hname & _ & Htok & Hid & Hget & _).
  assert (Hone : ev_id row = 1) by (rewrite Hid; vm_compute; reflexivity).
  rewrite Hone in Hget.
  exists row. split; [exact Hname|]. split; [exact Htok | exact (Hget eq_refl)].
Defined.

(** Deleting an event twice is the same as deleting it once: the second
    request changes nothing.  For an id that fits SQLite's 64-bit integers
    it finds no event and says so; for an id beyond that range the lookup
    itself fails (OverflowError, not caught by the view) and both requests
    end in the 500 handler with the database as it was. *)
Theorem delete_event_idempotent event_id session db :
  logged_in session = true →
  let db1 := db_after (delete_event event_id session db) in
  let o := delete_event event_id session db1 in
  db_after o = db1 ∧
  (fits_int64 event_id = true →
   get_event_by_id event_id db1 = Return None ∧
   flashed o = [("Event not found.", "error")] ∧
   response o = redirect ep_dashboard) ∧
  (fits_int64 event_id = false →
   db1 = db ∧
   delete_event event_id session db = internal_error session db ∧
   o = internal_error session db).
Proof.
  intros Hs db1 o.
  destruct (fits_int64 event_id) eqn:Hfit.
  - assert (Hnone : get_event_by_id event_id db1 = Return None).
    { subst db1. unfold delete_event. rewrite (login_required_logged_in _ _ _ Hs).
      rewrite (get_event_by_id_fits _ db Hfit).
      destruct (head (filter _ (EVENTS db))) as [event|] eqn:E;
        [|cbn [db_after]; rewrite (get_event_by_id_fits _ db Hfit), E; reflexivity].
      cbn [db_after]. rewrite (get_event_by_id_fits _ _ Hfit). f_equal. simpl.
      apply head_None.
      destruct (filter _ (filter _ _)) as [|e l] eqn:E'; [reflexivity|].
      assert (Hin : e ∈ e :: l) by left. rewrite <- E' in Hin.
      apply list_elem_of_filter in Hin as [Heq [Hne _]%list_elem_of_filter].
      congruence. }
    assert (Ho : o = {| flashed := [("Event not found.", "error")];
                        response := redirect ep_dashboard;
                        session_after := session; db_after := db1 |}).
    { subst o. unfold delete_event.
      rewrite (login_required_logged_in _ _ _ Hs), Hnone. reflexivity. }
    rewrite Ho. split; [reflexivity|]. split; [auto | discriminate].
  - assert (Hfirst : delete_event event_id session db = internal_error session db).
    { unfold delete_event. rewrite (login_required_logged_in _ _ _ Hs).
      unfold get_event_by_id. rewrite Hfit. reflexivity. }
    assert (Hdb : db1 = db) by (subst db1; rewrite Hfirst; reflexivity).
    subst o. rewrite Hdb, Hfirst.
    split; [reflexivity|]. split; [discriminate | auto].
Qed.

Lemma delete_event_idempotent_witness :
  let db1 := db_after (delete_event 1 admin_session db_ann) in
  db1 ≠ db_ann ∧ db_after (delete_event 1 admin_session db1) = db1 ∧
  response (delete_event 1 admin_session db1) = redirect ep_dashboard ∧
  delete_event (2 ^ 63) admin_session db_ann = internal_error admin_session db_ann.
Proof.
  split; [vm_compute; discriminate|].
  split; [exact (proj1 (delete_event_idempotent 1 admin_session db_ann
                          logged_in_admin_session))|].
  split; [exact (proj2 (proj2 (proj1 (proj2
                   (delete_event_idempotent 1 admin_session db_ann
                      logged_in_admin_session)) eq_refl)))|].
  exact (proj1 (proj2 (proj2 (proj2
           (delete_event_idempotent (2 ^ 63) admin_session db_ann
              logged_in_admin_session)) eq_refl))).
Defined.

(** ** Effects of a registration *)

Section registration_effects.

Lemma filter_all {A} (P : A → Prop) `{!∀ x, Decision (P x)} (l : list A) :
  (∀ x, x ∈ l → P x) → filter P l = l.
Proof.
  induction l as [|x l IH]; intros Hall; [reflexivity|].
  rewrite filter_cons_True by (apply Hall; left).
  f_equal. apply IH. intros y Hy. apply Hall. right. exact Hy.
Qed.

(** Everything a registration that ends on the success page went through. *)
Lemma public_register_success_full others now token req session db en pn :
  let o := public_register others now token req session db in
  let db2 := before_insert others (before_check others db) in
  response o = redirect (ep_registration_success en pn) →
  ∃ event,
    get_event_by_token token db = Return (Some event) ∧
    en = ev_name event ∧ pn = submitted_name req ∧
    2 ≤ len (submitted_name req) ∧ 2 ≤ len (submitted_college req) ∧
    is_valid_email (submitted_email req) = true ∧
    participant_exists_in_event (submitted_email req) (ev_id event) db2 = false ∧
    session_after o = session ∧ flashed o = [] ∧
    db_after o = append_participant db2
      {| pt_id := next_rowid (seq_PARTICIPANTS db2) (pt_id <$> PARTICIPANTS db2);
         pt_event_id := ev_id event; pt_name := submitted_name req;
         pt_email := submitted_email req; pt_college := submitted_college req;
         pt_registered_at := now |}.
Proof.
  intros o db2. subst o db2.
  unfold public_register, submitted_name, submitted_email, submitted_college.
  destruct (get_event_by_token token db) as [[event|]|e]; simpl; try discriminate.
  destruct (method req); simpl; try discriminate.
  destruct (is_empty (strip (form_get req "name")) || _) eqn:En; simpl;
    try discriminate.
  destruct (is_empty (lower (strip (form_get req "email"))) || _) eqn:Ev; simpl;
    try discriminate.
  destruct (participant_exists_in_event _ _ (before_check others db)); simpl;
    try discriminate.
  destruct (is_empty (strip (form_get req "college")) || _) eqn:Ec; simpl;
    try discriminate.
  destruct (participant_exists_in_event (lower (strip (form_get req "email")))
              (ev_id event) (before_insert others (before_check others db))) eqn:E.
  - destruct (insert_participant_duplicate (ev_id event)
                (strip (form_get req "name")) _ (strip (form_get req "college")) now _ E)
      as [msg ->]. simpl. discriminate.
  - rewrite (insert_participant_new _ _ _ _ _ _ E). simpl. intros [= <- <-].
    apply orb_false_elim in Ev as [_ Ev]. apply negb_false_iff in Ev.
    apply orb_false_elim in En as [_ En]. apply Z.ltb_ge in En.
    apply orb_false_elim in Ec as [_ Ec]. apply Z.ltb_ge in Ec.
    exists event. auto 12.
Qed.

Lemma count_append_participant db row event_id :
  get_participant_count event_id (append_participant db row) =
  get_participant_count event_id db +
  (if decide (pt_event_id row = event_id) then 1 else 0).
Proof.
  unfold get_participant_count. simpl. rewrite filter_app, length_app.
  rewrite filter_cons. destruct (decide _); simpl; lia.
Qed.

End registration_effects.

(** A registration that ends on the success page has added exactly one
    row, after the rows that were there: it carries the trimmed name, the
    trimmed lowercased email, the trimmed college, the id of the event
    behind the token and a participant id above all others.  The
    participant count of that event grows by one, the count of every
    other event is unchanged, and the events are untouched. *)
Theorem public_register_success_effects others now token req session db en pn :
  let o := public_register others now token req session db in
  let db2 := before_insert others (before_check others db) in
  response o = redirect (ep_registration_success en pn) →
  ∃ event row,
    get_event_by_token token db = Return (Some event) ∧
    en = ev_name event ∧ pn = strip (form_get req "name") ∧
    row = mkParticipant (pt_id row) (ev_id event) (strip (form_get req "name"))
            (lower (strip (form_get req "email"))) (strip (form_get req "college")) now ∧
    (∀ p, p ∈ PARTICIPANTS db2 → pt_id p < pt_id row) ∧
    PARTICIPANTS (db_after o) = (PARTICIPANTS db2 ++ [row])%list ∧
    EVENTS (db_after o) = EVENTS db2 ∧
    get_participant_count (ev_id event) (db_after o)
      = get_participant_count (ev_id event) db2 + 1 ∧
    (∀ other, other ≠ ev_id event →
       get_participant_count other (db_after o) = get_participant_count other db2).
Proof.
  intros o db2 Hok.
  destruct (public_register_success_full others now token req session db en pn Hok)
    as (event & Hev & -> & -> & _ & _ & _ & _ & _ & _ & Hdb).
  fold o db2 in Hdb.
  set (row := mkParticipant _ _ _ _ _ _) in Hdb.
  exists event, row. rewrite Hdb.
  split; [exact Hev|]. split; [reflexivity|]. split; [reflexivity|].
  split; [reflexivity|].
  split; [intros p Hp; apply next_rowid_fresh, list_elem_of_fmap_2, Hp|].
  split; [reflexivity|]. split; [reflexivity|].
  split.
  - rewrite count_append_participant. simpl.
    destruct (decide (ev_id event = ev_id event)); [reflexivity | congruence].
  - intros other Hne. rewrite count_append_participant. simpl.
    destruct (decide (ev_id event = other)); [congruence | lia].
Qed.

Lemma public_register_success_effects_witness :
  get_participant_count 1 db_hack_day = 0 ∧
  get_participant_count 1 db_ann = 1 ∧
  PARTICIPANTS db_ann = [mkParticipant 1 1 "Ann" "ann@x.com" "MIT" 200].
Proof.
  assert (Hok : response (public_register quiet 200 token_hack_day
                            (registration_form "Ann" "ann@x.com" "MIT") ∅ db_hack_day)
                = redirect (ep_registration_success "Hack Day" "Ann"))
    by (vm_compute; reflexivity).
  destruct (public_register_success_effects quiet 200 token_hack_day
              (registration_form "Ann" "ann@x.com" "MIT") ∅ db_hack_day _ _ Hok)
    as (event & row & Hev & _ & _ & _ & _ & _ & _ & Hcount & _).
  assert (Hid : ev_id event = 1).
  { vm_compute in Hev. injection Hev as <-. reflexivity. }
  rewrite Hid in Hcount.
  split; [vm_compute; reflexivity|].
  split; [|vm_compute; reflexivity].
  etransitivity; [exact Hcount | vm_compute; reflexivity].
Defined.

(** Whatever is submitted, a public registration served on its own never
    touches the session or the EVENTS table and never removes or rewrites
    a participant: the stored participants stay, in place, at the front
    of the table; a GET writes nothing at all. *)
Theorem public_register_frame now token req session db :
  let o := public_register quiet now token req session db in
  session_after o = session ∧
  EVENTS (db_after o) = EVENTS db ∧
  token_column (db_after o) = token_column db ∧
  seq_EVENTS (db_after o) = seq_EVENTS db ∧
  (∃ new, PARTICIPANTS (db_after o) = (PARTICIPANTS db ++ new)%list ∧
          (length new ≤ 1)%nat) ∧
  (method req = GET → db_after o = db).
Proof.
  intros o. subst o. unfold public_register.
  assert (Hsame : ∃ new, PARTICIPANTS db = (PARTICIPANTS db ++ new)%list ∧
                         (length new ≤ 1)%nat)
    by (exists []; rewrite app_nil_r; simpl; auto with lia).
  destruct (get_event_by_token token db) as [[event|]|e]; simpl; auto 10.
  destruct (method req); simpl; auto 10.
  destruct (is_empty (strip (form_get req "name")) || _); simpl;
    [split; [reflexivity|]; do 4 (split; [auto; fail|]); discriminate|].
  destruct (is_empty (lower (strip (form_get req "email"))) || _); simpl;
    [split; [reflexivity|]; do 4 (split; [auto; fail|]); discriminate|].
  destruct (participant_exists_in_event _ _ db) eqn:E; simpl;
    [split; [reflexivity|]; do 4 (split; [auto; fail|]); discriminate|].
  destruct (is_empty (strip (form_get req "college")) || _); simpl;
    [split; [reflexivity|]; do 4 (split; [auto; fail|]); discriminate|].
  rewrite (insert_participant_new _ _ _ _ _ _ E). simpl.
  do 4 (split; [reflexivity|]).
  split; [eexists; split; [reflexivity | simpl; lia] | discriminate].
Qed.

(** Removing a participant undoes the registration: when a registration
    served on its own succeeded, deleting the participant it created, by
    its id and the id of its event (both within SQLite's 64-bit integers,
    as the DELETE binds them), gives back the participant table as it was
    before. *)
Theorem register_then_delete now token req session db en pn admin :
  logged_in admin = true →
  let o := public_register quiet now token req session db in
  response o = redirect (ep_registration_success en pn) →
  ∃ row,
    last (PARTICIPANTS (db_after o)) = Some row ∧
    (fits_int64 (pt_event_id row) = true → fits_int64 (pt_id row) = true →
     PARTICIPANTS (db_after (delete_participant (pt_event_id row) (pt_id row) admin
                               (db_after o)))
     = PARTICIPANTS db).
Proof.
  intros Ha o Hok.
  destruct (public_register_success_effects quiet now token req session db en pn Hok)
    as (event & row & _ & _ & _ & _ & Hfresh & Hps & _).
  fold o in Hps. simpl in Hps, Hfresh.
  exists row. rewrite Hps. split; [apply last_snoc|].
  intros He Hp.
  rewrite (delete_participant_logged_in _ _ _ _ Ha), He, Hp.
  simpl. rewrite Hps, filter_app.
  rewrite filter_all.
  - rewrite filter_cons_False by (intros H; apply H; auto). simpl. apply app_nil_r.
  - intros p Hin [Hid _]. specialize (Hfresh p Hin). lia.
Qed.

Lemma register_then_delete_witness :
  PARTICIPANTS (db_after (delete_participant 1 1 admin_session db_ann))
  = PARTICIPANTS db_hack_day.
Proof.
  assert (Hok : response (public_register quiet 200 token_hack_day
                            (registration_form "Ann" "ann@x.com" "MIT") ∅ db_hack_day)
                = redirect (ep_registration_success "Hack Day" "Ann"))
    by (vm_compute; reflexivity).
  destruct (register_then_delete 200 token_hack_day
              (registration_form "Ann" "ann@x.com" "MIT") ∅ db_hack_day _ _
              admin_session logged_in_admin_session Hok) as (row & Hlast & Hdel).
  vm_compute in Hlast. injection Hlast as <-. exact (Hdel eq_refl eq_refl).
Defined.

(** ** Searching participants *)

Section like.

Lemma like_chars_percent p t :
  like_chars ("%"%char :: p) t =
  like_chars p t ||
  match t with
  | [] => false
  | _ :: t' => like_chars ("%"%char :: p) t'
  end.
Proof. destruct t; reflexivity. Qed.

Lemma like_chars_literal c p t :
  c ≠ "%"%char → c ≠ "_"%char →
  like_chars (c :: p) t =
  match t with
  | [] => false
  | d :: t' => bool_decide (lower_char c = lower_char d) && like_chars p t'
  end.
Proof.
  intros H1 H2. simpl.
  rewrite (bool_decide_eq_false_2 _ H1), (bool_decide_eq_false_2 _ H2).
  destruct t; reflexivity.
Qed.

Lemma like_chars_percent_iff p t :
  like_chars ("%"%char :: p) t = true ↔ ∃ a b, t = (a ++ b)%list ∧ like_chars p b = true.
Proof.
  induction t as [|d t IH]; rewrite like_chars_percent.
  - rewrite orb_false_r. split.
    + intros H. exists [], []. auto.
    + intros (a & b & Heq & H). symmetry in Heq. apply app_eq_nil in Heq as [-> ->].
      exact H.
  - rewrite orb_true_iff, IH. split.
    + intros [H | (a & b & -> & H)].
      * exists [], (d :: t). auto.
      * exists (d :: a), b. auto.
    + intros (a & b & Heq & H). destruct a as [|d' a]; simpl in Heq.
      * subst b. auto.
      * injection Heq as -> ->. right. eauto.
Qed.

Lemma like_chars_only_percent t : like_chars ["%"%char] t = true.
Proof. apply like_chars_percent_iff. exists t, []. rewrite app_nil_r. auto. Qed.

Lemma like_chars_literal_prefix q p t :
  Forall (fun c => c ≠ "%"%char ∧ c ≠ "_"%char) q →
  like_chars (q ++ p) t = true ↔
  ∃ m r, t = (m ++ r)%list ∧ lower_char <$> m = lower_char <$> q ∧
         like_chars p r = true.
Proof.
  intros Hq. revert t. induction Hq as [|c q [H1 H2] _ IH]; intros t.
  - simpl. split.
    + intros H. exists [], t. auto.
    + intros (m & r & -> & Hm & H). apply fmap_nil_inv in Hm as ->. exact H.
  - rewrite <- app_comm_cons, (like_chars_literal c _ t H1 H2).
    destruct t as [|d t].
    + split; [discriminate|]. intros (m & r & Heq & Hm & _).
      symmetry in Heq. apply app_eq_nil in Heq as [-> _]. discriminate Hm.
    + rewrite andb_true_iff, bool_decide_eq_true, IH. split.
      * intros (Hc & m & r & -> & Hm & H). exists (d :: m), r.
        rewrite !fmap_cons, Hm, Hc. auto.
      * intros (m & r & Heq & Hm & H). destruct m as [|d' m]; [discriminate Hm|].
        rewrite !fmap_cons in Hm. injection Hm as Hc Hm.
        simpl in Heq. injection Heq as -> ->. eauto 10.
Qed.

Lemma list_ascii_of_string_app s t :
  list_ascii_of_string (s +:+ t) = (list_ascii_of_string s ++ list_ascii_of_string t)%list.
Proof.
  induction s as [|c s IH]; [reflexivity|].
  rewrite string_app_cons. simpl. rewrite IH. reflexivity.
Qed.

Lemma string_of_list_ascii_app l k :
  string_of_list_ascii (l ++ k) = string_of_list_ascii l +:+ string_of_list_ascii k.
Proof.
  induction l as [|c l IH]; [reflexivity|].
  simpl. rewrite IH. reflexivity.
Qed.

Lemma list_ascii_of_string_lower s :
  list_ascii_of_string (lower s) = lower_char <$> list_ascii_of_string s.
Proof. induction s as [|c s IH]; simpl; [reflexivity | rewrite IH; reflexivity]. Qed.

Lemma list_ascii_of_string_inj s t :
  list_ascii_of_string s = list_ascii_of_string t → s = t.
Proof.
  intros H. rewrite <- (string_of_list_ascii_of_string s),
    <- (string_of_list_ascii_of_string t), H. reflexivity.
Qed.

Lemma no_wildcards_Forall q :
  no_wildcards q = true →
  Forall (fun c => c ≠ "%"%char ∧ c ≠ "_"%char) (list_ascii_of_string q).
Proof.
  unfold no_wildcards. induction q as [|c q IH]; simpl; [constructor|].
  intros [Hc Hq]%andb_true_iff. constructor; [|auto].
  apply negb_true_iff in Hc. unfold in_chars in Hc.
  apply bool_decide_eq_false in Hc. simpl in Hc.
  split; intros ->; apply Hc; [left | right; left].
Qed.

Lemma c_string_no_nul s : no_nul s = true → c_string s = s.
Proof.
  unfold no_nul. induction s as [|c s IH]; simpl; [reflexivity|].
  intros [Hc Hs]%andb_true_iff. apply negb_true_iff in Hc.
  rewrite Hc, (IH Hs). reflexivity.
Qed.

Lemma c_string_app s t : no_nul s = true → c_string (s +:+ t) = s +:+ c_string t.
Proof.
  unfold no_nul. induction s as [|c s IH]; simpl; [intros _; reflexivity|].
  intros [Hc Hs]%andb_true_iff. apply negb_true_iff in Hc.
  rewrite !string_app_cons. simpl. rewrite Hc, (IH Hs). reflexivity.
Qed.

Lemma c_string_lower s : c_string (lower s) = lower (c_string s).
Proof.
  induction s as [|c s IH]; simpl; [reflexivity|].
  assert (Hc : bool_decide (lower_char c = "000"%char) = bool_decide (c = "000"%char))
    by (destruct c as [[] [] [] [] [] [] [] []]; reflexivity).
  rewrite Hc. destruct (bool_decide (c = "000"%char)); simpl; [reflexivity|].
  rewrite IH. reflexivity.
Qed.

(** How the pattern of the participant search matches, for a search string
    without [%], [_] and NUL. *)
Lemma sql_like_search_pattern text q :
  no_wildcards q = true → no_nul q = true →
  sql_like text ("%" +:+ q +:+ "%") = true ↔
  ∃ pre mid post, c_string text = pre +:+ mid +:+ post ∧ lower mid = lower q.
Proof.
  intros Hq%no_wildcards_Forall Hnul. unfold sql_like.
  rewrite (c_string_app "%" (q +:+ "%") eq_refl), (c_string_app q "%" Hnul).
  change (c_string "%") with "%".
  generalize (c_string text). clear text. intros text.
  rewrite !list_ascii_of_string_app.
  change (list_ascii_of_string "%") with ["%"%char].
  change (["%"%char] ++ ?l)%list with ("%"%char :: l).
  rewrite like_chars_percent_iff. split.
  - intros (a & b & Ht & (m & r & -> & Hm & _)%(like_chars_literal_prefix _ _ _ Hq)).
    exists (string_of_list_ascii a), (string_of_list_ascii m), (string_of_list_ascii r).
    split.
    + rewrite <- !string_of_list_ascii_app, <- Ht. symmetry.
      apply string_of_list_ascii_of_string.
    + apply list_ascii_of_string_inj.
      rewrite !list_ascii_of_string_lower, list_ascii_of_string_of_list_ascii. exact Hm.
  - intros (pre & mid & post & -> & Hm).
    exists (list_ascii_of_string pre), (list_ascii_of_string (mid +:+ post)).
    split; [apply list_ascii_of_string_app|].
    apply (like_chars_literal_prefix _ _ _ Hq).
    exists (list_ascii_of_string mid), (list_ascii_of_string post).
    split; [apply list_ascii_of_string_app|].
    split; [|apply like_chars_only_percent].
    rewrite <- !list_ascii_of_string_lower, Hm. reflexivity.
Qed.

End like.

(** For a search string without [%], [_] and NUL whose pattern is within
    SQLite's length limit for LIKE patterns, the pattern the participant
    search builds matches a text exactly when the text, read up to its
    first NUL, contains the search string, letter case aside. *)
Theorem sql_like_contains text q :
  no_wildcards q = true →
  no_nul q = true →
  len ("%" +:+ q +:+ "%") ≤ SQLITE_MAX_LIKE_PATTERN_LENGTH →
  sql_like text ("%" +:+ q +:+ "%") = true ↔
  ∃ pre mid post, c_string text = pre +:+ mid +:+ post ∧ lower mid = lower q.
Proof. intros Hq Hnul _. apply sql_like_search_pattern; assumption. Qed.

Lemma sql_like_contains_witness :
  no_wildcards "ali" = true ∧ no_nul "ali" = true ∧
  len "%ali%" ≤ SQLITE_MAX_LIKE_PATTERN_LENGTH ∧
  sql_like "Natalie Jones" "%ali%" = true ∧
  sql_like ("ab" +:+ String "000"%char "alice") "%ali%" = false.
Proof.
  assert (Hlen : len ("%" +:+ "ali" +:+ "%") ≤ SQLITE_MAX_LIKE_PATTERN_LENGTH)
    by (vm_compute; discriminate).
  split; [reflexivity|]. split; [reflexivity|]. split; [exact Hlen|]. split.
  - apply (proj2 (sql_like_contains "Natalie Jones" "ali" eq_refl eq_refl Hlen)).
    exists "Nat", "ali", "e Jones". split; reflexivity.
  - apply not_true_is_false. intros H.
    apply (proj1 (sql_like_contains _ "ali" eq_refl eq_refl Hlen)) in H
      as (pre & mid & post & Heq & Hm).
    change (c_string _) with "ab" in Heq.
    destruct pre as [|a [|b [|c pre]]], mid as [|x [|y [|z [|w mid]]]];
      try discriminate Hm; rewrite ?string_app_cons, ?string_app_nil_l in Heq;
      discriminate Heq.
Defined.

Section listing.

Lemma all_chars_app f s t : all_chars f (s +:+ t) = all_chars f s && all_chars f t.
Proof.
  induction s as [|c s IH]; [reflexivity|].
  rewrite string_app_cons. simpl. rewrite IH, andb_assoc. reflexivity.
Qed.

Lemma lower_has_no_upper s : all_chars (fun c => negb (is_upper c)) (lower s) = true.
Proof.
  induction s as [|c s IH]; simpl; [reflexivity|]. rewrite IH, andb_true_r.
  destruct c as [[] [] [] [] [] [] [] []]; reflexivity.
Qed.

Lemma lower_without_upper s :
  all_chars (fun c => negb (is_upper c)) s = true → lower s = s.
Proof.
  induction s as [|c s IH]; simpl; [reflexivity|].
  intros [Hc Hs]%andb_true_iff. rewrite (IH Hs). f_equal.
  unfold lower_char. apply negb_true_iff in Hc. rewrite Hc. reflexivity.
Qed.

(** In a lowercased text, containing a lowercased string letter case aside
    is containing it. *)
Lemma contains_lowercase text q :
  (∃ pre mid post, lower text = pre +:+ mid +:+ post ∧ lower mid = lower (lower q)) ↔
  substring (lower q) (lower text).
Proof.
  unfold substring. split.
  - intros (pre & mid & post & Heq & Hm). exists pre, post.
    rewrite lower_idem in Hm. rewrite <- Hm.
    pose proof (lower_has_no_upper text) as Hno.
    rewrite Heq, !all_chars_app in Hno.
    apply andb_true_iff in Hno as [_ [Hmid _]%andb_true_iff].
    rewrite (lower_without_upper mid Hmid). exact Heq.
  - intros (pre & post & Heq). exists pre, (lower q), post.
    split; [exact Heq | reflexivity].
Qed.

Lemma registered_at_desc_total : Total registered_at_desc.
Proof. intros a b. unfold registered_at_desc. lia. Qed.

Lemma registered_at_desc_trans : Transitive registered_at_desc.
Proof. intros a b c. unfold registered_at_desc. lia. Qed.

Lemma elem_of_select_participants event_id q db p :
  p ∈ select_participants event_id q db ↔
  p ∈ PARTICIPANTS db ∧ pt_event_id p = event_id ∧
  (q = EmptyString ∨
   sql_like (lower (pt_name p)) ("%" +:+ q +:+ "%") = true ∨
   sql_like (lower (pt_email p)) ("%" +:+ q +:+ "%") = true).
Proof.
  unfold select_participants. destruct q as [|c q]; simpl negb; cbv iota;
    rewrite merge_sort_Permutation, list_elem_of_filter.
  - tauto.
  - unfold search_matches. split.
    + intros [[? ?] ?]. auto.
    + intros (? & ? & [? | ?]); [discriminate | auto].
Qed.

End listing.

(** The participant page lists the newest registration first.  Without a
    search string it lists exactly the participants of the event; with a
    search string free of [%], [_] and NUL, whose pattern is within
    SQLite's length limit for LIKE patterns, it lists exactly those
    participants of the event whose lowercased name or lowercased email,
    read up to its first NUL, contains the trimmed, lowercased search
    string. *)
Theorem view_participants_listing event_id req session db ev ps q n url :
  response (view_participants event_id req session db)
    = render_participants ev ps q n url →
  q = lower (strip (args_get req "search" EmptyString)) ∧
  StronglySorted registered_at_desc ps ∧
  (q = EmptyString →
   ∀ p, p ∈ ps ↔ p ∈ PARTICIPANTS db ∧ pt_event_id p = event_id) ∧
  (q ≠ EmptyString → no_wildcards q = true → no_nul q = true →
   len ("%" +:+ q +:+ "%") ≤ SQLITE_MAX_LIKE_PATTERN_LENGTH →
   ∀ p, p ∈ ps ↔ p ∈ PARTICIPANTS db ∧ pt_event_id p = event_id ∧
                 (substring q (c_string (lower (pt_name p))) ∨
                  substring q (c_string (lower (pt_email p))))).
Proof.
  intros (Hq & -> & _)%view_participants_rendered.
  split; [exact Hq|]. split.
  - unfold select_participants.
    destruct (negb (is_empty q));
      apply (@StronglySorted_merge_sort _ registered_at_desc _
               registered_at_desc_trans registered_at_desc_total).
  - split.
    + intros -> p. rewrite elem_of_select_participants. split.
      * intros (? & ? & _). auto.
      * intros [? ?]. auto.
    + intros Hne Hw Hnul _ p. rewrite elem_of_select_participants.
      assert (Hsub : ∀ text, sql_like (lower text) ("%" +:+ q +:+ "%") = true ↔
                             substring q (c_string (lower text))).
      { intros text. rewrite (sql_like_search_pattern _ _ Hw Hnul).
        rewrite Hq, c_string_lower. apply contains_lowercase. }
      rewrite !Hsub. split.
      * intros (? & ? & [? | ?]); [congruence | auto].
      * intros (? & ? & ?). auto.
Qed.

Lemma view_participants_listing_witness :
  ∃ ps, displayed_participants
          (response (view_participants 1 (search_request " X.CO ") admin_session db_ann))
        = Some ps ∧
        mkParticipant 1 1 "Ann" "ann@x.com" "MIT" 200 ∈ ps.
Proof.
  eexists. split; [vm_compute; reflexivity|].
  assert (Hr : response (view_participants 1 (search_request " X.CO ") admin_session db_ann)
               = render_participants
                   (mkEvent 1 "Hack Day" (Some EmptyString) (Some "2025-01-01")
                      (Some token_hack_day) 100)
                   [mkParticipant 1 1 "Ann" "ann@x.com" "MIT" 200] "x.co" 1
                   (PUrl (ep_public_register token_hack_day)))
    by (vm_compute; reflexivity).
  destruct (view_participants_listing _ _ _ _ _ _ _ _ _ Hr) as (_ & _ & _ & Hsearch).
  assert (Hlen : len ("%" +:+ "x.co" +:+ "%") ≤ SQLITE_MAX_LIKE_PATTERN_LENGTH)
    by (vm_compute; discriminate).
  apply (Hsearch ltac:(discriminate) eq_refl eq_refl Hlen).
  split; [vm_compute; left|]. split; [reflexivity|].
  right. exists "ann@", "m". reflexivity.
Defined.

(** ** What the dashboard shows *)

Section dashboard_entries.

Lemma created_at_desc_total : Total created_at_desc.
Proof. intros a b. unfold created_at_desc. lia. Qed.

Lemma created_at_desc_trans : Transitive created_at_desc.
Proof. intros a b c. unfold created_at_desc. lia. Qed.

Lemma event_details_entry db e d :
  event_details db e = Return d →
  d !! "id" = Some (PInt (ev_id e)) ∧
  d !! "name" = Some (PStr (ev_name e)) ∧
  d !! "participant_count" = Some (PInt (get_participant_count (ev_id e) db)) ∧
  (∀ s, token_column db ≠ Absent → ev_registration_token e = Some s →
        s ≠ EmptyString →
        d !! "registration_url" = Some (PUrl (ep_public_register s)) ∧
        d !! "has_token" = Some (PBool true)).
Proof.
  unfold event_details. rewrite token_of_event_row.
  generalize (get_participant_count (ev_id e) db). intros n.
  destruct e as [i nm ds dt tk ca]. simpl ev_id. simpl ev_name.
  simpl ev_registration_token.
  destruct (token_column db) eqn:Ec, tk as [[|c s]|]; simpl; intros [= <-];
    (split; [reflexivity|]); (split; [reflexivity|]); (split; [reflexivity|]);
    intros s' Hc Hs Hne; try congruence; injection Hs as <-;
    split; reflexivity.
Qed.

End dashboard_entries.

(** For a logged-in administrator the dashboard lists every stored event
    once, newest first; each entry carries the id and name of its event
    and the event's current participant count, and for an event with a
    non-empty token the registration link of exactly that token. *)
Theorem dashboard_entries session db :
  logged_in session = true →
  ∃ events,
    response (dashboard session db) = render_dashboard events ∧
    get_all_events db ≡ₚ EVENTS db ∧
    StronglySorted created_at_desc (get_all_events db) ∧
    Forall2
      (fun e d =>
         d !! "id" = Some (PInt (ev_id e)) ∧
         d !! "name" = Some (PStr (ev_name e)) ∧
         d !! "participant_count" = Some (PInt (get_participant_count (ev_id e) db)) ∧
         (∀ s, token_column db ≠ Absent → ev_registration_token e = Some s →
               s ≠ EmptyString →
               d !! "registration_url" = Some (PUrl (ep_public_register s)) ∧
               d !! "has_token" = Some (PBool true)))
      (get_all_events db) events.
Proof.
  intros Hs. destruct (dashboard_renders session db Hs) as (events & -> & Hall).
  exists events. split; [reflexivity|].
  split; [apply merge_sort_Permutation|].
  split; [apply (@StronglySorted_merge_sort _ created_at_desc _
                   created_at_desc_trans created_at_desc_total)|].
  eapply Forall2_impl; [exact Hall|].
  intros e d Hd. exact (event_details_entry db e d Hd).
Qed.

Lemma dashboard_entries_witness :
  ∃ d, response (dashboard admin_session db_ann) = render_dashboard [d] ∧
       d !! "participant_count" = Some (PInt 1) ∧
       d !! "registration_url" = Some (PUrl (ep_public_register token_hack_day)).
Proof.
  destruct (dashboard_entries admin_session db_ann logged_in_admin_session)
    as (events & Hr & _ & _ & Hall).
  assert (Hev : get_all_events db_ann =
                [mkEvent 1 "Hack Day" (Some EmptyString) (Some "2025-01-01")
                   (Some token_hack_day) 100]) by (vm_compute; reflexivity).
  rewrite Hev in Hall.
  apply Forall2_cons_inv_l in Hall as (d & rest & (_ & _ & Hcount & Hurl) & Hrest & ->).
  apply Forall2_nil_inv_l in Hrest as ->.
  exists d. split; [exact Hr|].
  split.
  - rewrite Hcount. vm_compute. reflexivity.
  - apply (Hurl token_hack_day); [vm_compute; discriminate | reflexivity | discriminate].
Defined.

(** ** Generated tokens *)

Section tokens.

Lemma b64_char_in_alphabet n : in_chars b64url_alphabet (b64_char n) = true.
Proof.
  unfold in_chars, b64_char. apply bool_decide_eq_true_2.
  destruct (list_ascii_of_string b64url_alphabet !! N.to_nat n) as [c|] eqn:E; simpl.
  - apply list_elem_of_lookup_2 in E. exact E.
  - vm_compute. left.
Qed.

End tokens.

(** A token made from sixteen random bytes has twenty-two characters, all
    of them letters, digits, hyphens or underscores, so it is a single URL
    path segment and is never empty. *)
Theorem generate_registration_token_url_safe urandom :
  length (urandom 16%nat) = 16%nat →
  let token := generate_registration_token urandom in
  String.length token = 22%nat ∧
  all_chars (in_chars b64url_alphabet) token = true ∧
  truthy (PStr token) = true.
Proof.
  intros Hl token.
  split; [exact (generate_registration_token_length urandom Hl)|].
  split; [|exact (generate_registration_token_nonempty urandom Hl)].
  subst token. unfold generate_registration_token, token_urlsafe.
  revert Hl. generalize (urandom 16%nat). intros l Hl.
  do 16 (destruct l as [|? l]; [discriminate Hl|]).
  destruct l; [|discriminate Hl].
  cbn [urlsafe_b64encode].
  rewrite !rstrip_char_keep by apply b64_char_not_pad.
  cbn [rstrip_char all_chars].
  rewrite !b64_char_in_alphabet. reflexivity.
Qed.

Lemma generate_registration_token_url_safe_witness :
  String.length (generate_registration_token ff_bytes) = 22%nat.
Proof.
  exact (proj1 (generate_registration_token_url_safe ff_bytes eq_refl)).
Defined.

(** ** Tokens lose no randomness *)

Section token_injective.

Local Open Scope N_scope.

Lemma check_below (P : N → bool) (k : nat) :
  forallb P (below k) = true → ∀ n, n < N.of_nat k → P n = true.
Proof.
  intros H n Hn. rewrite forallb_forall in H. apply H.
  unfold below. apply list_elem_of_In, list_elem_of_fmap.
  exists (N.to_nat n). split; [lia|].
  apply list_elem_of_In, in_seq. lia.
Qed.

Lemma check_below2 (P : N → N → bool) (k : nat) :
  forallb (fun x => forallb (P x) (below k)) (below k) = true →
  ∀ x y, x < N.of_nat k → y < N.of_nat k → P x y = true.
Proof.
  intros H x y Hx Hy.
  apply (check_below (P x) k); [|exact Hy].
  exact (check_below (fun x => forallb (P x) (below k)) k H x Hx).
Qed.

Lemma to_N_below (b : byte) : Byte.to_N b < N.of_nat 256.
Proof. pose proof (Byte.to_N_bounded b). lia. Qed.

Lemma to_N_inj (a b : byte) : Byte.to_N a = Byte.to_N b → a = b.
Proof.
  intros H. pose proof (Byte.of_to_N a) as Ha. rewrite H, Byte.of_to_N in Ha.
  congruence.
Qed.

Lemma b64_char_inj n m : n < 64 → m < 64 → b64_char n = b64_char m → n = m.
Proof.
  intros Hn Hm Heq.
  assert (H : (if Ascii.eqb (b64_char n) (b64_char m) then n =? m else true) = true).
  { apply (check_below2
             (fun n m => if Ascii.eqb (b64_char n) (b64_char m) then n =? m else true)
             64); [vm_compute; reflexivity | exact Hn | exact Hm]. }
  rewrite Heq, Ascii.eqb_refl in H. apply N.eqb_eq. exact H.
Qed.

Lemma sextets_below x y :
  x < N.of_nat 256 → y < N.of_nat 256 →
  sextet1 x < 64 ∧ sextet2 x y < 64 ∧ sextet3 x y < 64 ∧ sextet4 x < 64 ∧
  N.shiftl (N.land x 3) 4 < 64 ∧ N.shiftl (N.land x 15) 2 < 64.
Proof.
  intros Hx Hy.
  assert (H : (sextet1 x <? 64) && (sextet2 x y <? 64) && (sextet3 x y <? 64)
              && (sextet4 x <? 64) && (N.shiftl (N.land x 3) 4 <? 64)
              && (N.shiftl (N.land x 15) 2 <? 64) = true).
  { apply (check_below2
             (fun x y => (sextet1 x <? 64) && (sextet2 x y <? 64) && (sextet3 x y <? 64)
                         && (sextet4 x <? 64) && (N.shiftl (N.land x 3) 4 <? 64)
                         && (N.shiftl (N.land x 15) 2 <? 64)) 256);
      [vm_compute; reflexivity | exact Hx | exact Hy]. }
  repeat (apply andb_true_iff in H as [H ?]).
  repeat match goal with H : (_ <? _) = true |- _ => apply N.ltb_lt in H end.
  auto 10.
Qed.

(** The bytes can be read back from the characters. *)
Lemma octets_of_sextets x y :
  x < N.of_nat 256 → y < N.of_nat 256 →
  octet1 (sextet1 x) (sextet2 x y) = x ∧
  N.land (sextet2 x y) 15 = N.shiftr y 4 ∧
  N.shiftr (sextet3 x y) 2 = N.land x 15 ∧
  N.lor (N.shiftl (N.shiftr x 4) 4) (N.land x 15) = x ∧
  octet3 (sextet3 x y) (sextet4 y) = y ∧
  octet1 (sextet1 x) (N.shiftl (N.land x 3) 4) = x ∧
  N.land (N.shiftl (N.land x 15) 2) 3 = 0.
Proof.
  intros Hx Hy.
  assert (H : (octet1 (sextet1 x) (sextet2 x y) =? x)
              && (N.land (sextet2 x y) 15 =? N.shiftr y 4)
              && (N.shiftr (sextet3 x y) 2 =? N.land x 15)
              && (N.lor (N.shiftl (N.shiftr x 4) 4) (N.land x 15) =? x)
              && (octet3 (sextet3 x y) (sextet4 y) =? y)
              && (octet1 (sextet1 x) (N.shiftl (N.land x 3) 4) =? x)
              && (N.land (N.shiftl (N.land x 15) 2) 3 =? 0) = true).
  { apply (check_below2
             (fun x y => (octet1 (sextet1 x) (sextet2 x y) =? x)
                         && (N.land (sextet2 x y) 15 =? N.shiftr y 4)
                         && (N.shiftr (sextet3 x y) 2 =? N.land x 15)
                         && (N.lor (N.shiftl (N.shiftr x 4) 4) (N.land x 15) =? x)
                         && (octet3 (sextet3 x y) (sextet4 y) =? y)
                         && (octet1 (sextet1 x) (N.shiftl (N.land x 3) 4) =? x)
                         && (N.land (N.shiftl (N.land x 15) 2) 3 =? 0)) 256);
      [vm_compute; reflexivity | exact Hx | exact Hy]. }
  repeat (apply andb_true_iff in H as [H ?]).
  repeat match goal with H : (_ =? _) = true |- _ => apply N.eqb_eq in H end.
  auto 10.
Qed.

Lemma octet2_of_sextets x y z :
  x < N.of_nat 256 → y < N.of_nat 256 → z < N.of_nat 256 →
  octet2 (sextet2 x y) (sextet3 y z) = y.
Proof.
  intros Hx Hy Hz. unfold octet2.
  destruct (octets_of_sextets x y Hx Hy) as (_ & -> & _).
  destruct (octets_of_sextets y z Hy Hz) as (_ & _ & -> & -> & _).
  reflexivity.
Qed.

(** Three bytes are determined by their four characters. *)
Lemma group3_inj (a b c a' b' c' : byte) :
  b64_char (sextet1 (Byte.to_N a)) = b64_char (sextet1 (Byte.to_N a')) →
  b64_char (sextet2 (Byte.to_N a) (Byte.to_N b))
    = b64_char (sextet2 (Byte.to_N a') (Byte.to_N b')) →
  b64_char (sextet3 (Byte.to_N b) (Byte.to_N c))
    = b64_char (sextet3 (Byte.to_N b') (Byte.to_N c')) →
  b64_char (sextet4 (Byte.to_N c)) = b64_char (sextet4 (Byte.to_N c')) →
  a = a' ∧ b = b' ∧ c = c'.
Proof.
  pose proof (to_N_below a) as Ha. pose proof (to_N_below b) as Hb.
  pose proof (to_N_below c) as Hc. pose proof (to_N_below a') as Ha'.
  pose proof (to_N_below b') as Hb'. pose proof (to_N_below c') as Hc'.
  intros H1 H2 H3 H4.
  apply b64_char_inj in H1; [|apply (sextets_below _ _ Ha Hb)|apply (sextets_below _ _ Ha' Hb')].
  apply b64_char_inj in H2; [|apply (sextets_below _ _ Ha Hb)|apply (sextets_below _ _ Ha' Hb')].
  apply b64_char_inj in H3; [|apply (sextets_below _ _ Hb Hc)|apply (sextets_below _ _ Hb' Hc')].
  apply b64_char_inj in H4; [|apply (sextets_below _ _ Hc Hc)|apply (sextets_below _ _ Hc' Hc')].
  split; [|split]; apply to_N_inj.
  - rewrite <- (proj1 (octets_of_sextets _ _ Ha Hb)),
      <- (proj1 (octets_of_sextets _ _ Ha' Hb')), H1, H2. reflexivity.
  - rewrite <- (octet2_of_sextets _ _ _ Ha Hb Hc),
      <- (octet2_of_sextets _ _ _ Ha' Hb' Hc'), H2, H3. reflexivity.
  - destruct (octets_of_sextets _ _ Hb Hc) as (_ & _ & _ & _ & <- & _).
    destruct (octets_of_sextets _ _ Hb' Hc') as (_ & _ & _ & _ & <- & _).
    rewrite H3, H4. reflexivity.
Qed.

(** A last single byte is determined by its two characters. *)
Lemma group1_inj (a a' : byte) :
  b64_char (sextet1 (Byte.to_N a)) = b64_char (sextet1 (Byte.to_N a')) →
  b64_char (N.shiftl (N.land (Byte.to_N a) 3) 4)
    = b64_char (N.shiftl (N.land (Byte.to_N a') 3) 4) →
  a = a'.
Proof.
  pose proof (to_N_below a) as Ha. pose proof (to_N_below a') as Ha'.
  intros H1 H2.
  apply b64_char_inj in H1; [|apply (sextets_below _ _ Ha Ha)|apply (sextets_below _ _ Ha' Ha')].
  apply b64_char_inj in H2; [|apply (sextets_below _ _ Ha Ha)|apply (sextets_below _ _ Ha' Ha')].
  apply to_N_inj.
  destruct (octets_of_sextets _ _ Ha Ha) as (_ & _ & _ & _ & _ & <- & _).
  destruct (octets_of_sextets _ _ Ha' Ha') as (_ & _ & _ & _ & _ & <- & _).
  rewrite H1, H2. reflexivity.
Qed.

End token_injective.

(** Tokens lose no randomness: two runs of [generate_registration_token]
    on sixteen random bytes each give the same token only if the random
    bytes were the same. *)
Theorem generate_registration_token_injective urandom1 urandom2 :
  length (urandom1 16%nat) = 16%nat →
  length (urandom2 16%nat) = 16%nat →
  generate_registration_token urandom1 = generate_registration_token urandom2 →
  urandom1 16%nat = urandom2 16%nat.
Proof.
  unfold generate_registration_token, token_urlsafe.
  generalize (urandom1 16%nat) (urandom2 16%nat). intros l k Hl Hk.
  destruct l as [|a1 [|a2 [|a3 [|a4 [|a5 [|a6 [|a7 [|a8 [|a9 [|a10 [|a11 [|a12 [|a13 [|a14 [|a15 [|a16 [|? ?]]]]]]]]]]]]]]]]];
    try discriminate Hl.
  destruct k as [|b1 [|b2 [|b3 [|b4 [|b5 [|b6 [|b7 [|b8 [|b9 [|b10 [|b11 [|b12 [|b13 [|b14 [|b15 [|b16 [|? ?]]]]]]]]]]]]]]]]];
    try discriminate Hk.
  cbn [urlsafe_b64encode].
  rewrite !rstrip_char_keep by apply b64_char_not_pad.
  change (rstrip_char "="%char "==") with EmptyString.
  rewrite !rstrip_char_keep by apply b64_char_not_pad.
  change (rstrip_char "="%char "==") with EmptyString. intros Heq.
  destruct (group3_inj a1 a2 a3 b1 b2 b3) as (-> & -> & ->);
    [unfold sextet1, sextet2, sextet3, sextet4; congruence..|].
  destruct (group3_inj a4 a5 a6 b4 b5 b6) as (-> & -> & ->);
    [unfold sextet1, sextet2, sextet3, sextet4; congruence..|].
  destruct (group3_inj a7 a8 a9 b7 b8 b9) as (-> & -> & ->);
    [unfold sextet1, sextet2, sextet3, sextet4; congruence..|].
  destruct (group3_inj a10 a11 a12 b10 b11 b12) as (-> & -> & ->);
    [unfold sextet1, sextet2, sextet3, sextet4; congruence..|].
  destruct (group3_inj a13 a14 a15 b13 b14 b15) as (-> & -> & ->);
    [unfold sextet1, sextet2, sextet3, sextet4; congruence..|].
  rewrite (group1_inj a16 b16);
    [reflexivity | unfold sextet1; congruence | congruence].
Qed.

Lemma generate_registration_token_injective_witness :
  generate_registration_token zero_bytes ≠ generate_registration_token ff_bytes.
Proof.
  intros Heq.
  pose proof (generate_registration_token_injective zero_bytes ff_bytes
                eq_refl eq_refl Heq) as H.
  vm_compute in H. discriminate H.
Defined.
